(** * Destination board reconciliation (pkg/board): a shallow embedding

    The Go package [board] talks to the GitHub GraphQL API through
    [ghgql.Client.Do].  The functions of the package are embedded here as
    programs of a state monad over a [World]: the server-side state of the
    API (accounts, projects, board items, fields), a schedule of transport
    faults, and the trace of everything the client did (requests, log lines,
    standard output).  Paging loops ([for { ... }] in Go) take a page budget
    and report its exhaustion as [None]. *)

From Stdlib Require Import String Ascii ZArith List Lia DecimalString DecimalNat.
From stdpp Require Import base gmap sets list strings sorting.

#[local] Set Warnings "-clear-no-such-hyp".

Open Scope string_scope.
Open Scope list_scope.
Open Scope Z_scope.
Open Scope nat_scope.
Open Scope stdpp_scope.

(** ** Data model of the client *)

(** Go's [error]: [nil] or a value carrying a message. *)
Definition error := option string.

(** [board.Info] *)
Record Info := mkInfo {
  Info_ID : string;
  Info_Number : Z;
  Info_Title : string;
  Info_URL : string
}.

(** [board.Item]; [Item_Type] is "Issue", "PullRequest" or "DraftIssue". *)
Record Item := mkItem {
  Item_NodeID : string;
  Item_Number : Z;
  Item_Title : string;
  Item_Type : string
}.

(** [board.Config] *)
Record Config := mkConfig {
  Config_Token : string;
  Config_Owner : string;
  Config_Name : string;
  Config_LinkRepos : list string;
  Config_Sync : bool
}.

(** [board.boardItem] *)
Record boardItem := mkBoardItem {
  itemID : string;
  contentID : string;
  title : string
}.

(** [board.FieldOption], [board.FieldDef], [board.FieldValue], [board.FieldSpec] *)
Record FieldOption := mkFieldOption {
  FieldOption_ID : string;
  FieldOption_Name : string
}.

Record FieldDef := mkFieldDef {
  FieldDef_ID : string;
  FieldDef_Name : string;
  FieldDef_Type : string;
  FieldDef_Options : list FieldOption
}.

Record FieldValue := mkFieldValue {
  SingleSelectOptionID : string;
  Text : string
}.


#[global] Instance Info_eq_dec : EqDecision Info.
Proof. solve_decision. Defined.
#[global] Instance FieldOption_eq_dec : EqDecision FieldOption.
Proof. solve_decision. Defined.
#[global] Instance FieldDef_eq_dec : EqDecision FieldDef.
Proof. solve_decision. Defined.

(** ** The GraphQL requests the package sends *)

(** A pagination cursor is opaque to the client; the modelled server uses
    the offset of the next page. *)
Abbreviation Cursor := nat (only parsing).

(** The [$value] of [updateProjectV2ItemFieldValue]. *)
Inductive ValueInput :=
| VSingleSelectOptionId (optionId : string)
| VText (text : string).

Inductive Request :=
| QueryUserProjects (owner : string) (cursor : option Cursor)
| QueryOrgProjects (owner : string) (cursor : option Cursor)
| QueryUserID (login : string)
| QueryOrgID (login : string)
| CreateProjectV2 (ownerId title : string)
| QueryItemContentIDs (projectId : string) (cursor : option Cursor)
| QueryItems (projectId : string) (cursor : option Cursor)
| AddProjectV2ItemById (projectId contentId : string)
| DeleteProjectV2Item (projectId itemId : string)
| QueryRepositoryID (owner name : string)
| LinkProjectV2ToRepository (projectId repositoryId : string)
| UpdateProjectV2ItemFieldValue (projectId itemId fieldId : string) (value : ValueInput)
| CreateProjectV2Field (projectId dataType name : string)
                       (singleSelectOptions : list (string * string)).

Record PageInfo := mkPageInfo {
  HasNextPage : bool;
  EndCursor : Cursor
}.

(** One node of the [items] connection as [getProjectItems] decodes it. *)
Record ItemNode := mkItemNode {
  ItemNode_ID : string;
  ItemNode_ContentID : string;
  ItemNode_ContentTitle : string
}.

(** [board.projectFieldNode], also the shape of a created field. *)
Record projectFieldNode := mkFieldNode {
  FieldNode_ID : string;
  FieldNode_Name : string;
  FieldNode_DataType : string;
  FieldNode_Options : list FieldOption
}.

(** The value [Do] decodes into its [result] argument, per request. *)
Definition ResultOf (req : Request) : Type :=
  match req with
  | QueryUserProjects _ _ | QueryOrgProjects _ _ => (list Info * PageInfo)%type
  | QueryUserID _ | QueryOrgID _ | QueryRepositoryID _ _ => string
  | CreateProjectV2 _ _ => Info
  | QueryItemContentIDs _ _ => (list string * PageInfo)%type
  | QueryItems _ _ => (list ItemNode * PageInfo)%type
  | AddProjectV2ItemById _ _ => string
  | DeleteProjectV2Item _ _ => unit
  | LinkProjectV2ToRepository _ _ => unit
  | UpdateProjectV2ItemFieldValue _ _ _ _ => unit
  | CreateProjectV2Field _ _ _ _ => projectFieldNode
  end.

Definition zeroPage : PageInfo := mkPageInfo false 0.
Definition zeroInfo : Info := mkInfo "" 0%Z "" "".

(** The zero value a [result] keeps when [Do] returns an error. *)
Definition zero (req : Request) : ResultOf req :=
  match req return ResultOf req with
  | QueryUserProjects _ _ | QueryOrgProjects _ _ => ([], zeroPage)
  | QueryUserID _ | QueryOrgID _ | QueryRepositoryID _ _ => ""
  | CreateProjectV2 _ _ => zeroInfo
  | QueryItemContentIDs _ _ => ([], zeroPage)
  | QueryItems _ _ => ([], zeroPage)
  | AddProjectV2ItemById _ _ => ""
  | DeleteProjectV2Item _ _ => tt
  | LinkProjectV2ToRepository _ _ => tt
  | UpdateProjectV2ItemFieldValue _ _ _ _ => tt
  | CreateProjectV2Field _ _ _ _ => mkFieldNode "" "" "" []
  end.

Definition is_add (req : Request) : bool :=
  match req with AddProjectV2ItemById _ _ => true | _ => false end.

Definition is_delete (req : Request) : bool :=
  match req with DeleteProjectV2Item _ _ => true | _ => false end.

Definition is_mutation (req : Request) : bool :=
  match req with
  | CreateProjectV2 _ _ | AddProjectV2ItemById _ _ | DeleteProjectV2Item _ _
  | LinkProjectV2ToRepository _ _ | UpdateProjectV2ItemFieldValue _ _ _ _
  | CreateProjectV2Field _ _ _ _ => true
  | _ => false
  end.

Definition is_query (req : Request) : bool := negb (is_mutation req).

(** ** What a run leaves behind *)

(** An argument of a [Printf]-style call. *)
Inductive Arg :=
| AStr (s : string)
| AInt (n : Z)
| AErr (e : string).

Inductive Event :=
| EvDo (req : Request) (err : error)
| EvLog (format : string) (args : list Arg)
| EvPrint (format : string) (args : list Arg).

Definition is_do (ev : Event) : bool :=
  match ev with EvDo _ _ => true | _ => false end.

Definition ev_add (ev : Event) : bool :=
  match ev with EvDo req _ => is_add req | _ => false end.

Definition ev_delete (ev : Event) : bool :=
  match ev with EvDo req _ => is_delete req | _ => false end.

Definition ev_print (ev : Event) : bool :=
  match ev with EvPrint _ _ => true | _ => false end.

(** ** The modelled server *)

(** What the content of a board item is, as far as the queries of the
    package can tell: the [... on Issue] and [... on PullRequest] fragments
    select the same fields everywhere, drafts are selected by
    [getProjectItems] only, and a redacted item answers no fragment. *)
Inductive ContentKind := IssueOrPullRequest | DraftIssue | Redacted.

#[global] Instance ContentKind_eq_dec : EqDecision ContentKind.
Proof. solve_decision. Defined.

Record ServerItem := mkServerItem {
  sitem_ID : string;
  sitem_Kind : ContentKind;
  sitem_ContentID : string;
  sitem_Title : string
}.

#[global] Instance ServerItem_eq_dec : EqDecision ServerItem.
Proof. solve_decision. Defined.

Record Account := mkAccount {
  acct_Login : string;
  acct_ID : string;
  acct_IsOrg : bool
}.

Record Repo := mkRepo {
  repo_Owner : string;
  repo_Name : string;
  repo_ID : string
}.

(** The state of the API server. *)
Record Server := mkServer {
  accounts : list Account;
  projects : list (string * Info);            (* owner node id, project *)
  boards : gmap string (list ServerItem);     (* project id -> items, in order *)
  fields : gmap string (list projectFieldNode);
  values : list (string * string * ValueInput); (* item id, field id, value *)
  repos : list Repo;
  links : list (string * string);             (* project id, repository id *)
  minted : nat                                (* identifiers minted so far *)
}.

Record World := mkWorld {
  server : Server;
  clock : nat;                                (* requests sent so far *)
  faults : nat -> Request -> option string;   (* transport failures *)
  trace : list Event
}.

Definition board (s : Server) (projectId : string) : list ServerItem :=
  default [] (boards s !! projectId).

Definition set_board (projectId : string) (items : list ServerItem) (n : nat)
    (s : Server) : Server :=
  mkServer (accounts s) (projects s) (<[projectId := items]> (boards s)) (fields s)
           (values s) (repos s) (links s) n.

(** Identifiers are minted from a counter, in decimal after a prefix. *)
Definition mintID (prefix : string) (n : nat) : string :=
  prefix +:+ NilEmpty.string_of_uint (Nat.to_uint n).

Definition mintItemID : nat -> string := mintID "PVTI_".

(** Every connection is requested with [first: 100]. *)
Definition pageSize : nat := 100.

Definition paginate {A} (xs : list A) (cursor : option Cursor) : list A * PageInfo :=
  let off := default 0 cursor in
  (take pageSize (drop off xs),
   mkPageInfo (bool_decide (off + pageSize < length xs)) (off + pageSize)).

Definition findAccount (login : string) (isOrg : bool) (s : Server) : option Account :=
  List.find (λ a, bool_decide (acct_Login a = login) && Bool.eqb (acct_IsOrg a) isOrg)
            (accounts s).

Definition projectsOf (ownerId : string) (s : Server) : list Info :=
  map snd (filter (λ p, p.1 = ownerId) (projects s)).

(** [content { ... on Issue { id } ... on PullRequest { id } }] *)
Definition indexedID (it : ServerItem) : string :=
  match sitem_Kind it with
  | IssueOrPullRequest => sitem_ContentID it
  | _ => ""
  end.

(** [id content { ... on Issue { id title } ... on PullRequest { id title }
    ... on DraftIssue { id title } }] *)
Definition listedNode (it : ServerItem) : ItemNode :=
  match sitem_Kind it with
  | Redacted => mkItemNode (sitem_ID it) "" ""
  | _ => mkItemNode (sitem_ID it) (sitem_ContentID it) (sitem_Title it)
  end.

Definition listedID (it : ServerItem) : string := ItemNode_ContentID (listedNode it).

Definition map_page {A B} (f : A -> B) (p : list A * PageInfo) : list B * PageInfo :=
  (map f p.1, p.2).

(** The server's answer to a request that reached it: an error of its own
    or a result, and the state after.  The API does not deduplicate items:
    [addProjectV2ItemById] appends a membership record with a new
    identifier. *)
Definition serve (req : Request) (s : Server) : error * ResultOf req * Server :=
  match req return error * ResultOf req * Server with
  | QueryUserProjects owner cursor =>
      match findAccount owner false s with
      | Some a => (None, paginate (projectsOf (acct_ID a) s) cursor, s)
      | None => (Some "Could not resolve to a User", ([], zeroPage), s)
      end
  | QueryOrgProjects owner cursor =>
      match findAccount owner true s with
      | Some a => (None, paginate (projectsOf (acct_ID a) s) cursor, s)
      | None => (Some "Could not resolve to an Organization", ([], zeroPage), s)
      end
  | QueryUserID login =>
      match findAccount login false s with
      | Some a => (None, acct_ID a, s)
      | None => (Some "Could not resolve to a User", "", s)
      end
  | QueryOrgID login =>
      match findAccount login true s with
      | Some a => (None, acct_ID a, s)
      | None => (Some "Could not resolve to an Organization", "", s)
      end
  | CreateProjectV2 ownerId title =>
      if existsb (λ a, bool_decide (acct_ID a = ownerId)) (accounts s) then
        let p := mkInfo (mintID "PVT_" (minted s)) (Z.of_nat (minted s)) title
                        (mintID "https://github.com/projects/" (minted s)) in
        (None, p,
         mkServer (accounts s) (projects s ++ [(ownerId, p)]) (boards s) (fields s)
                  (values s) (repos s) (links s) (S (minted s)))
      else (Some "Could not resolve to a node", zeroInfo, s)
  | QueryItemContentIDs projectId cursor =>
      (None, map_page indexedID (paginate (board s projectId) cursor), s)
  | QueryItems projectId cursor =>
      (None, map_page listedNode (paginate (board s projectId) cursor), s)
  | AddProjectV2ItemById projectId contentId =>
      let it := mkServerItem (mintItemID (minted s)) IssueOrPullRequest contentId "" in
      (None, sitem_ID it,
       set_board projectId (board s projectId ++ [it]) (S (minted s)) s)
  | DeleteProjectV2Item projectId itemId =>
      (None, tt,
       set_board projectId (filter (λ it, sitem_ID it ≠ itemId) (board s projectId))
                 (minted s) s)
  | QueryRepositoryID owner name =>
      match List.find (λ r, bool_decide (repo_Owner r = owner)
                            && bool_decide (repo_Name r = name)) (repos s) with
      | Some r => (None, repo_ID r, s)
      | None => (Some "Could not resolve to a Repository", "", s)
      end
  | LinkProjectV2ToRepository projectId repositoryId =>
      if bool_decide ((projectId, repositoryId) ∈ links s) then
        (Some "Project is already linked to this repository", tt, s)
      else
        (None, tt,
         mkServer (accounts s) (projects s) (boards s) (fields s) (values s) (repos s)
                  (links s ++ [(projectId, repositoryId)]) (minted s))
  | UpdateProjectV2ItemFieldValue projectId itemId fieldId value =>
      (None, tt,
       mkServer (accounts s) (projects s) (boards s) (fields s)
                ((itemId, fieldId, value) :: values s) (repos s) (links s) (minted s))
  | CreateProjectV2Field projectId dataType name options =>
      let opts := imap (λ i o, mkFieldOption (mintID (mintID "PVTSSO_" (minted s) +:+ "_") i) o.1)
                       options in
      let f := mkFieldNode (mintID "PVTF_" (minted s)) name dataType opts in
      (* the selection on a single-select field has no [dataType] *)
      (None,
       if bool_decide (dataType = "SINGLE_SELECT")
       then mkFieldNode (FieldNode_ID f) name "" opts else f,
       mkServer (accounts s) (projects s) (boards s)
                (<[projectId := default [] (fields s !! projectId) ++ [f]]> (fields s))
                (values s) (repos s) (links s) (S (minted s)))
  end.

(** ** The monad of the client *)

(** A computation reads and updates the world; [None] means that the call
    does not return (an exhausted page budget: the Go loop would still be
    running). *)
Definition M (A : Type) : Type := World -> option (A * World).

#[global] Instance M_ret : MRet M := λ A a w, Some (a, w).

#[global] Instance M_bind : MBind M := λ A B f m w,
  match m w with
  | Some (a, w') => f a w'
  | None => None
  end.

Definition diverge {A} : M A := λ _, None.

Definition emit (ev : Event) (w : World) : World :=
  mkWorld (server w) (clock w) (faults w) (trace w ++ [ev]).

(** A request was sent: the clock advances and the outcome is recorded. *)
Definition sent (req : Request) (err : error) (s : Server) (w : World) : World :=
  mkWorld s (S (clock w)) (faults w) (trace w ++ [EvDo req err]).

(** [ghgql.Client.Do]: the transport may fail before the request
    reaches the server; otherwise the server answers. *)
Definition Do (req : Request) : M (error * ResultOf req) := λ w,
  match faults w (clock w) req with
  | Some msg => Some ((Some msg, zero req), sent req (Some msg) (server w) w)
  | None =>
      let '(err, result, s') := serve req (server w) in
      Some ((err, result), sent req err s' w)
  end.

(** [log.Printf] and [fmt.Printf]; the format is kept with its arguments. *)
Definition logPrintf (format : string) (args : list Arg) : M unit :=
  λ w, Some (tt, emit (EvLog format args) w).

Definition fmtPrintf (format : string) (args : list Arg) : M unit :=
  λ w, Some (tt, emit (EvPrint format args) w).

(** ** Formatting and string helpers of the Go standard library *)

Definition quote : string := String (ascii_of_nat 34) EmptyString.

Definition renderArg (verb : ascii) (a : Arg) : string :=
  match a with
  | AStr s => if Ascii.eqb verb "q" then quote +:+ s +:+ quote else s
  | AInt n => NilEmpty.string_of_int (Z.to_int n)
  | AErr e => e
  end.

(** [fmt.Sprintf] for the verbs the package uses: [%s %q %d %v %w]. *)
Fixpoint Sprintf (format : string) (args : list Arg) : string :=
  match format with
  | String "%" (String verb rest) =>
      match args with
      | a :: args' => renderArg verb a +:+ Sprintf rest args'
      | [] => String "%" (String verb (Sprintf rest []))
      end
  | String c rest => String c (Sprintf rest args)
  | EmptyString => EmptyString
  end.

(** [fmt.Errorf] *)
Definition Errorf (format : string) (args : list Arg) : error :=
  Some (Sprintf format args).

(** [strings.Contains] *)
Fixpoint Contains (s substr : string) : bool :=
  String.prefix substr s ||
  match s with
  | String _ rest => Contains rest substr
  | EmptyString => false
  end.

(** [strings.SplitN(s, "/", 2)] *)
Fixpoint SplitN2 (s : string) : list string :=
  match s with
  | EmptyString => [EmptyString]
  | String c rest =>
      if Ascii.eqb c "/" then [EmptyString; rest]
      else match SplitN2 rest with
           | [a] => [String c a]
           | a :: b => String c a :: b
           | [] => []
           end
  end.

(** [len] as a Go [int]. *)
Definition len {A} (xs : list A) : Z := Z.of_nat (length xs).

(** ** Find project *)

Definition hasTitle (title : string) (p : Info) : bool :=
  bool_decide (Info_Title p = title).

Fixpoint findUserProject (fuel : nat) (owner title : string) (cursor : option Cursor)
    : M (option Info * error) :=
  match fuel with
  | 0 => diverge
  | S fuel =>
      '(err, result) ← Do (QueryUserProjects owner cursor);
      match err with
      | Some e => mret (None, Some e)
      | None =>
          match List.find (hasTitle title) result.1 with
          | Some p =>
              mret (Some (mkInfo (Info_ID p) (Info_Number p) (Info_Title p) (Info_URL p)), None)
          | None =>
              if negb (HasNextPage result.2) then mret (None, None)
              else findUserProject fuel owner title (Some (EndCursor result.2))
          end
      end
  end.

Fixpoint findOrgProject (fuel : nat) (owner title : string) (cursor : option Cursor)
    : M (option Info * error) :=
  match fuel with
  | 0 => diverge
  | S fuel =>
      '(err, result) ← Do (QueryOrgProjects owner cursor);
      match err with
      | Some e => mret (None, Some e)
      | None =>
          match List.find (hasTitle title) result.1 with
          | Some p =>
              mret (Some (mkInfo (Info_ID p) (Info_Number p) (Info_Title p) (Info_URL p)), None)
          | None =>
              if negb (HasNextPage result.2) then mret (None, None)
              else findOrgProject fuel owner title (Some (EndCursor result.2))
          end
      end
  end.

(** [FindProject] searches the user's or org's projects for one matching
    the given title. *)
Definition FindProject (fuel : nat) (boardOwner title : string) : M (option Info * error) :=
  '(proj, err) ← findUserProject fuel boardOwner title None;
  match err, proj with
  | None, Some p => mret (Some p, None)
  | _, _ =>
      '(proj, err) ← findOrgProject fuel boardOwner title None;
      match err, proj with
      | None, Some p => mret (Some p, None)
      | _, _ => mret (None, None)
      end
  end.

(** ** Create project *)

Definition resolveOwnerNodeID (login : string) : M (string * error) :=
  '(err, userID) ← Do (QueryUserID login);
  if bool_decide (err = None) && negb (bool_decide (userID = "")) then
    mret (userID, None)
  else
    '(err, orgID) ← Do (QueryOrgID login);
    if bool_decide (err = None) && negb (bool_decide (orgID = "")) then
      mret (orgID, None)
    else
      mret ("", Errorf "could not resolve node ID for %q" [AStr login]).

Definition CreateProject (boardOwner title : string) : M (option Info * error) :=
  '(ownerID, err) ← resolveOwnerNodeID boardOwner;
  match err with
  | Some e => mret (None, Errorf "resolving owner node ID: %w" [AErr e])
  | None =>
      '(err, p) ← Do (CreateProjectV2 ownerID title);
      match err with
      | Some e => mret (None, Some e)
      | None =>
          mret (Some (mkInfo (Info_ID p) (Info_Number p) (Info_Title p) (Info_URL p)), None)
      end
  end.

(** ** Add items *)

(** The inner [for _, item := range result.Node.Items.Nodes] of
    [getProjectItemContentIDs]: [ids[item.Content.ID] = true] for the
    non-empty identifiers.  The Go [map[string]bool] only ever holds [true]
    and is read with a missing key meaning [false]: a set. *)
Definition indexNodes (ids : gset string) (nodes : list string) : gset string :=
  foldl (λ ids id, if bool_decide (id = "") then ids else {[id]} ∪ ids) ids nodes.

Fixpoint getProjectItemContentIDs_from (fuel : nat) (projectID : string)
    (cursor : option Cursor) (ids : gset string) : M (gset string * error) :=
  match fuel with
  | 0 => diverge
  | S fuel =>
      '(err, result) ← Do (QueryItemContentIDs projectID cursor);
      match err with
      | Some e => mret (∅, Some e)
      | None =>
          let ids := indexNodes ids result.1 in
          if negb (HasNextPage result.2) then mret (ids, None)
          else getProjectItemContentIDs_from fuel projectID (Some (EndCursor result.2)) ids
      end
  end.

Definition getProjectItemContentIDs (fuel : nat) (projectID : string)
    : M (gset string * error) :=
  getProjectItemContentIDs_from fuel projectID None ∅.

(** The body of [for _, item := range items] in [addItems], with the two
    counters threaded through. *)
Fixpoint addItems_range (projectID : string) (existingIDs : gset string)
    (items : list Item) (added skipped : Z) : M (Z * Z) :=
  match items with
  | [] => mret (added, skipped)
  | item :: items =>
      if bool_decide (Item_NodeID item = "") then
        logPrintf "  Skipping %q (no node ID)" [AStr (Item_Title item)];;
        addItems_range projectID existingIDs items added (skipped + 1)%Z
      else if bool_decide (Item_Type item = "DraftIssue") then
        logPrintf "  Skipping draft issue %q (draft issues cannot be added by content ID)"
                  [AStr (Item_Title item)];;
        addItems_range projectID existingIDs items added (skipped + 1)%Z
      else if bool_decide (Item_NodeID item ∈ existingIDs) then
        logPrintf "  #%d already on board, skipping" [AInt (Item_Number item)];;
        addItems_range projectID existingIDs items added (skipped + 1)%Z
      else
        '(err, _) ← Do (AddProjectV2ItemById projectID (Item_NodeID item));
        match err with
        | Some e =>
            logPrintf "  Error adding #%d: %v" [AInt (Item_Number item); AErr e];;
            addItems_range projectID existingIDs items added (skipped + 1)%Z
        | None =>
            logPrintf "  Added #%d: %s" [AInt (Item_Number item); AStr (Item_Title item)];;
            addItems_range projectID existingIDs items (added + 1)%Z skipped
        end
  end.

Definition addItems (fuel : nat) (projectID : string) (items : list Item)
    : M (Z * Z * error) :=
  '(existingIDs, err) ← getProjectItemContentIDs fuel projectID;
  existingIDs ← match err with
                | Some e =>
                    logPrintf "Warning: could not check existing items: %v" [AErr e];;
                    mret (∅ : gset string)
                | None => mret existingIDs
                end;
  '(added, skipped) ← addItems_range projectID existingIDs items 0%Z 0%Z;
  mret (added, skipped, None).

(** ** Remove stale items *)

Definition toBoardItem (n : ItemNode) : boardItem :=
  mkBoardItem (ItemNode_ID n) (ItemNode_ContentID n) (ItemNode_ContentTitle n).

Fixpoint getProjectItems_from (fuel : nat) (projectID : string)
    (cursor : option Cursor) (items : list boardItem) : M (list boardItem * error) :=
  match fuel with
  | 0 => diverge
  | S fuel =>
      '(err, result) ← Do (QueryItems projectID cursor);
      match err with
      | Some e => mret ([], Some e)
      | None =>
          let items := items ++ map toBoardItem result.1 in
          if negb (HasNextPage result.2) then mret (items, None)
          else getProjectItems_from fuel projectID (Some (EndCursor result.2)) items
      end
  end.

Definition getProjectItems (fuel : nat) (projectID : string) : M (list boardItem * error) :=
  getProjectItems_from fuel projectID None [].

(** [currentIDs]: the node identifiers of the current items, without the
    empty one. *)
Definition currentIDsOf (currentItems : list Item) : gset string :=
  foldl (λ ids item, if bool_decide (Item_NodeID item = "") then ids
                     else {[Item_NodeID item]} ∪ ids) ∅ currentItems.

Fixpoint removeStaleItems_range (projectID : string) (currentIDs : gset string)
    (items : list boardItem) (removed : Z) : M Z :=
  match items with
  | [] => mret removed
  | item :: items =>
      if negb (bool_decide (contentID item = ""))
         && negb (bool_decide (contentID item ∈ currentIDs)) then
        '(err, _) ← Do (DeleteProjectV2Item projectID (itemID item));
        match err with
        | Some e =>
            logPrintf "  Error removing stale item %s: %v" [AStr (itemID item); AErr e];;
            removeStaleItems_range projectID currentIDs items removed
        | None =>
            logPrintf "  Removed stale item: %s" [AStr (title item)];;
            removeStaleItems_range projectID currentIDs items (removed + 1)%Z
        end
      else removeStaleItems_range projectID currentIDs items removed
  end.

Definition removeStaleItems (fuel : nat) (projectID : string) (currentItems : list Item)
    : M (Z * error) :=
  let currentIDs := currentIDsOf currentItems in
  '(items, err) ← getProjectItems fuel projectID;
  match err with
  | Some e => mret (0%Z, Errorf "listing project items: %w" [AErr e])
  | None =>
      removed ← removeStaleItems_range projectID currentIDs items 0%Z;
      mret (removed, None)
  end.

(** ** Link repos *)

Definition resolveRepoNodeID (owner name : string) : M (string * error) :=
  '(err, id) ← Do (QueryRepositoryID owner name);
  match err with
  | Some e => mret ("", Some e)
  | None =>
      if bool_decide (id = "") then
        mret ("", Errorf "repository %s/%s not found" [AStr owner; AStr name])
      else mret (id, None)
  end.

Fixpoint LinkProjectToRepositories_range (projectID : string) (repos : list string)
    (linked skipped : Z) : M (Z * Z) :=
  match repos with
  | [] => mret (linked, skipped)
  | repo :: repos =>
      match SplitN2 repo with
      | [owner; name] =>
          '(repoID, err) ← resolveRepoNodeID owner name;
          match err with
          | Some e =>
              logPrintf "  Error resolving repo %s: %v" [AStr repo; AErr e];;
              LinkProjectToRepositories_range projectID repos linked (skipped + 1)%Z
          | None =>
              '(linkErr, _) ← Do (LinkProjectV2ToRepository projectID repoID);
              match linkErr with
              | Some e =>
                  if Contains e "already linked" || Contains e "already exists" then
                    logPrintf "  %s already linked, skipping" [AStr repo];;
                    LinkProjectToRepositories_range projectID repos linked (skipped + 1)%Z
                  else
                    logPrintf "  Error linking %s: %v" [AStr repo; AErr e];;
                    LinkProjectToRepositories_range projectID repos linked (skipped + 1)%Z
              | None =>
                  logPrintf "  Linked project to %s" [AStr repo];;
                  LinkProjectToRepositories_range projectID repos (linked + 1)%Z skipped
              end
          end
      | _ =>
          logPrintf "  Skipping invalid repo %q (expected owner/name)" [AStr repo];;
          LinkProjectToRepositories_range projectID repos linked (skipped + 1)%Z
      end
  end.

Definition LinkProjectToRepositories (projectID : string) (repos : list string)
    : M (Z * Z * error) :=
  '(linked, skipped) ← LinkProjectToRepositories_range projectID repos 0%Z 0%Z;
  mret (linked, skipped, None).

(** ** Update board *)

(** A nil dereference: the call does not return. *)
Definition panic {A} : M A := λ _, None.

(** "Link repos if configured" *)
Definition UpdateBoard_linkRepos (config : Config) (project : Info) : M unit :=
  if bool_decide (0 < len (Config_LinkRepos config))%Z then
    logPrintf "Linking project to %d repository(ies)..."
              [AInt (len (Config_LinkRepos config))];;
    '(linked, linkSkipped, err) ←
      LinkProjectToRepositories (Info_ID project) (Config_LinkRepos config);
    match err with
    | Some e => logPrintf "Warning: error linking repositories: %v" [AErr e]
    | None =>
        logPrintf "Done: %d linked, %d skipped (already linked or error)"
                  [AInt linked; AInt linkSkipped]
    end
  else mret tt.

(** "Optionally remove stale items" *)
Definition UpdateBoard_sync (fuel : nat) (config : Config) (items : list Item)
    (project : Info) : M unit :=
  if Config_Sync config then
    logPrintf "Syncing: removing stale items not in current query..." [];;
    '(removed, err) ← removeStaleItems fuel (Info_ID project) items;
    match err with
    | Some e => logPrintf "Warning: error removing stale items: %v" [AErr e]
    | None => logPrintf "Removed %d stale item(s)" [AInt removed]
    end
  else mret tt.

(** [UpdateBoard] from "Add items to the board" on, once [project] is set. *)
Definition UpdateBoard_project (fuel : nat) (config : Config) (items : list Item)
    (project : Info) : M error :=
  logPrintf "Adding %d item(s) to project board..." [AInt (len items)];;
  '(added, skipped, err) ← addItems fuel (Info_ID project) items;
  match err with
  | Some e => mret (Errorf "adding items: %w" [AErr e])
  | None =>
      logPrintf "Done: %d added, %d skipped (already present or error)"
                [AInt added; AInt skipped];;
      UpdateBoard_linkRepos config project;;
      UpdateBoard_sync fuel config items project;;
      fmtPrintf "\nProject board: %s\n" [AStr (Info_URL project)];;
      mret None
  end.

(** [UpdateBoard] creates or updates a GitHub Projects V2 board with the
    given items. *)
Definition UpdateBoard (fuel : nat) (config : Config) (items : list Item) : M error :=
  logPrintf "Board name: %q" [AStr (Config_Name config)];;
  logPrintf "Board owner: %s" [AStr (Config_Owner config)];;
  '(project, err) ← FindProject fuel (Config_Owner config) (Config_Name config);
  match err with
  | Some e => mret (Errorf "searching for project: %w" [AErr e])
  | None =>
      match project with
      | None =>
          logPrintf "Project %q not found, creating..." [AStr (Config_Name config)];;
          '(project, err) ← CreateProject (Config_Owner config) (Config_Name config);
          match err with
          | Some e => mret (Errorf "creating project: %w" [AErr e])
          | None =>
              match project with
              | None => panic
              | Some project =>
                  logPrintf "Created project: %s" [AStr (Info_URL project)];;
                  UpdateBoard_project fuel config items project
              end
          end
      | Some project =>
          logPrintf "Found existing project: %s" [AStr (Info_URL project)];;
          UpdateBoard_project fuel config items project
      end
  end.

(** ** Field values and custom fields *)

Section Fields.

(** [strings.ToLower] *)
Variable ToLower : string -> string.

(** [ResolveOptionID] finds a single-select option ID by name within a
    field.  Returns [("", false)] if not found. *)
Definition ResolveOptionID (field : FieldDef) (optionName : string) : string * bool :=
  let lower := ToLower optionName in
  match List.find (λ opt, bool_decide (ToLower (FieldOption_Name opt) = lower))
                  (FieldDef_Options field) with
  | Some opt => (FieldOption_ID opt, true)
  | None => ("", false)
  end.

(** [UpdateItemField] sets a field value on a project item. *)
Definition UpdateItemField (projectID itemID fieldID : string) (value : FieldValue)
    : M error :=
  if negb (bool_decide (SingleSelectOptionID value = "")) then
    '(err, _) ← Do (UpdateProjectV2ItemFieldValue projectID itemID fieldID
                      (VSingleSelectOptionId (SingleSelectOptionID value)));
    mret err
  else if negb (bool_decide (Text value = "")) then
    '(err, _) ← Do (UpdateProjectV2ItemFieldValue projectID itemID fieldID
                      (VText (Text value)));
    mret err
  else mret None.

(** The end of the loop body of [SetItemFields]: the value is sent and a
    failure is logged. *)
Definition SetItemFields_update (projectID itemID fieldName desiredValue : string)
    (destField : FieldDef) (fv : FieldValue) : M unit :=
  err ← UpdateItemField projectID itemID (FieldDef_ID destField) fv;
  match err with
  | Some e =>
      logPrintf "    Error setting %s=%s: %v" [AStr fieldName; AStr desiredValue; AErr e]
  | None => mret tt
  end.

(** The body of [for fieldName, desiredValue := range fieldValues]; a
    [continue] ends it. *)
Definition SetItemFields_entry (projectID itemID : string) (destFields : gmap string FieldDef)
    (fieldName desiredValue : string) : M unit :=
  if bool_decide (desiredValue = "") then mret tt
  else
    match destFields !! fieldName with
    | None =>
        logPrintf "    Field %q not found on destination board, skipping" [AStr fieldName]
    | Some destField =>
        if bool_decide (FieldDef_Type destField = "SINGLE_SELECT") then
          let '(optID, found) := ResolveOptionID destField desiredValue in
          if negb found then
            logPrintf "    Option %q not found for field %q, skipping"
                      [AStr desiredValue; AStr fieldName]
          else
            SetItemFields_update projectID itemID fieldName desiredValue destField
                                 (mkFieldValue optID "")
        else
          SetItemFields_update projectID itemID fieldName desiredValue destField
                               (mkFieldValue "" desiredValue)
    end.

(** [SetItemFields] sets multiple field values on a project item.  Go
    ranges over the map [fieldValues] in an order of the runtime's choice:
    the argument here is the sequence of entries in the order visited. *)
Fixpoint SetItemFields (projectID itemID : string) (fieldValues : list (string * string))
    (destFields : gmap string FieldDef) : M unit :=
  match fieldValues with
  | [] => mret tt
  | (fieldName, desiredValue) :: fieldValues =>
      SetItemFields_entry projectID itemID destFields fieldName desiredValue;;
      SetItemFields projectID itemID fieldValues destFields
  end.

Definition colors : list string :=
  ["GRAY"; "BLUE"; "GREEN"; "YELLOW"; "ORANGE"; "RED"; "PINK"; "PURPLE"].

Definition createField (projectID name dataType : string) (options : list string)
    : M (option FieldDef * error) :=
  let opts :=
    if bool_decide (dataType = "SINGLE_SELECT") && bool_decide (0 < length options) then
      imap (λ i opt, (opt, default "" (colors !! (i mod length colors)))) options
    else [] in
  '(err, f) ← Do (CreateProjectV2Field projectID dataType name opts);
  match err with
  | Some e => mret (None, Some e)
  | None =>
      if bool_decide (0 < length (FieldNode_Options f)) then
        mret (Some (mkFieldDef (FieldNode_ID f) (FieldNode_Name f) "SINGLE_SELECT"
                               (FieldNode_Options f)), None)
      else
        mret (Some (mkFieldDef (FieldNode_ID f) (FieldNode_Name f) (FieldNode_DataType f) []),
              None)
  end.








End Fields.

(** ASCII letters are lowered as [strings.ToLower] lowers them; the
    theorems about field matching hold for any lowering. *)
Fixpoint asciiToLower (s : string) : string :=
  match s with
  | EmptyString => EmptyString
  | String c rest =>
      String (if (Ascii.leb "A" c && Ascii.leb c "Z")%bool
              then ascii_of_nat (nat_of_ascii c + 32) else c)
             (asciiToLower rest)
  end.


(** * Vocabulary of the properties *)

(** [w'] continues [w]: the fault schedule is the same and the trace has
    grown by [evs]. *)
Definition continues (w w' : World) (evs : list Event) : Prop :=
  faults w' = faults w /\ trace w' = trace w ++ evs.

(** A log line or a query: nothing the server state or the standard output
    could notice. *)
Definition ev_quiet (ev : Event) : bool :=
  match ev with
  | EvDo req _ => is_query req
  | EvLog _ _ => true
  | EvPrint _ _ => false
  end.

(** The add requests of a trace: project, content identifier, outcome. *)
Definition addsOf (evs : list Event) : list (string * string * error) :=
  omap (λ ev, match ev with
              | EvDo (AddProjectV2ItemById p c) e => Some (p, c, e)
              | _ => None
              end) evs.

(** The delete requests of a trace: project, item identifier, outcome. *)
Definition deletesOf (evs : list Event) : list (string * string * error) :=
  omap (λ ev, match ev with
              | EvDo (DeleteProjectV2Item p i) e => Some (p, i, e)
              | _ => None
              end) evs.

(** What was printed on standard output. *)
Definition printsOf (evs : list Event) : list Event := filter (λ ev, ev_print ev = true) evs.

(** The targets of the requests that succeeded. *)
Definition succeeded (rs : list (string * string * error)) : list string :=
  omap (λ r, match r.2 with None => Some r.1.2 | Some _ => None end) rs.

(** Requests of the phases after board resolution. *)
Definition post_resolution (req : Request) : bool :=
  match req with
  | QueryUserProjects _ _ | QueryOrgProjects _ _ | QueryUserID _ | QueryOrgID _
  | CreateProjectV2 _ _ => false
  | _ => true
  end.

(** Every failed request of the phases after board resolution is followed
    at once by a log line. *)
Fixpoint logged (evs : list Event) : Prop :=
  match evs with
  | [] => True
  | EvDo req (Some _) :: rest =>
      (post_resolution req = true ->
       match rest with EvLog _ _ :: _ => True | _ => False end)
      /\ logged rest
  | _ :: rest => logged rest
  end.

(** The membership index of a board: what [getProjectItemContentIDs]
    collects when every page arrives. *)
Definition indexOf (items : list ServerItem) : gset string :=
  indexNodes ∅ (map indexedID items).

(** The listing of a board: what [getProjectItems] collects. *)
Definition listingOf (items : list ServerItem) : list boardItem :=
  map toBoardItem (map listedNode items).

(** A candidate that [addItems] would send, were it not already indexed. *)
Definition eligible (item : Item) : bool :=
  negb (bool_decide (Item_NodeID item = ""))
  && negb (bool_decide (Item_Type item = "DraftIssue")).

(** The content identifiers [addItems] sends, in order. *)
Definition toAdd (existingIDs : gset string) (items : list Item) : list string :=
  map Item_NodeID
      (filter (λ item, eligible item = true /\ Item_NodeID item ∉ existingIDs) items).

(** The membership records the server appends for the content identifiers
    [cids] when [n] identifiers were minted before. *)
Fixpoint freshItems (n : nat) (cids : list string) : list ServerItem :=
  match cids with
  | [] => []
  | c :: cids => mkServerItem (mintItemID n) IssueOrPullRequest c "" :: freshItems (S n) cids
  end.

Definition addedServer (pid : string) (news : list ServerItem) (s : Server) : Server :=
  match news with
  | [] => s
  | _ => set_board pid (board s pid ++ news) (minted s + length news) s
  end.

(** A listed item [removeStaleItems] asks to delete. *)
Definition stale (currentIDs : gset string) (item : boardItem) : bool :=
  negb (bool_decide (contentID item = ""))
  && negb (bool_decide (contentID item ∈ currentIDs)).

Definition deletedServer (pid : string) (ids : list string) (s : Server) : Server :=
  foldl (λ s id, set_board pid (filter (λ it, sitem_ID it ≠ id) (board s pid)) (minted s) s)
        s ids.

(** The content identifiers the membership index sees, item by item. *)
Definition indexedIDs (items : list ServerItem) : list string :=
  filter (λ c, c ≠ "") (map indexedID items).

(** Membership by content identifier, as the listing shows it. *)
Definition membership (items : list ServerItem) : gset string :=
  list_to_set (filter (λ c, c ≠ "") (map listedID items)).

(** Events that neither add nor delete an item nor print. *)
Definition calm (evs : list Event) : Prop :=
  addsOf evs = [] /\ deletesOf evs = [] /\ printsOf evs = [].

(** The server keeps its boards; identifiers may have been minted. *)
Definition keeps_boards (s s' : Server) : Prop :=
  boards s' = boards s /\ minted s <= minted s'.

(** The projects a paged query for [owner] walks through. *)
Definition ownedProjects (isOrg : bool) (owner : string) (s : Server) : list Info :=
  match findAccount owner isOrg s with
  | Some a => projectsOf (acct_ID a) s
  | None => []
  end.

(** The summary line that ends a run. *)
Definition summary (project : Info) : Event :=
  EvPrint "\nProject board: %s\n" [AStr (Info_URL project)].

(** The items on the board after the add phase. *)
Definition afterAdds (s : Server) (pid : string) (evsA : list Event) : list ServerItem :=
  board s pid ++ freshItems (minted s) (succeeded (addsOf evsA)).

(** The world once [UpdateBoard] has logged the board name and owner. *)
Definition banner (config : Config) (w : World) : World :=
  emit (EvLog "Board owner: %s" [AStr (Config_Owner config)])
       (emit (EvLog "Board name: %q" [AStr (Config_Name config)]) w).

Definition notFound (config : Config) : Event :=
  EvLog "Project %q not found, creating..." [AStr (Config_Name config)].

(** Board resolution fails: the lookup returns no project and the creation
    returns an error. *)
Definition resolution_fails (fuel : nat) (config : Config) (w : World) : Prop :=
  ∃ w1 created e w2,
    FindProject fuel (Config_Owner config) (Config_Name config) (banner config w)
      = Some ((None, None), w1) /\
    CreateProject (Config_Owner config) (Config_Name config) (emit (notFound config) w1)
      = Some ((created, Some e), w2).

(** The item identifiers of every board are distinct and were minted
    before: none is an identifier the server has yet to mint. *)
Definition wf_ids (s : Server) : Prop :=
  ∀ pid, NoDup (map sitem_ID (board s pid)) /\
         ∀ it n, it ∈ board s pid -> minted s <= n -> sitem_ID it ≠ mintItemID n.

(** The content identifiers of the candidates [addItems] would send. *)
Definition sendableIDs (items : list Item) : gset string :=
  list_to_set (map Item_NodeID (filter (λ item, eligible item = true) items)).

(** The board of the specification's scenario: items A and B. *)
Definition exampleProject : Info := mkInfo "PVT_x" 7 "My Board" "https://github.com/users/ben/projects/7".

Definition exampleServer : Server :=
  mkServer [mkAccount "ben" "U_1" false]
           [("U_1", exampleProject)]
           {["PVT_x" := [mkServerItem "I1" IssueOrPullRequest "A" "a";
                         mkServerItem "I2" IssueOrPullRequest "B" "b"]]}
           ∅ [] [] [] 0.

(** A transport that never fails, and one that fails its second request. *)
Definition reliable : nat -> Request -> option string := λ _ _, None.

Definition failsSecond : nat -> Request -> option string :=
  λ n _, if Nat.eqb n 1 then Some "502 Bad Gateway" else None.

Definition exampleWorld (f : nat -> Request -> option string) : World :=
  mkWorld exampleServer 0 f [].

Definition itemB : Item := mkItem "B" 2 "b" "Issue".
Definition itemC : Item := mkItem "C" 3 "c" "Issue".
Definition draftD : Item := mkItem "D" 4 "d" "DraftIssue".

Definition exampleConfig (sync : bool) : Config :=
  mkConfig "token" "ben" "My Board" ["ben/repo"] sync.

(** A destination field Status with the options Tracked and Done. *)
Definition exampleFields : gmap string FieldDef :=
  {["Status" := mkFieldDef "PVTF_1" "Status" "SINGLE_SELECT"
                           [mkFieldOption "O1" "Tracked"; mkFieldOption "O2" "Done"]]}.

(** ** The copies in the sig_auth_interests tool *)

Module SigAuthInterests.



(** [findProject] of the tool: the same text as [FindProject]. *)
Definition findProject (fuel : nat) (boardOwner title : string) : M (option Info * error) :=
  '(proj, err) ← findUserProject fuel boardOwner title None;
  match err, proj with
  | None, Some p => mret (Some p, None)
  | _, _ =>
      '(proj, err) ← findOrgProject fuel boardOwner title None;
      match err, proj with
      | None, Some p => mret (Some p, None)
      | _, _ => mret (None, None)
      end
  end.

End SigAuthInterests.

(** * The rest of the packages

    What the orchestrator does not call: [AddItem] and the file-name and
    field-node helpers, the pure functions of the [sig_auth_interests] tool,
    the views of a project, and the package [cache].  The views are other
    requests of the API and the cache calls [os]: each of the two is
    embedded in a module with a world of its own. *)

(** ** Add item and return item ID *)


(** The requests of a trace, in the order sent. *)
Definition requestsOf (evs : list Event) : list Request :=
  omap (λ ev, match ev with EvDo req _ => Some req | _ => None end) evs.


(** The line [LinkProjectToRepositories] logs for a malformed entry. *)
Definition invalidRepo (repo : string) : Event :=
  EvLog "  Skipping invalid repo %q (expected owner/name)" [AStr repo].

Section FieldVocabulary.

Variable ToLower : string -> string.

(** A request that sets, on the item [itemID], a field of [destFields] to
    the value one of the [entries] asks for: the text itself for a text
    field, the identifier of an option of that name for a single-select
    field. *)
Definition valid_update (projectID itemID : string) (destFields : gmap string FieldDef)
    (entries : list (string * string)) (req : Request) : Prop :=
  ∃ fieldName desiredValue destField value,
    (fieldName, desiredValue) ∈ entries /\ desiredValue ≠ "" /\
    destFields !! fieldName = Some destField /\
    req = UpdateProjectV2ItemFieldValue projectID itemID (FieldDef_ID destField) value /\
    if bool_decide (FieldDef_Type destField = "SINGLE_SELECT") then
      ∃ opt, opt ∈ FieldDef_Options destField /\
             ToLower (FieldOption_Name opt) = ToLower desiredValue /\
             FieldOption_ID opt ≠ "" /\
             value = VSingleSelectOptionId (FieldOption_ID opt)
    else value = VText desiredValue.

End FieldVocabulary.

(** ** Strings of the Go standard library, continued *)

(** [strings.ReplaceAll(s, old, new)] for one-byte [old] and [new]. *)
Fixpoint ReplaceAll (s : string) (old new : ascii) : string :=
  match s with
  | EmptyString => EmptyString
  | String c rest =>
      String (if Ascii.eqb c old then new else c) (ReplaceAll rest old new)
  end.

(** [strings.Join] *)
Fixpoint Join (elems : list string) (sep : string) : string :=
  match elems with
  | [] => ""
  | [x] => x
  | x :: rest => x +:+ sep +:+ Join rest sep
  end.

(** [strings.Split(s, sep)] for a one-byte [sep]. *)
Fixpoint Split (s : string) (sep : ascii) : list string :=
  match s with
  | EmptyString => [EmptyString]
  | String c rest =>
      if Ascii.eqb c sep then EmptyString :: Split rest sep
      else match Split rest sep with
           | piece :: pieces => String c piece :: pieces
           | [] => [String c EmptyString]
           end
  end.

(** [strings.HasPrefix] and [strings.HasSuffix] *)
Definition HasPrefix (s prefix : string) : bool := String.prefix prefix s.

Definition HasSuffix (s suffix : string) : bool :=
  (String.length suffix <=? String.length s)
  && String.eqb (substring (String.length s - String.length suffix)
                           (String.length suffix) s) suffix.

(** ** The cache package: file names *)

(** [cache.SafeString] replaces characters that are problematic in
    filenames. *)
Definition SafeString (s : string) : string :=
  let s := ReplaceAll s "/" "-" in
  let s := ReplaceAll s " " "_" in
  s.

(** ** Field definitions read from the API *)

(** What [parseFieldNodes] stores for a node. *)
Definition fieldOfNode (n : projectFieldNode) : FieldDef :=
  let def := mkFieldDef (FieldNode_ID n) (FieldNode_Name n) (FieldNode_DataType n) [] in
  if bool_decide (0 < length (FieldNode_Options n)) then
    mkFieldDef (FieldDef_ID def) (FieldDef_Name def) "SINGLE_SELECT"
               (foldl (λ opts opt,
                         opts ++ [mkFieldOption (FieldOption_ID opt) (FieldOption_Name opt)])
                      (FieldDef_Options def) (FieldNode_Options n))
  else def.

(** [parseFieldNodes]: [fields[n.Name] = def] for the named nodes, in
    order. *)
Definition parseFieldNodes (nodes : list projectFieldNode) : gmap string FieldDef :=
  foldl (λ fields n,
           if bool_decide (FieldNode_Name n = "") then fields
           else <[FieldNode_Name n := fieldOfNode n]> fields)
        ∅ nodes.

(** ** The sig_auth_interests tool: configuration, filters and cache keys *)

Module SigAuthMain.

(** [Config] of the tool. *)
Record Config := mkConfig {
  Config_GitHubToken : string;
  Config_Org : string;
  Config_Repos : list string;
  Config_Labels : list string;
  Config_Milestone : string;
  Config_States : list string;
  Config_ExcludeLabels : list string;
  Config_Involved : list string;
  Config_ItemTypes : list string;
  Config_OutputMode : string;
  Config_BoardOwner : string;
  Config_BoardName : string;
  Config_LinkRepos : list string;
  Config_Sync : bool;
  Config_DryRun : bool;
  Config_UseCache : string
}.

(** [ProjectItem]: an issue or pull request found by repository search. *)
Record ProjectItem := mkProjectItem {
  ProjectItem_NodeID : string;
  ProjectItem_Type : string;
  ProjectItem_Number : Z;
  ProjectItem_Title : string;
  ProjectItem_URL : string;
  ProjectItem_State : string;
  ProjectItem_Repo : string;
  ProjectItem_Author : string;
  ProjectItem_Milestone : string;
  ProjectItem_Labels : list string;
  ProjectItem_Assignees : list string;
  ProjectItem_Fields : list (string * string)
}.

Section Tool.

(** [strings.ToLower] and [strings.TrimSpace] *)
Variable ToLower : string -> string.
Variable TrimSpace : string -> string.

(** [splitAndTrim] splits a comma-separated string and trims whitespace. *)
Definition splitAndTrim (s : string) : list string :=
  if bool_decide (s = "") then []
  else
    foldl (λ result p,
             let p := TrimSpace p in
             if negb (bool_decide (p = "")) then result ++ [p] else result)
          [] (Split s ",").

(** [parseRepos] parses "owner/repo" or "repo" entries; bare repo names
    are prefixed with the org. *)
Definition parseRepos (raw org : string) : list string :=
  foldl (λ repos p,
           let p := if negb (Contains p "/") then org +:+ "/" +:+ p else p in
           repos ++ [p])
        [] (splitAndTrim raw).

(** [parseLinkRepos] parses DEST_LINK_REPOS into "owner/repo" entries. *)
Definition parseLinkRepos (raw boardOwner : string) : list string :=
  foldl (λ repos p,
           let p := if negb (Contains p "/") && negb (bool_decide (boardOwner = ""))
                    then boardOwner +:+ "/" +:+ p else p in
           repos ++ [p])
        [] (splitAndTrim raw).

(** [userSet] of [filterByInvolved]: the lowered user names. *)
Definition userSetOf (users : list string) : gset string :=
  foldl (λ userSet u, {[ToLower u]} ∪ userSet) ∅ users.

(** The inner loop of [filterByInvolved]: whether an assignee is in the
    set; the loop appends the item and breaks at the first one. *)
Fixpoint anyAssignee (userSet : gset string) (assignees : list string) : bool :=
  match assignees with
  | [] => false
  | a :: assignees =>
      if bool_decide (ToLower a ∈ userSet) then true
      else anyAssignee userSet assignees
  end.

(** [filterByInvolved] keeps items where the author or at least one
    assignee matches the given usernames. *)
Definition filterByInvolved (items : list ProjectItem) (users : list string)
    : list ProjectItem :=
  let userSet := userSetOf users in
  foldl (λ filtered item,
           if negb (bool_decide (ProjectItem_Author item = ""))
              && bool_decide (ToLower (ProjectItem_Author item) ∈ userSet)
           then filtered ++ [item]
           else if anyAssignee userSet (ProjectItem_Assignees item)
                then filtered ++ [item]
                else filtered)
        [] items.

(** [typeSet] of [filterByItemTypes]. *)
Definition typeSetOf (types : list string) : gset string :=
  foldl (λ typeSet t,
           let l := ToLower t in
           if bool_decide (l = "issues") || bool_decide (l = "issue") then
             {["Issue"]} ∪ typeSet
           else if bool_decide (l = "pr") || bool_decide (l = "pullrequest")
                   || bool_decide (l = "pull_request") then
             {["PullRequest"]} ∪ typeSet
           else typeSet)
        ∅ types.

(** [filterByItemTypes] keeps items matching the requested types. *)
Definition filterByItemTypes (items : list ProjectItem) (types : list string)
    : list ProjectItem :=
  let typeSet := typeSetOf types in
  foldl (λ filtered item,
           if bool_decide (ProjectItem_Type item ∈ typeSet) then filtered ++ [item]
           else filtered)
        [] items.

End Tool.

(** The closure [safe] of [cacheKey] and [cachePrefix]. *)
Definition safe (s : string) : string :=
  let s := ReplaceAll s "/" "-" in
  let s := ReplaceAll s " " "_" in
  s.

(** [cacheKey] builds a filename-safe key from the query parameters;
    [now] is [time.Now().Format("2006-01-02T15-04-05")]. *)
Definition cacheKey (config : Config) (now : string) : string :=
  let parts := ["items"; safe (Config_Org config)] in
  let parts := if negb (bool_decide (Config_Milestone config = ""))
               then parts ++ [safe (Config_Milestone config)] else parts in
  let parts := foldl (λ parts r, parts ++ [safe r]) parts (Config_Repos config) in
  let parts := parts ++ [now] in
  Join parts "_" +:+ ".json".

(** [cachePrefix] returns the prefix all matching cache files share
    (without timestamp). *)
Definition cachePrefix (config : Config) : string :=
  let parts := ["items"; safe (Config_Org config)] in
  let parts := if negb (bool_decide (Config_Milestone config = ""))
               then parts ++ [safe (Config_Milestone config)] else parts in
  let parts := foldl (λ parts r, parts ++ [safe r]) parts (Config_Repos config) in
  Join parts "_" +:+ "_".

End SigAuthMain.


(** ** The sig_auth_interests tool: searching *)

Module SigAuthQuery.

Import SigAuthMain.

Section Search.

(** [strings.ToLower]; [strconv.Quote], which renders the verb [%q]; and
    [executeSearch], which runs one search query through the API and pages
    through its results. *)
Variable ToLower : string -> string.
Variable Quote : string -> string.
Variable executeSearch : string -> M (list ProjectItem * error).

(** [buildSearchQueries] constructs GitHub search query strings from
    config. *)
Definition buildSearchQueries (config : Config) : list string :=
  let base :=
    if bool_decide (0 < length (Config_States config)) then
      foldl (λ base s, base ++ ["is:" +:+ ToLower s]) [] (Config_States config)
    else ["is:open"] in
  let base :=
    if negb (bool_decide (Config_Milestone config = "")) then
      base ++ ["milestone:" +:+ Quote (Config_Milestone config)]
    else base in
  let base :=
    foldl (λ base l, base ++ ["-label:" +:+ Quote l]) base (Config_ExcludeLabels config) in
  let baseStr := Join base " " in
  let repos :=
    if bool_decide (length (Config_Repos config) = 0) then [""]
    else Config_Repos config in
  let labels :=
    if bool_decide (length (Config_Labels config) = 0) then [""]
    else Config_Labels config in
  foldl (λ queries repo,
           foldl (λ queries label,
                    let parts :=
                      if negb (bool_decide (repo = "")) then ["repo:" +:+ repo]
                      else ["org:" +:+ Config_Org config] in
                    let parts :=
                      if negb (bool_decide (label = "")) then
                        parts ++ ["label:" +:+ Quote label]
                      else parts in
                    let parts := parts ++ [baseStr] in
                    queries ++ [Join parts " "])
                 queries labels)
        [] repos.




End Search.

End SigAuthQuery.

(** What [filterByInvolved] keeps: an item whose author is named and among
    the users, or one of whose assignees is among them, names compared
    lowered. *)
Definition involved (ToLower : string -> string) (users : list string)
    (item : SigAuthMain.ProjectItem) : Prop :=
  (SigAuthMain.ProjectItem_Author item ≠ "" /\
   ToLower (SigAuthMain.ProjectItem_Author item) ∈ map ToLower users) \/
  Exists (λ a, ToLower a ∈ map ToLower users) (SigAuthMain.ProjectItem_Assignees item).

#[global] Instance involved_dec ToLower users item : Decision (involved ToLower users item).
Proof. unfold involved. apply _. Defined.






(** ** Views of a project (pkg/board, views.go)

    The functions on views send requests of their own; they are embedded
    over a world of the same shape as [World], with the views of each
    project as the state of the server. *)

Module Views.

(** [board.ViewDef] and [board.ViewConfig] *)
Record ViewDef := mkViewDef {
  ViewDef_ID : string;
  ViewDef_Name : string;
  ViewDef_Number : Z;
  ViewDef_Layout : string;
  ViewDef_Filter : string
}.

Record ViewConfig := mkViewConfig {
  ViewConfig_Name : string;
  ViewConfig_FieldNames : list string
}.

(** The two mutations [updateProjectV2View] of the package are told apart
    by their input: a name, or the visible fields. *)
Inductive Request :=
| QueryViews (projectId : string) (cursor : option Cursor)
| CreateProjectV2View (projectId : string)
| UpdateProjectV2ViewName (projectId viewId name : string)
| UpdateProjectV2ViewFields (projectId viewId : string) (fields : list string).

Definition ResultOf (req : Request) : Type :=
  match req with
  | QueryViews _ _ => (list ViewDef * PageInfo)%type
  | CreateProjectV2View _ => ViewDef
  | UpdateProjectV2ViewName _ _ _ => unit
  | UpdateProjectV2ViewFields _ _ _ => unit
  end.

Definition zeroView : ViewDef := mkViewDef "" "" 0%Z "" "".

Definition zero (req : Request) : ResultOf req :=
  match req return ResultOf req with
  | QueryViews _ _ => ([], zeroPage)
  | CreateProjectV2View _ => zeroView
  | UpdateProjectV2ViewName _ _ _ => tt
  | UpdateProjectV2ViewFields _ _ _ => tt
  end.

Inductive Event :=
| EvDo (req : Request) (err : error)
| EvLog (format : string) (args : list Arg).

(** A view on the server, with the fields it shows. *)
Record ServerView := mkServerView {
  sview_Def : ViewDef;
  sview_Fields : list string
}.

Record Server := mkServer {
  views : gmap string (list ServerView);      (* project id -> views, in order *)
  minted : nat
}.

Record World := mkWorld {
  server : Server;
  clock : nat;
  faults : nat -> Request -> option string;
  trace : list Event
}.

Definition viewsOf (s : Server) (projectId : string) : list ServerView :=
  default [] (views s !! projectId).

(** The connection of views is requested with [first: 50]. *)
Definition pageSize : nat := 50.

Definition paginate {A} (xs : list A) (cursor : option Cursor) : list A * PageInfo :=
  let off := default 0 cursor in
  (take pageSize (drop off xs),
   mkPageInfo (bool_decide (off + pageSize < length xs)) (off + pageSize)).

Definition hasID (viewId : string) (v : ServerView) : bool :=
  bool_decide (ViewDef_ID (sview_Def v) = viewId).

Definition rename (viewId name : string) (v : ServerView) : ServerView :=
  if hasID viewId v then
    mkServerView (mkViewDef (ViewDef_ID (sview_Def v)) name (ViewDef_Number (sview_Def v))
                            (ViewDef_Layout (sview_Def v)) (ViewDef_Filter (sview_Def v)))
                 (sview_Fields v)
  else v.

Definition show (viewId : string) (fields : list string) (v : ServerView) : ServerView :=
  if hasID viewId v then mkServerView (sview_Def v) fields else v.

(** The server's answer to a request that reached it.  A view is created
    as a table with a name of the server's choice; the other mutations
    fail on a view that does not exist. *)
Definition serve (req : Request) (s : Server) : error * ResultOf req * Server :=
  match req return error * ResultOf req * Server with
  | QueryViews projectId cursor =>
      (None, paginate (map sview_Def (viewsOf s projectId)) cursor, s)
  | CreateProjectV2View projectId =>
      let v := mkViewDef (mintID "PVTV_" (minted s))
                         (mintID "View " (S (length (viewsOf s projectId))))
                         (Z.of_nat (S (length (viewsOf s projectId))))
                         "TABLE_LAYOUT" "" in
      (None, v,
       mkServer (<[projectId := viewsOf s projectId ++ [mkServerView v []]]> (views s))
                (S (minted s)))
  | UpdateProjectV2ViewName projectId viewId name =>
      if existsb (hasID viewId) (viewsOf s projectId) then
        (None, tt,
         mkServer (<[projectId := map (rename viewId name) (viewsOf s projectId)]> (views s))
                  (minted s))
      else (Some "Could not resolve to a node", tt, s)
  | UpdateProjectV2ViewFields projectId viewId fields =>
      if existsb (hasID viewId) (viewsOf s projectId) then
        (None, tt,
         mkServer (<[projectId := map (show viewId fields) (viewsOf s projectId)]> (views s))
                  (minted s))
      else (Some "Could not resolve to a node", tt, s)
  end.

(** The monad of the client, [ghgql.Client.Do] and [log.Printf], as for
    [World]. *)
Definition M (A : Type) : Type := World -> option (A * World).

#[global] Instance M_ret : MRet M := λ A a w, Some (a, w).

#[global] Instance M_bind : MBind M := λ A B f m w,
  match m w with
  | Some (a, w') => f a w'
  | None => None
  end.

Definition diverge {A} : M A := λ _, None.

(** A nil dereference: the call does not return. *)
Definition panic {A} : M A := λ _, None.

Definition emit (ev : Event) (w : World) : World :=
  mkWorld (server w) (clock w) (faults w) (trace w ++ [ev]).

Definition sent (req : Request) (err : error) (s : Server) (w : World) : World :=
  mkWorld s (S (clock w)) (faults w) (trace w ++ [EvDo req err]).

Definition Do (req : Request) : M (error * ResultOf req) := λ w,
  match faults w (clock w) req with
  | Some msg => Some ((Some msg, zero req), sent req (Some msg) (server w) w)
  | None =>
      let '(err, result, s') := serve req (server w) in
      Some ((err, result), sent req err s' w)
  end.

Definition logPrintf (format : string) (args : list Arg) : M unit :=
  λ w, Some (tt, emit (EvLog format args) w).

(** The verb [%v] on a [[]string]: the elements between brackets. *)
Definition AStrs (l : list string) : Arg := AStr ("[" +:+ Join l " " +:+ "]").

(** *** List views *)

Fixpoint ListViews_from (fuel : nat) (projectID : string) (cursor : option Cursor)
    (views : list ViewDef) : M (list ViewDef * error) :=
  match fuel with
  | 0 => diverge
  | S fuel =>
      '(err, result) ← Do (QueryViews projectID cursor);
      match err with
      | Some e => mret ([], Some e)
      | None =>
          let views :=
            views ++ map (λ v, mkViewDef (ViewDef_ID v) (ViewDef_Name v) (ViewDef_Number v)
                                         (ViewDef_Layout v) (ViewDef_Filter v)) result.1 in
          if negb (HasNextPage result.2) then mret (views, None)
          else ListViews_from fuel projectID (Some (EndCursor result.2)) views
      end
  end.

(** [ListViews] returns all views on a project. *)
Definition ListViews (fuel : nat) (projectID : string) : M (list ViewDef * error) :=
  ListViews_from fuel projectID None [].

(** *** Create view *)

(** [CreateView] creates a new TABLE view on a project and returns its
    definition. *)
Definition CreateView (projectID name : string) : M (option ViewDef * error) :=
  '(err, view) ← Do (CreateProjectV2View projectID);
  match err with
  | Some e => mret (None, Errorf "creating view: %w" [AErr e])
  | None =>
      '(err, _) ← Do (UpdateProjectV2ViewName projectID (ViewDef_ID view) name);
      match err with
      | Some e =>
          logPrintf "Warning: created view but could not rename to %q: %v"
                    [AStr name; AErr e]
      | None => mret tt
      end;;
      mret (Some (mkViewDef (ViewDef_ID view) name (ViewDef_Number view)
                            (ViewDef_Layout view) ""), None)
  end.

(** *** Set view visible fields *)

(** [SetViewVisibleFields] sets which fields are visible as columns on a
    view. *)
Definition SetViewVisibleFields (projectID viewID : string) (fieldIDs : list string)
    : M error :=
  '(err, _) ← Do (UpdateProjectV2ViewFields projectID viewID fieldIDs);
  mret err.

(** *** Ensure views *)

(** [resolveFieldIDs] maps field names to their project field IDs. *)
Fixpoint resolveFieldIDs_range (names : list string) (fields : gmap string FieldDef)
    (ids : list string) : M (list string) :=
  match names with
  | [] => mret ids
  | name :: names =>
      match fields !! name with
      | Some fd => resolveFieldIDs_range names fields (ids ++ [FieldDef_ID fd])
      | None =>
          logPrintf "    Field %q not found on board, skipping column" [AStr name];;
          resolveFieldIDs_range names fields ids
      end
  end.

Definition resolveFieldIDs (names : list string) (fields : gmap string FieldDef)
    : M (list string) :=
  resolveFieldIDs_range names fields [].

(** "Index existing views by name" *)
Definition indexViews (existing : list ViewDef) : gmap string ViewDef :=
  foldl (λ viewsByName v, <[ViewDef_Name v := v]> viewsByName) ∅ existing.

(** "Set visible fields/columns"; [fields] is [None] for a nil map. *)
Definition EnsureViews_columns (projectID : string) (want : ViewConfig) (view : ViewDef)
    (fields : option (gmap string FieldDef)) : M unit :=
  match bool_decide (0 < length (ViewConfig_FieldNames want)), fields with
  | true, Some fields =>
      fieldIDs ← resolveFieldIDs (ViewConfig_FieldNames want) fields;
      if bool_decide (0 < length fieldIDs) then
        err ← SetViewVisibleFields projectID (ViewDef_ID view) fieldIDs;
        match err with
        | Some e =>
            logPrintf "    Warning: could not set visible columns on %q: %v"
                      [AStr (ViewConfig_Name want); AErr e];;
            logPrintf "    You may need to manually add these columns: %v"
                      [AStrs (ViewConfig_FieldNames want)]
        | None =>
            logPrintf "    Set %d visible columns on %q"
                      [AInt (len fieldIDs); AStr (ViewConfig_Name want)]
        end
      else
        logPrintf "    Warning: none of the requested fields %v were found on the board"
                  [AStrs (ViewConfig_FieldNames want)]
  | _, _ => mret tt
  end.

(** The body of [for _, want := range desired]. *)
Definition EnsureViews_want (projectID : string) (viewsByName : gmap string ViewDef)
    (fields : option (gmap string FieldDef)) (want : ViewConfig) : M unit :=
  match viewsByName !! ViewConfig_Name want with
  | Some view =>
      logPrintf "  ✓ View %q already exists" [AStr (ViewConfig_Name want)];;
      EnsureViews_columns projectID want view fields
  | None =>
      logPrintf "  Creating view %q..." [AStr (ViewConfig_Name want)];;
      '(created, err) ← CreateView projectID (ViewConfig_Name want);
      match err, created with
      | Some e, _ =>
          logPrintf "  ✗ Could not create view %q: %v" [AStr (ViewConfig_Name want); AErr e]
      | None, None => panic
      | None, Some view =>
          logPrintf "  ✓ Created view %q" [AStr (ViewConfig_Name want)];;
          EnsureViews_columns projectID want view fields
      end
  end.

Fixpoint EnsureViews_range (projectID : string) (viewsByName : gmap string ViewDef)
    (fields : option (gmap string FieldDef)) (desired : list ViewConfig) : M unit :=
  match desired with
  | [] => mret tt
  | want :: desired =>
      EnsureViews_want projectID viewsByName fields want;;
      EnsureViews_range projectID viewsByName fields desired
  end.

(** [EnsureViews] creates any missing views and sets visible columns on
    each.  The variadic [destFields] is the list of the maps given, a nil
    map being [None]. *)
Definition EnsureViews (fuel : nat) (projectID : string) (desired : list ViewConfig)
    (destFields : list (option (gmap string FieldDef))) : M unit :=
  '(existing, err) ← ListViews fuel projectID;
  match err with
  | Some e => logPrintf "Warning: could not list project views: %v" [AErr e]
  | None =>
      let fields :=
        match destFields with
        | Some fields :: _ => Some fields
        | _ => None
        end in
      let viewsByName := indexViews existing in
      EnsureViews_range projectID viewsByName fields desired
  end.

(** The requests of a trace, in the order sent. *)
Definition requestsOf (evs : list Event) : list Request :=
  omap (λ ev, match ev with EvDo req _ => Some req | _ => None end) evs.

Definition is_query (req : Request) : bool :=
  match req with QueryViews _ _ => true | _ => false end.


(** The identifiers [resolveFieldIDs] returns: those of the names that
    are fields of the map, in the order of the names. *)
Definition columnsOf (fields : gmap string FieldDef) (names : list string) : list string :=
  omap (λ name, FieldDef_ID <$> fields !! name) names.

(** The requests the loop body of [EnsureViews] may send for one desired
    view: a creation, with its rename unless the creation failed, only when
    no view of that name is indexed; then at most one update of the visible
    fields, with the identifiers found for the names asked for, which are
    not none. *)
Definition wantRequests (projectID : string) (viewsByName : gmap string ViewDef)
    (fields : option (gmap string FieldDef)) (want : ViewConfig) (reqs : list Request)
    : Prop :=
  ∃ creation columns,
    reqs = creation ++ columns /\
    match viewsByName !! ViewConfig_Name want with
    | Some _ => creation = []
    | None =>
        creation = [CreateProjectV2View projectID] \/
        ∃ viewID, creation = [CreateProjectV2View projectID;
                              UpdateProjectV2ViewName projectID viewID (ViewConfig_Name want)]
    end /\
    (columns = [] \/
     ∃ fs viewID,
       fields = Some fs /\ columnsOf fs (ViewConfig_FieldNames want) ≠ [] /\
       columns = [UpdateProjectV2ViewFields projectID viewID
                    (columnsOf fs (ViewConfig_FieldNames want))]).

(** The views of a project as [ListViews] returns them. *)
Definition listed (s : Server) (projectID : string) : list ViewDef :=
  map sview_Def (viewsOf s projectID).

End Views.

(** ** The cache package: files

    The package [cache] reads and removes the files of a directory through
    the package [os].  Its functions are embedded as programs over a world
    of directories: each directory that exists has its entries by name; a
    call of [os] may fail for a reason of the system, which the schedule of
    faults gives; the trace records the calls and the log lines. *)

Module Cache.

(** A file of a directory, or a subdirectory. *)
Record File := mkFile {
  file_IsDir : bool;
  file_Data : string
}.

(** [os.DirEntry], as far as the package reads it. *)
Record DirEntry := mkDirEntry {
  Name : string;
  IsDir : bool
}.

(** An error of [os]: [os.IsNotExist] tells the first kind. *)
Inductive OsError :=
| ErrNotExist (msg : string)
| ErrOther (msg : string).

Definition message (e : OsError) : string :=
  match e with ErrNotExist msg | ErrOther msg => msg end.

(** The calls of [os]; a path is a directory and a name in it, the name
    being empty for the directory itself. *)
Inductive Op :=
| ReadDirOp (dir : string)
| RemoveOp (dir name : string)
| ReadFileOp (dir name : string).

Inductive Event :=
| EvOp (op : Op) (err : option OsError)
| EvLog (format : string) (args : list Arg).

Record World := mkWorld {
  dirs : gmap string (gmap string File);      (* the directories that exist *)
  clock : nat;                                (* calls of [os] so far *)
  faults : nat -> Op -> option string;        (* failures of the system *)
  trace : list Event
}.

Definition M (A : Type) : Type := World -> option (A * World).

#[global] Instance M_ret : MRet M := λ A a w, Some (a, w).

#[global] Instance M_bind : MBind M := λ A B f m w,
  match m w with
  | Some (a, w') => f a w'
  | None => None
  end.

(** An index out of range: the call does not return. *)
Definition panic {A} : M A := λ _, None.

Definition emit (ev : Event) (w : World) : World :=
  mkWorld (dirs w) (clock w) (faults w) (trace w ++ [ev]).

Definition called (op : Op) (err : option OsError) (ds : gmap string (gmap string File))
    (w : World) : World :=
  mkWorld ds (S (clock w)) (faults w) (trace w ++ [EvOp op err]).

Definition logPrintf (format : string) (args : list Arg) : M unit :=
  λ w, Some (tt, emit (EvLog format args) w).

(** [sort.Strings]: ascending, bytes compared. *)
Definition sortStrings (l : list string) : list string := merge_sort String.le l.

(** The entries of a directory as [os.ReadDir] returns them: sorted by
    filename. *)
Definition entriesOf (files : gmap string File) : list DirEntry :=
  omap (λ name, mkDirEntry name <$> (file_IsDir <$> files !! name))
       (sortStrings (elements (dom files))).

(** [os.ReadDir] *)
Definition ReadDir (dir : string) : M (list DirEntry * option OsError) := λ w,
  match faults w (clock w) (ReadDirOp dir) with
  | Some msg => Some (([], Some (ErrOther msg)), called (ReadDirOp dir) (Some (ErrOther msg)) (dirs w) w)
  | None =>
      match dirs w !! dir with
      | None =>
          let e := ErrNotExist "no such file or directory" in
          Some (([], Some e), called (ReadDirOp dir) (Some e) (dirs w) w)
      | Some files => Some ((entriesOf files, None), called (ReadDirOp dir) None (dirs w) w)
      end
  end.

(** [os.Remove] of the path of [name] in [dir]: a file is removed; the
    directory itself, which the empty name stands for, is removed when it is
    empty; a subdirectory, whose entries are not modelled, is not removed. *)
Definition Remove (dir name : string) : M (option OsError) := λ w,
  let op := RemoveOp dir name in
  match faults w (clock w) op with
  | Some msg => Some (Some (ErrOther msg), called op (Some (ErrOther msg)) (dirs w) w)
  | None =>
      match dirs w !! dir with
      | None =>
          let e := ErrNotExist "no such file or directory" in
          Some (Some e, called op (Some e) (dirs w) w)
      | Some files =>
          if bool_decide (name = "") then
            if bool_decide (files = ∅) then
              Some (None, called op None (delete dir (dirs w)) w)
            else
              let e := ErrOther "directory not empty" in
              Some (Some e, called op (Some e) (dirs w) w)
          else
            match files !! name with
            | None =>
                let e := ErrNotExist "no such file or directory" in
                Some (Some e, called op (Some e) (dirs w) w)
            | Some f =>
                if file_IsDir f then
                  let e := ErrOther "directory not empty" in
                  Some (Some e, called op (Some e) (dirs w) w)
                else
                  Some (None, called op None (<[dir := delete name files]> (dirs w)) w)
            end
      end
  end.

(** [os.ReadFile] *)
Definition ReadFile (dir name : string) : M (string * option OsError) := λ w,
  let op := ReadFileOp dir name in
  match faults w (clock w) op with
  | Some msg => Some (("", Some (ErrOther msg)), called op (Some (ErrOther msg)) (dirs w) w)
  | None =>
      match dirs w !! dir ≫= (λ files, files !! name) with
      | Some f =>
          if file_IsDir f then
            let e := ErrOther "is a directory" in
            Some (("", Some e), called op (Some e) (dirs w) w)
          else Some ((file_Data f, None), called op None (dirs w) w)
      | None =>
          let e := ErrNotExist "no such file or directory" in
          Some (("", Some e), called op (Some e) (dirs w) w)
      end
  end.

(** [!e.IsDir() && strings.HasPrefix(e.Name(), prefix) &&
    strings.HasSuffix(e.Name(), ".json")] *)
Definition isCacheFile (prefix : string) (e : DirEntry) : bool :=
  negb (IsDir e) && HasPrefix (Name e) prefix && HasSuffix (Name e) ".json".

(** [DefaultCacheLimit] is the number of cache files to keep per prefix
    when no explicit limit is provided. *)
Definition DefaultCacheLimit : Z := 5.

Definition isDigit (c : ascii) : bool := Ascii.leb "0" c && Ascii.leb c "9".

(** [name[i] >= '0' && ... && name[i+3] <= '9' && name[i+4] == '-'], on
    the rest of the name from [i]. *)
Definition yearAt (s : string) : bool :=
  match s with
  | String a (String b (String c (String d (String e _)))) =>
      isDigit a && isDigit b && isDigit c && isDigit d && Ascii.eqb e "-"
  | _ => false
  end.

(** [for i := 0; i < len(name)-5; i++] of [CleanAll], on the rest of the
    name from [i]: [name[:i]] for the first [i] with a year, if any. *)
Fixpoint yearPrefix (s : string) : option string :=
  match s with
  | EmptyString => None
  | String c rest =>
      if negb (5 <? String.length s) then None
      else if yearAt s then Some EmptyString
      else String c <$> yearPrefix rest
  end.

(** "Discover prefixes": the set [prefixSet]. *)
Definition discoverPrefixes (entries : list DirEntry) : gset string :=
  foldl (λ prefixSet e,
           let name := Name e in
           if IsDir e || negb (HasSuffix name ".json") then prefixSet
           else match yearPrefix name with
                | Some prefix => {[prefix]} ∪ prefixSet
                | None => prefixSet
                end)
        ∅ entries.

Section Package.

(** [filepath.Join], which the package uses for the paths it logs; the
    capacity [append] has given a slice that it has grown from nil to a
    length that is not zero; and the order in which a [range] visits the
    keys of a map. *)
Variable filepathJoin : string -> string -> string.
Variable capacity : nat -> nat.
Variable rangeOrder : gset string -> list string.

(** [matches]: the names of the cache files among the entries, appended
    in order. *)
Definition matchesOf (prefix : string) (entries : list DirEntry) : list string :=
  foldl (λ matches e, if isCacheFile prefix e then matches ++ [Name e] else matches)
        [] entries.

(** [matches[:n]]: the slice may be extended up to its capacity, where the
    strings are empty; beyond, the index is out of range. *)
Definition sliceTo (matches : list string) (n : Z) : option (list string) :=
  let cap := if bool_decide (length matches = 0) then 0
             else Nat.max (length matches) (capacity (length matches)) in
  if bool_decide (0 <= n)%Z && bool_decide (Z.to_nat n <= cap) then
    Some (take (Z.to_nat n) (matches ++ replicate (cap - length matches) ""))
  else None.

(** [for _, name := range toRemove] of [Clean] *)
Fixpoint Clean_range (dir : string) (toRemove : list string) (removed : Z) : M Z :=
  match toRemove with
  | [] => mret removed
  | name :: toRemove =>
      let path := filepathJoin dir name in
      err ← Remove dir name;
      match err with
      | Some e =>
          logPrintf "Warning: could not remove cache file %s: %v"
                    [AStr path; AErr (message e)];;
          Clean_range dir toRemove removed
      | None =>
          logPrintf "  Removed old cache file: %s" [AStr name];;
          Clean_range dir toRemove (removed + 1)%Z
      end
  end.

(** [Clean] removes old cache files in dir whose name starts with prefix,
    keeping only the keep newest. *)
Definition Clean (dir prefix : string) (keep : Z) : M (Z * option OsError) :=
  '(entries, err) ← ReadDir dir;
  match err with
  | Some (ErrNotExist _) => mret (0%Z, None)
  | Some e => mret (0%Z, Some e)
  | None =>
      let matches := matchesOf prefix entries in
      let matches := sortStrings matches in
      if bool_decide (len matches <= keep)%Z then mret (0%Z, None)
      else
        match sliceTo matches (len matches - keep) with
        | None => panic
        | Some toRemove =>
            removed ← Clean_range dir toRemove 0%Z;
            mret (removed, None)
        end
  end.

(** [for prefix := range prefixSet] of [CleanAll] *)
Fixpoint CleanAll_range (dir : string) (keep : Z) (prefixes : list string) (total : Z)
    : M (Z * error) :=
  match prefixes with
  | [] => mret (total, None)
  | prefix :: prefixes =>
      '(n, err) ← Clean dir prefix keep;
      match err with
      | Some e =>
          mret (total, Errorf "cleaning prefix %q: %w" [AStr prefix; AErr (message e)])
      | None => CleanAll_range dir keep prefixes (total + n)%Z
      end
  end.

(** [CleanAll] removes old cache files across all known prefixes in the
    given dir, keeping only keep newest per prefix. *)
Definition CleanAll (dir : string) (keep : Z) : M (Z * error) :=
  '(entries, err) ← ReadDir dir;
  match err with
  | Some (ErrNotExist _) => mret (0%Z, None)
  | Some e => mret (0%Z, Some (message e))
  | None =>
      let prefixSet := discoverPrefixes entries in
      CleanAll_range dir keep (rangeOrder prefixSet) 0%Z
  end.

(** [Enforce] runs cache cleanup on dir, keeping limit files per prefix.
    If limit <= 0 it falls back to DefaultCacheLimit. *)
Definition Enforce (dir : string) (limit : Z) : M unit :=
  let limit := if bool_decide (limit <= 0)%Z then DefaultCacheLimit else limit in
  '(removed, err) ← CleanAll dir limit;
  match err with
  | Some e => logPrintf "Warning: cache cleanup error: %v" [AErr e]
  | None =>
      if bool_decide (0 < removed)%Z then
        logPrintf "Cache cleanup: removed %d old file(s) (keeping %d per prefix)"
                  [AInt removed; AInt limit]
      else mret tt
  end.

Section ReadLatest.

(** The type [T] of the items and [json.Unmarshal] into a [[]T]. *)
Variable T : Type.
Variable Unmarshal : string -> list T * error.

(** [latest]: the name of the last cache file among the entries. *)
Definition latestOf (prefix : string) (entries : list DirEntry) : string :=
  foldl (λ latest e, if isCacheFile prefix e then Name e else latest) "" entries.

(** [ReadLatest] finds the most recent cache file whose name starts with
    prefix and unmarshals it into the target slice type. *)
Definition ReadLatest (dir prefix : string) : M (list T * error) :=
  '(entries, err) ← ReadDir dir;
  match err with
  | Some e => mret ([], Some (message e))
  | None =>
      let latest := latestOf prefix entries in
      if bool_decide (latest = "") then mret ([], None)
      else
        let path := filepathJoin dir latest in
        '(data, err) ← ReadFile dir latest;
        match err with
        | Some e => mret ([], Some (message e))
        | None =>
            let '(items, err) := Unmarshal data in
            match err with
            | Some e => mret ([], Errorf "unmarshal %s: %w" [AStr path; AErr e])
            | None =>
                logPrintf "Loaded %d items from cache: %s" [AInt (len items); AStr path];;
                mret (items, None)
            end
        end
  end.

End ReadLatest.

End Package.

(** Whether [name] is a cache file of the directory for the prefix: a
    file, not a subdirectory, whose name has the prefix and ends in
    [.json]. *)
Definition isCacheName (prefix : string) (files : gmap string File) (name : string) : bool :=
  match files !! name with
  | Some f => negb (file_IsDir f) && HasPrefix name prefix && HasSuffix name ".json"
  | None => false
  end.

(** The names of the cache files of a directory for a prefix, ascending. *)
Definition cacheFiles (prefix : string) (files : gmap string File) : list string :=
  filter (λ name, isCacheName prefix files name = true)
         (sortStrings (elements (dom files))).

(** The removals of a trace: directory, name and outcome. *)
Definition removalsOf (evs : list Event) : list (string * string * option OsError) :=
  omap (λ ev, match ev with
              | EvOp (RemoveOp dir name) err => Some (dir, name, err)
              | _ => None
              end) evs.

(** The removals of a trace that succeeded. *)
Definition removedOf (evs : list Event) : list (string * string) :=
  omap (λ r, match r.2 with None => Some r.1 | Some _ => None end) (removalsOf evs).

(** The files read of a trace. *)
Definition readsOf (evs : list Event) : list (string * string) :=
  omap (λ ev, match ev with
              | EvOp (ReadFileOp dir name) _ => Some (dir, name)
              | _ => None
              end) evs.

End Cache.

(** ** Further scenarios *)

(** A transport that fails its first request. *)
Definition failsFirst : nat -> Request -> option string :=
  λ n _, if Nat.eqb n 0 then Some "502 Bad Gateway" else None.





(** A project with the view Board. *)
Definition exampleViews : Views.Server :=
  Views.mkServer
    {["PVT_x" := [Views.mkServerView (Views.mkViewDef "PVTV_1" "Board" 1 "BOARD_LAYOUT" "")
                                     []]]}
    0.

Definition exampleViewsWorld : Views.World :=
  Views.mkWorld exampleViews 0 (λ _ _, None) [].

Definition exampleDesired : list Views.ViewConfig :=
  [Views.mkViewConfig "Board" ["Status"];
   Views.mkViewConfig "Table" ["Status"; "Priority"]].

(** A cache directory with three files of the prefix [issues_], one of the
    prefix [prs_], a file that is no cache file and a subdirectory. *)
Definition exampleDir : gmap string Cache.File :=
  list_to_map
    [("issues_2025-01-15T10-30-00.json", Cache.mkFile false "[]");
     ("issues_2025-01-16T10-30-00.json", Cache.mkFile false "[]");
     ("issues_2025-01-17T10-30-00.json", Cache.mkFile false "[]");
     ("prs_2025-01-15T10-30-05.json", Cache.mkFile false "[]");
     ("notes.txt", Cache.mkFile false "notes");
     ("old", Cache.mkFile true "")].

Definition exampleCache : Cache.World :=
  Cache.mkWorld {["cache" := exampleDir]} 0 (λ _ _, None) [].

(** Paths joined with a slash; slices that grow to their length; a range
    in the order of the keys. *)
Definition slashJoin (dir name : string) : string := dir +:+ "/" +:+ name.

Definition exactCapacity (n : nat) : nat := n.

Definition keysInOrder (keys : gset string) : list string := elements keys.

(** A decoder that yields no item. *)
Definition noItems : string -> list nat * error := λ _, ([], None).

(** * Properties *)

(** ** Running computations *)

Lemma bind_run {A B} (m : M A) (f : A -> M B) (w : World) :
  (m ≫= f) w = match m w with Some (a, w') => f a w' | None => None end.
Proof. reflexivity. Qed.

Lemma ret_run {A} (a : A) (w : World) : (mret a : M A) w = Some (a, w).
Proof. reflexivity. Qed.

Lemma log_run format args (w : World) :
  logPrintf format args w = Some (tt, emit (EvLog format args) w).
Proof. reflexivity. Qed.

Ltac mstep := repeat (rewrite bind_run || rewrite log_run || rewrite ret_run).

Lemma continues_refl w : continues w w [].
Proof. split; [done | by rewrite app_nil_r]. Qed.

Lemma continues_trans w1 w2 w3 evs1 evs2 :
  continues w1 w2 evs1 -> continues w2 w3 evs2 -> continues w1 w3 (evs1 ++ evs2).
Proof.
  intros [Hf1 Ht1] [Hf2 Ht2]. split; [congruence |].
  by rewrite Ht2, Ht1, app_assoc.
Qed.

Lemma continues_emit w ev : continues w (emit ev w) [ev].
Proof. by split. Qed.

Lemma continues_sent w req err s : continues w (sent req err s w) [EvDo req err].
Proof. by split. Qed.

Lemma continues_emit_l w w' ev evs :
  continues (emit ev w) w' evs -> continues w w' (ev :: evs).
Proof. intros H. exact (continues_trans _ _ _ _ _ (continues_emit w ev) H). Qed.

Lemma continues_sent_l w w' req err s evs :
  continues (sent req err s w) w' evs -> continues w w' (EvDo req err :: evs).
Proof. intros H. exact (continues_trans _ _ _ _ _ (continues_sent w req err s) H). Qed.

(** Classes of events. *)

Lemma length_succeeded rs : length (succeeded rs) <= length rs.
Proof.
  induction rs as [| [[p c] [e |]] rs IH]; [done | |].
  - change (succeeded ((p, c, Some e) :: rs)) with (succeeded rs). cbn [length]. lia.
  - change (succeeded ((p, c, None) :: rs)) with (c :: succeeded rs). cbn [length]. lia.
Qed.

Lemma addsOf_app evs1 evs2 : addsOf (evs1 ++ evs2) = addsOf evs1 ++ addsOf evs2.
Proof. apply omap_app. Qed.

Lemma deletesOf_app evs1 evs2 : deletesOf (evs1 ++ evs2) = deletesOf evs1 ++ deletesOf evs2.
Proof. apply omap_app. Qed.

Lemma printsOf_app evs1 evs2 : printsOf (evs1 ++ evs2) = printsOf evs1 ++ printsOf evs2.
Proof. apply filter_app. Qed.

Lemma quiet_addsOf evs : Forall (λ ev, ev_quiet ev = true) evs -> addsOf evs = [].
Proof.
  induction 1 as [| ev evs Hev _ IH]; [done |].
  change (addsOf (ev :: evs)) with (addsOf ([ev] ++ evs)).
  rewrite addsOf_app, IH, app_nil_r.
  destruct ev as [[] ?| |]; done.
Qed.

Lemma quiet_deletesOf evs : Forall (λ ev, ev_quiet ev = true) evs -> deletesOf evs = [].
Proof.
  induction 1 as [| ev evs Hev _ IH]; [done |].
  change (deletesOf (ev :: evs)) with (deletesOf ([ev] ++ evs)).
  rewrite deletesOf_app, IH, app_nil_r.
  destruct ev as [[] ?| |]; done.
Qed.

Lemma quiet_printsOf evs : Forall (λ ev, ev_quiet ev = true) evs -> printsOf evs = [].
Proof.
  induction 1 as [| ev evs Hev _ IH]; [done |].
  unfold printsOf. rewrite filter_cons.
  destruct ev; simpl in *; try done; by rewrite decide_False.
Qed.

Lemma logged_app evs1 evs2 : logged evs1 -> logged evs2 -> logged (evs1 ++ evs2).
Proof.
  intros H1 H2. induction evs1 as [| ev evs1 IH]; [done |].
  destruct ev as [req [e |] | |]; cbn [logged app] in *; try by apply IH.
  destruct H1 as [Hnext H1]. split; [| by apply IH].
  intros Hp. specialize (Hnext Hp). by destruct evs1.
Qed.

Lemma logged_quiet_ok evs :
  Forall (λ ev, match ev with EvDo _ (Some _) => False | _ => True end) evs -> logged evs.
Proof.
  induction 1 as [| ev evs Hev _ IH]; [done |].
  by destruct ev as [req [e |] | |].
Qed.

(** ** Paged reads *)

Lemma pageSize_pos : 0 < pageSize.
Proof. unfold pageSize. lia. Qed.

#[global] Opaque pageSize.

Lemma paginate_last {A} (xs : list A) (off : nat) :
  ¬ off + pageSize < length xs -> take pageSize (drop off xs) = drop off xs.
Proof. intros H. apply take_ge. rewrite length_drop. lia. Qed.

Lemma paginate_next {A} (xs : list A) (off : nat) :
  take pageSize (drop off xs) ++ drop (off + pageSize) xs = drop off xs.
Proof. by rewrite <- drop_drop, take_drop. Qed.

Lemma indexNodes_app ids l1 l2 :
  indexNodes (indexNodes ids l1) l2 = indexNodes ids (l1 ++ l2).
Proof. unfold indexNodes. by rewrite foldl_app. Qed.

Lemma elem_of_indexNodes c ids l :
  c ∈ indexNodes ids l <-> c ∈ ids \/ (c ≠ "" /\ c ∈ l).
Proof.
  revert ids. induction l as [| x l IH]; intros ids; simpl.
  - set_solver.
  - rewrite IH. case_bool_decide; set_solver.
Qed.

Lemma elem_of_indexOf c items :
  c ∈ indexOf items <-> c ≠ "" /\ ∃ it, it ∈ items /\ indexedID it = c.
Proof.
  unfold indexOf. rewrite elem_of_indexNodes, list_elem_of_fmap. set_solver.
Qed.

Lemma getProjectItemContentIDs_from_spec fuel pid cursor ids w :
  default 0 cursor <= length (board (server w) pid) ->
  length (board (server w) pid) < default 0 cursor + pageSize * fuel ->
  ∃ r err w' evs,
    getProjectItemContentIDs_from fuel pid cursor ids w = Some ((r, err), w') /\
    continues w w' evs /\ server w' = server w /\
    Forall (λ ev, ev_quiet ev = true) evs /\
    (err = None ->
     r = indexNodes ids (map indexedID (drop (default 0 cursor) (board (server w) pid)))) /\
    ((∀ n c, faults w n (QueryItemContentIDs pid c) = None) -> err = None) /\
    (∀ format args, logged (evs ++ [EvLog format args])) /\
    (err = None -> logged evs).
Proof.
  revert cursor ids w. induction fuel as [| fuel IH]; intros cursor ids w Hle Hlt.
  { lia. }
  cbn [getProjectItemContentIDs_from]. rewrite bind_run. unfold Do.
  destruct (faults w (clock w) (QueryItemContentIDs pid cursor)) as [msg |] eqn:Hf.
  { eexists ∅, (Some msg), _, _. split; [reflexivity |].
    split; [exact (continues_sent _ _ _ _) |]. split; [done |].
    split; [by repeat constructor |]. split; [done |].
    split; [intros H; by rewrite H in Hf |]. by split. }
  cbn [serve map_page paginate fst snd HasNextPage EndCursor].
  set (off := default 0 cursor) in *. set (xs := board (server w) pid) in *.
  case_bool_decide as Hnext; cbn [negb].
  - destruct (IH (Some (off + pageSize))
                 (indexNodes ids (map indexedID (take pageSize (drop off xs))))
                 (sent (QueryItemContentIDs pid cursor) None (server w) w))
      as (r & err & w' & evs & Hrun & Hc & Hs & Hq & Hr & He & Hlo & Hlc).
    { cbn. fold xs. lia. }
    { cbn. fold xs. lia. }
    exists r, err, w', (EvDo (QueryItemContentIDs pid cursor) None :: evs).
    split; [exact Hrun |]. split; [exact (continues_sent_l _ _ _ _ _ _ Hc) |].
    split; [done |]. split; [by constructor |]. split.
    { intros ->. rewrite (Hr eq_refl). cbn. fold xs.
      by rewrite indexNodes_app, <- map_app, paginate_next. }
    split; [intros H; apply He; exact H |].
    split; [intros format args; apply Hlo | intros H; by apply Hlc].
  - eexists _, None, _, _. split; [reflexivity |].
    split; [exact (continues_sent _ _ _ _) |]. split; [done |].
    split; [by repeat constructor |]. split.
    { intros _. by rewrite paginate_last. }
    done.
Qed.

Lemma getProjectItemContentIDs_spec fuel pid w :
  length (board (server w) pid) < pageSize * fuel ->
  ∃ r err w' evs,
    getProjectItemContentIDs fuel pid w = Some ((r, err), w') /\
    continues w w' evs /\ server w' = server w /\
    Forall (λ ev, ev_quiet ev = true) evs /\
    (err = None -> r = indexOf (board (server w) pid)) /\
    ((∀ n c, faults w n (QueryItemContentIDs pid c) = None) -> err = None) /\
    (∀ format args, logged (evs ++ [EvLog format args])) /\
    (err = None -> logged evs).
Proof.
  intros H. apply (getProjectItemContentIDs_from_spec fuel pid None ∅ w); cbn; lia.
Qed.

Lemma getProjectItems_from_spec fuel pid cursor items w :
  default 0 cursor <= length (board (server w) pid) ->
  length (board (server w) pid) < default 0 cursor + pageSize * fuel ->
  ∃ r err w' evs,
    getProjectItems_from fuel pid cursor items w = Some ((r, err), w') /\
    continues w w' evs /\ server w' = server w /\
    Forall (λ ev, ev_quiet ev = true) evs /\
    (err = None ->
     r = items ++ listingOf (drop (default 0 cursor) (board (server w) pid))) /\
    ((∀ n c, faults w n (QueryItems pid c) = None) -> err = None) /\
    (∀ format args, logged (evs ++ [EvLog format args])) /\
    (err = None -> logged evs).
Proof.
  revert cursor items w. induction fuel as [| fuel IH]; intros cursor items w Hle Hlt.
  { lia. }
  cbn [getProjectItems_from]. rewrite bind_run. unfold Do.
  destruct (faults w (clock w) (QueryItems pid cursor)) as [msg |] eqn:Hf.
  { eexists [], (Some msg), _, _. split; [reflexivity |].
    split; [exact (continues_sent _ _ _ _) |]. split; [done |].
    split; [by repeat constructor |]. split; [done |].
    split; [intros H; by rewrite H in Hf |]. by split. }
  cbn [serve map_page paginate fst snd HasNextPage EndCursor].
  set (off := default 0 cursor) in *. set (xs := board (server w) pid) in *.
  case_bool_decide as Hnext; cbn [negb].
  - destruct (IH (Some (off + pageSize))
                 (items ++ map toBoardItem (map listedNode (take pageSize (drop off xs))))
                 (sent (QueryItems pid cursor) None (server w) w))
      as (r & err & w' & evs & Hrun & Hc & Hs & Hq & Hr & He & Hlo & Hlc).
    { cbn. fold xs. lia. }
    { cbn. fold xs. lia. }
    exists r, err, w', (EvDo (QueryItems pid cursor) None :: evs).
    split; [exact Hrun |]. split; [exact (continues_sent_l _ _ _ _ _ _ Hc) |].
    split; [done |]. split; [by constructor |]. split.
    { intros ->. rewrite (Hr eq_refl). cbn. fold xs. unfold listingOf.
      by rewrite <- app_assoc, <- !map_app, paginate_next. }
    split; [intros H; apply He; exact H |].
    split; [intros format args; apply Hlo | intros H; by apply Hlc].
  - eexists _, None, _, _. split; [reflexivity |].
    split; [exact (continues_sent _ _ _ _) |]. split; [done |].
    split; [by repeat constructor |]. split.
    { intros _. unfold listingOf. by rewrite paginate_last. }
    done.
Qed.

Lemma getProjectItems_spec fuel pid w :
  length (board (server w) pid) < pageSize * fuel ->
  ∃ r err w' evs,
    getProjectItems fuel pid w = Some ((r, err), w') /\
    continues w w' evs /\ server w' = server w /\
    Forall (λ ev, ev_quiet ev = true) evs /\
    (err = None -> r = listingOf (board (server w) pid)) /\
    ((∀ n c, faults w n (QueryItems pid c) = None) -> err = None) /\
    (∀ format args, logged (evs ++ [EvLog format args])) /\
    (err = None -> logged evs).
Proof.
  intros H. apply (getProjectItems_from_spec fuel pid None [] w); cbn; lia.
Qed.

(** ** The add phase *)

Lemma board_set_board pid items n s p :
  board (set_board pid items n s) p = if decide (pid = p) then items else board s p.
Proof. unfold board, set_board. cbn. rewrite lookup_insert. by case_decide. Qed.

Lemma set_board_set_board pid items1 n1 items2 n2 s :
  set_board pid items2 n2 (set_board pid items1 n1 s) = set_board pid items2 n2 s.
Proof. unfold set_board. cbn. by rewrite insert_insert_eq. Qed.

Lemma addedServer_cons pid it news s :
  addedServer pid (it :: news) s =
  addedServer pid news (set_board pid (board s pid ++ [it]) (S (minted s)) s).
Proof.
  destruct news as [| it' news]; cbn [addedServer].
  - f_equal. cbn. lia.
  - rewrite set_board_set_board, board_set_board, decide_True by done.
    rewrite <- app_assoc. f_equal. cbn. lia.
Qed.

Lemma board_addedServer pid news s p :
  board (addedServer pid news s) p =
  if decide (pid = p) then board s pid ++ news else board s p.
Proof.
  destruct news as [| it news]; cbn [addedServer].
  - case_decide; [subst; by rewrite app_nil_r | done].
  - apply board_set_board.
Qed.

Lemma minted_addedServer pid news s :
  minted (addedServer pid news s) = minted s + length news.
Proof. destruct news; cbn; lia. Qed.

Lemma accounts_addedServer pid news s :
  accounts (addedServer pid news s) = accounts s.
Proof. by destruct news. Qed.

Lemma projects_addedServer pid news s :
  projects (addedServer pid news s) = projects s.
Proof. by destruct news. Qed.

Lemma toAdd_cons existing item items :
  toAdd existing (item :: items) =
  if eligible item && negb (bool_decide (Item_NodeID item ∈ existing))
  then Item_NodeID item :: toAdd existing items else toAdd existing items.
Proof.
  unfold toAdd. rewrite filter_cons.
  destruct (eligible item); cbn [andb]; [case_bool_decide |]; cbn [negb].
  - rewrite decide_False; [done | tauto].
  - by rewrite decide_True.
  - rewrite decide_False; [done | intros [? _]; done].
Qed.

Lemma len_cons {A} (x : A) xs : len (x :: xs) = (1 + len xs)%Z.
Proof. unfold len. cbn [length]. lia. Qed.

Lemma addItems_range_spec pid existing items added skipped w :
  ∃ added' skipped' w' evs,
    addItems_range pid existing items added skipped w = Some ((added', skipped'), w') /\
    continues w w' evs /\
    (added' + skipped' = added + skipped + len items)%Z /\
    (added' = added + len (succeeded (addsOf evs)))%Z /\
    map fst (addsOf evs) = map (pair pid) (toAdd existing items) /\
    deletesOf evs = [] /\ printsOf evs = [] /\
    server w' =
      addedServer pid (freshItems (minted (server w)) (succeeded (addsOf evs))) (server w) /\
    ((∀ n c, faults w n (AddProjectV2ItemById pid c) = None) ->
     succeeded (addsOf evs) = toAdd existing items) /\
    logged evs.
Proof.
  revert added skipped w.
  induction items as [| item items IH]; intros added skipped w.
  { exists added, skipped, w, []. split; [done |]. split; [apply continues_refl |].
    unfold len. cbn. repeat split; lia || done. }
  cbn [addItems_range]. rewrite toAdd_cons, len_cons. unfold eligible.
  case_bool_decide as Hid; cbn [negb andb].
  { rewrite bind_run, log_run.
    destruct (IH added (skipped + 1)%Z (emit (EvLog "  Skipping %q (no node ID)"
                                                   [AStr (Item_Title item)]) w))
      as (a' & s' & w' & evs & Hrun & Hc & Hsum & Hadd & Hreq & Hdel & Hpr & Hsrv & Hok & Hlog).
    eexists a', s', w', (_ :: evs). split; [exact Hrun |].
    split; [exact (continues_emit_l _ _ _ _ Hc) |].
    repeat split; try done; lia. }
  case_bool_decide as Hdraft; cbn [negb andb].
  { rewrite bind_run, log_run.
    destruct (IH added (skipped + 1)%Z
                 (emit (EvLog "  Skipping draft issue %q (draft issues cannot be added by content ID)"
                              [AStr (Item_Title item)]) w))
      as (a' & s' & w' & evs & Hrun & Hc & Hsum & Hadd & Hreq & Hdel & Hpr & Hsrv & Hok & Hlog).
    eexists a', s', w', (_ :: evs). split; [exact Hrun |].
    split; [exact (continues_emit_l _ _ _ _ Hc) |].
    repeat split; try done; lia. }
  case_bool_decide as Hin; cbn [negb andb].
  { rewrite bind_run, log_run.
    destruct (IH added (skipped + 1)%Z
                 (emit (EvLog "  #%d already on board, skipping" [AInt (Item_Number item)]) w))
      as (a' & s' & w' & evs & Hrun & Hc & Hsum & Hadd & Hreq & Hdel & Hpr & Hsrv & Hok & Hlog).
    eexists a', s', w', (_ :: evs). split; [exact Hrun |].
    split; [exact (continues_emit_l _ _ _ _ Hc) |].
    repeat split; try done; lia. }
  rewrite bind_run. unfold Do.
  destruct (faults w (clock w) (AddProjectV2ItemById pid (Item_NodeID item)))
    as [msg |] eqn:Hf.
  - rewrite bind_run, log_run.
    match goal with |- context [addItems_range _ _ _ _ _ ?w1] =>
      destruct (IH added (skipped + 1)%Z w1)
        as (a' & s' & w' & evs & Hrun & Hc & Hsum & Hadd & Hreq & Hdel & Hpr & Hsrv & Hok & Hlog)
    end.
    eexists a', s', w', (_ :: _ :: evs). split; [exact Hrun |].
    split; [exact (continues_sent_l _ _ _ _ _ _ (continues_emit_l _ _ _ _ Hc)) |].
    split; [lia |]. split; [exact Hadd |]. split; [cbn; f_equal; exact Hreq |].
    split; [done |]. split; [done |]. split; [exact Hsrv |].
    split; [intros H; by rewrite H in Hf |]. by split.
  - cbn [serve]. rewrite bind_run, log_run.
    match goal with |- context [addItems_range _ _ _ _ _ ?w1] =>
      destruct (IH (added + 1)%Z skipped w1)
        as (a' & s' & w' & evs & Hrun & Hc & Hsum & Hadd & Hreq & Hdel & Hpr & Hsrv & Hok & Hlog)
    end.
    eexists a', s', w', (_ :: _ :: evs). split; [exact Hrun |].
    split; [exact (continues_sent_l _ _ _ _ _ _ (continues_emit_l _ _ _ _ Hc)) |].
    split; [lia |]. split; [change (a' = added + len (Item_NodeID item :: succeeded (addsOf evs)))%Z; rewrite len_cons; lia |].
    split; [cbn; f_equal; exact Hreq |].
    split; [done |]. split; [done |]. split.
    + change (server w' = addedServer pid
                (freshItems (minted (server w)) (Item_NodeID item :: succeeded (addsOf evs)))
                (server w)).
      cbn [freshItems]. rewrite addedServer_cons. exact Hsrv.
    + split; [| exact Hlog]. intros H. cbn. f_equal. apply Hok. exact H.
Qed.

Lemma addsOf_quiet_app evs1 evs2 :
  Forall (λ ev, ev_quiet ev = true) evs1 -> addsOf (evs1 ++ evs2) = addsOf evs2.
Proof. intros H. by rewrite addsOf_app, (quiet_addsOf _ H). Qed.

Lemma deletesOf_quiet_app evs1 evs2 :
  Forall (λ ev, ev_quiet ev = true) evs1 -> deletesOf (evs1 ++ evs2) = deletesOf evs2.
Proof. intros H. by rewrite deletesOf_app, (quiet_deletesOf _ H). Qed.

Lemma printsOf_quiet_app evs1 evs2 :
  Forall (λ ev, ev_quiet ev = true) evs1 -> printsOf (evs1 ++ evs2) = printsOf evs2.
Proof. intros H. by rewrite printsOf_app, (quiet_printsOf _ H). Qed.

(** [addItems] as a whole: the index it works with is the board's, or the
    empty one when the read failed. *)
Lemma addItems_spec fuel pid items w :
  length (board (server w) pid) < pageSize * fuel ->
  ∃ added skipped w' evs existing,
    addItems fuel pid items w = Some ((added, skipped, None), w') /\
    continues w w' evs /\
    (added + skipped = len items)%Z /\
    (added = len (succeeded (addsOf evs)))%Z /\
    map fst (addsOf evs) = map (pair pid) (toAdd existing items) /\
    deletesOf evs = [] /\ printsOf evs = [] /\
    server w' =
      addedServer pid (freshItems (minted (server w)) (succeeded (addsOf evs))) (server w) /\
    (existing = indexOf (board (server w) pid) \/ existing = ∅) /\
    ((∀ n c, faults w n (QueryItemContentIDs pid c) = None) ->
     existing = indexOf (board (server w) pid)) /\
    ((∀ n c, faults w n (AddProjectV2ItemById pid c) = None) ->
     succeeded (addsOf evs) = toAdd existing items) /\
    logged evs.
Proof.
  intros Hfuel. unfold addItems. rewrite bind_run.
  destruct (getProjectItemContentIDs_spec fuel pid w Hfuel)
    as (ids & err & w1 & evs1 & -> & Hc1 & Hs1 & Hq1 & Hids & Herr & Hlo & Hlc).
  destruct err as [e |].
  - mstep.
    match goal with |- context [addItems_range _ _ _ _ _ ?w2] =>
      destruct (addItems_range_spec pid ∅ items 0 0 w2)
        as (a' & s' & w' & evs & -> & Hc & Hsum & Hadd & Hreq & Hdel & Hpr & Hsrv & Hok & Hlog)
    end.
    rewrite ret_run.
    assert (Hq : Forall (λ ev, ev_quiet ev = true)
                        (evs1 ++ [EvLog "Warning: could not check existing items: %v" [AErr e]])).
    { apply Forall_app. split; [done | by repeat constructor]. }
    eexists a', s', w', (_ ++ evs), ∅. split; [reflexivity |].
    split; [exact (continues_trans _ _ _ _ _
                     (continues_trans _ _ _ _ _ Hc1 (continues_emit _ _)) Hc) |].
    rewrite (addsOf_quiet_app _ _ Hq), (deletesOf_quiet_app _ _ Hq),
      (printsOf_quiet_app _ _ Hq).
    cbn in Hsrv, Hok. rewrite Hs1 in Hsrv. destruct Hc1 as [Hf1 _].
    split; [lia |]. split; [lia |]. split; [done |]. split; [done |]. split; [done |].
    split; [done |]. split; [by right |].
    split; [intros H; by specialize (Herr H) |].
    split; [intros H; apply Hok; intros n c; rewrite Hf1; apply H |].
    apply logged_app; [apply Hlo | exact Hlog].
  - mstep.
    destruct (addItems_range_spec pid ids items 0 0 w1)
      as (a' & s' & w' & evs & -> & Hc & Hsum & Hadd & Hreq & Hdel & Hpr & Hsrv & Hok & Hlog).
    rewrite ret_run.
    eexists a', s', w', (evs1 ++ evs), ids. split; [reflexivity |].
    split; [exact (continues_trans _ _ _ _ _ Hc1 Hc) |].
    rewrite (addsOf_quiet_app _ _ Hq1), (deletesOf_quiet_app _ _ Hq1),
      (printsOf_quiet_app _ _ Hq1).
    rewrite Hs1 in Hsrv. destruct Hc1 as [Hf1 _].
    split; [lia |]. split; [lia |]. split; [done |]. split; [done |]. split; [done |].
    split; [done |]. split; [left; by apply Hids |].
    split; [intros _; by apply Hids |].
    split; [intros H; apply Hok; intros n c; rewrite Hf1; apply H |].
    apply logged_app; [by apply Hlc | exact Hlog].
Qed.

(** ** The copy of the add phase in the sig_auth_interests tool *)



(** ** The removal phase *)

Lemma filter_agree {A} (P Q : A -> Prop) `{∀ x, Decision (P x)} `{∀ x, Decision (Q x)}
    (l : list A) :
  (∀ x, x ∈ l -> P x <-> Q x) -> filter P l = filter Q l.
Proof.
  induction l as [| x l IH]; intros HPQ; [done |].
  rewrite !filter_cons, IH by (intros y Hy; apply HPQ; by right).
  specialize (HPQ x ltac:(by left)).
  destruct (decide (P x)), (decide (Q x)); tauto.
Qed.

Lemma filter_all {A} (P : A -> Prop) `{∀ x, Decision (P x)} (l : list A) :
  (∀ x, x ∈ l -> P x) -> filter P l = l.
Proof.
  induction l as [| x l IH]; intros HP; [done |].
  rewrite filter_cons, decide_True by (apply HP; by left).
  f_equal. apply IH. intros y Hy. apply HP. by right.
Qed.

Lemma board_deletedServer pid ids s p :
  board (deletedServer pid ids s) p =
  if decide (pid = p) then filter (λ it, sitem_ID it ∉ ids) (board s pid) else board s p.
Proof.
  revert s. induction ids as [| id ids IH]; intros s; cbn [deletedServer foldl].
  - case_decide; [subst | done]. symmetry. apply filter_all.
    intros it _. apply not_elem_of_nil.
  - change (foldl _ ?s0 ids) with (deletedServer pid ids s0).
    rewrite IH, !board_set_board. case_decide; [| done].
    rewrite decide_True by done. rewrite list_filter_filter.
    apply filter_agree. intros it _. rewrite not_elem_of_cons. tauto.
Qed.

Lemma minted_deletedServer pid ids s : minted (deletedServer pid ids s) = minted s.
Proof.
  revert s. induction ids as [| id ids IH]; intros s; [done |].
  cbn [deletedServer foldl]. change (foldl _ ?s0 ids) with (deletedServer pid ids s0).
  by rewrite IH.
Qed.

Lemma currentIDsOf_app ids items :
  foldl (λ ids item, if bool_decide (Item_NodeID item = "") then ids
                     else {[Item_NodeID item]} ∪ ids) ids items
  = currentIDsOf items ∪ ids.
Proof.
  unfold currentIDsOf. revert ids.
  induction items as [| item items IH]; intros ids; cbn [foldl].
  - set_solver.
  - rewrite IH, (IH (if bool_decide _ then ∅ else _)).
    case_bool_decide; set_solver.
Qed.

Lemma elem_of_currentIDsOf c items :
  c ∈ currentIDsOf items <-> c ≠ "" /\ ∃ item, item ∈ items /\ Item_NodeID item = c.
Proof.
  induction items as [| item items IH].
  - unfold currentIDsOf. cbn. set_solver.
  - unfold currentIDsOf. cbn [foldl]. rewrite currentIDsOf_app.
    rewrite elem_of_union, IH. case_bool_decide; set_solver.
Qed.

Lemma removeStaleItems_range_spec pid current items removed w :
  ∃ removed' w' evs,
    removeStaleItems_range pid current items removed w = Some (removed', w') /\
    continues w w' evs /\
    (removed' = removed + len (succeeded (deletesOf evs)))%Z /\
    map fst (deletesOf evs)
      = map (λ item, (pid, itemID item)) (filter (λ item, stale current item = true) items) /\
    addsOf evs = [] /\ printsOf evs = [] /\
    server w' = deletedServer pid (succeeded (deletesOf evs)) (server w) /\
    ((∀ n i, faults w n (DeleteProjectV2Item pid i) = None) ->
     succeeded (deletesOf evs)
       = map itemID (filter (λ item, stale current item = true) items)) /\
    logged evs.
Proof.
  revert removed w.
  induction items as [| item items IH]; intros removed w.
  { exists removed, w, []. split; [done |]. split; [apply continues_refl |].
    unfold len. cbn. repeat split; lia || done. }
  cbn [removeStaleItems_range]. rewrite filter_cons. fold (stale current item).
  destruct (stale current item) eqn:Hst.
  2:{ rewrite decide_False by done. apply IH. }
  rewrite decide_True by done. rewrite bind_run. unfold Do.
  destruct (faults w (clock w) (DeleteProjectV2Item pid (itemID item)))
    as [msg |] eqn:Hf.
  - rewrite bind_run, log_run.
    match goal with |- context [removeStaleItems_range _ _ _ _ ?w1] =>
      destruct (IH removed w1)
        as (r' & w' & evs & Hrun & Hc & Hrem & Hreq & Hadd & Hpr & Hsrv & Hok & Hlog)
    end.
    eexists r', w', (_ :: _ :: evs). split; [exact Hrun |].
    split; [exact (continues_sent_l _ _ _ _ _ _ (continues_emit_l _ _ _ _ Hc)) |].
    split; [exact Hrem |]. split; [cbn; f_equal; exact Hreq |].
    split; [done |]. split; [done |]. split; [exact Hsrv |].
    split; [intros H; by rewrite H in Hf |]. by split.
  - cbn [serve]. rewrite bind_run, log_run.
    match goal with |- context [removeStaleItems_range _ _ _ _ ?w1] =>
      destruct (IH (removed + 1)%Z w1)
        as (r' & w' & evs & Hrun & Hc & Hrem & Hreq & Hadd & Hpr & Hsrv & Hok & Hlog)
    end.
    eexists r', w', (_ :: _ :: evs). split; [exact Hrun |].
    split; [exact (continues_sent_l _ _ _ _ _ _ (continues_emit_l _ _ _ _ Hc)) |].
    split.
    { change (r' = removed + len (itemID item :: succeeded (deletesOf evs)))%Z.
      rewrite len_cons. lia. }
    split; [cbn; f_equal; exact Hreq |].
    split; [done |]. split; [done |]. split; [exact Hsrv |].
    split; [| exact Hlog]. intros H. cbn. f_equal. apply Hok. exact H.
Qed.

(** [removeStaleItems] as a whole. *)
Lemma removeStaleItems_spec fuel pid currentItems w :
  length (board (server w) pid) < pageSize * fuel ->
  ∃ removed err w' evs,
    removeStaleItems fuel pid currentItems w = Some ((removed, err), w') /\
    continues w w' evs /\
    (removed = len (succeeded (deletesOf evs)))%Z /\
    (∃ listed, map fst (deletesOf evs)
       = map (λ item, (pid, itemID item))
             (filter (λ item, stale (currentIDsOf currentItems) item = true) listed) /\
       (listed = listingOf (board (server w) pid) \/ listed = []) /\
       (err = None -> listed = listingOf (board (server w) pid)) /\
       ((∀ n i, faults w n (DeleteProjectV2Item pid i) = None) ->
        succeeded (deletesOf evs)
          = map itemID (filter (λ item, stale (currentIDsOf currentItems) item = true) listed))) /\
    addsOf evs = [] /\ printsOf evs = [] /\
    server w' = deletedServer pid (succeeded (deletesOf evs)) (server w) /\
    ((∀ n c, faults w n (QueryItems pid c) = None) -> err = None) /\
    (∀ format args, logged (evs ++ [EvLog format args])).
Proof.
  intros Hfuel. unfold removeStaleItems. cbv zeta. rewrite bind_run.
  destruct (getProjectItems_spec fuel pid w Hfuel)
    as (items & err & w1 & evs1 & -> & Hc1 & Hs1 & Hq1 & Hitems & Herr & Hlo & Hlc).
  destruct err as [e |]; mstep.
  - eexists 0%Z, _, w1, evs1. split; [reflexivity |]. split; [done |].
    rewrite (quiet_deletesOf _ Hq1), (quiet_addsOf _ Hq1), (quiet_printsOf _ Hq1).
    split; [done |]. split.
    { exists []. split; [done |]. split; [by right |]. split; done. }
    split; [done |]. split; [done |]. split; [done |].
    split; [intros H; by specialize (Herr H) | exact Hlo].
  - destruct (removeStaleItems_range_spec pid (currentIDsOf currentItems) items 0 w1)
      as (r' & w' & evs & -> & Hc & Hrem & Hreq & Hadd & Hpr & Hsrv & Hok & Hlog).
    mstep.
    eexists r', None, w', (evs1 ++ evs). split; [reflexivity |].
    split; [exact (continues_trans _ _ _ _ _ Hc1 Hc) |].
    rewrite (deletesOf_quiet_app _ _ Hq1), addsOf_app, printsOf_app,
      (quiet_addsOf _ Hq1), (quiet_printsOf _ Hq1), Hadd, Hpr.
    rewrite Hs1 in Hsrv. destruct Hc1 as [Hf1 _].
    split; [lia |]. split.
    { exists items. rewrite (Hitems eq_refl) in *. split; [done |].
      split; [by left |]. split; [done |].
      intros H. apply Hok. intros n i. rewrite Hf1. apply H. }
    split; [done |]. split; [done |]. split; [done |]. split; [done |].
    intros format args. rewrite <- app_assoc.
    apply logged_app; [by apply Hlc |]. by apply logged_app.
Qed.

(** ** Membership of a board *)

Lemma elem_of_indexOf_list c items : c ∈ indexOf items <-> c ∈ indexedIDs items.
Proof.
  unfold indexOf, indexedIDs. rewrite elem_of_indexNodes, list_elem_of_filter.
  set_solver.
Qed.

Lemma indexedIDs_app l1 l2 : indexedIDs (l1 ++ l2) = indexedIDs l1 ++ indexedIDs l2.
Proof. unfold indexedIDs. by rewrite map_app, filter_app. Qed.

Lemma indexedIDs_fresh n cids : indexedIDs (freshItems n cids) = filter (λ c, c ≠ "") cids.
Proof.
  unfold indexedIDs. f_equal. revert n.
  induction cids as [| c cids IH]; intros n; [done |]. cbn. by rewrite IH.
Qed.

Lemma listedIDs_fresh n cids : map listedID (freshItems n cids) = cids.
Proof.
  revert n. induction cids as [| c cids IH]; intros n; [done |]. cbn. by rewrite IH.
Qed.

Lemma length_fresh n cids : length (freshItems n cids) = length cids.
Proof.
  revert n. induction cids as [| c cids IH]; intros n; [done |]. cbn. by rewrite IH.
Qed.

Lemma elem_of_membership c items :
  c ∈ membership items <-> c ≠ "" /\ ∃ it, it ∈ items /\ listedID it = c.
Proof.
  unfold membership. rewrite elem_of_list_to_set, list_elem_of_filter, list_elem_of_fmap.
  set_solver.
Qed.

Lemma succeeded_sublist rs : succeeded rs `sublist_of` map (λ r, r.1.2) rs.
Proof.
  induction rs as [| [[p c] [e |]] rs IH]; [done | |].
  - change (succeeded ((p, c, Some e) :: rs)) with (succeeded rs). by constructor.
  - change (succeeded ((p, c, None) :: rs)) with (c :: succeeded rs). by constructor.
Qed.

Lemma targets_of_requests (rs : list (string * string * error)) pid cids :
  map fst rs = map (pair pid) cids -> map (λ r, r.1.2) rs = cids.
Proof.
  intros H. transitivity (map snd (map fst rs)); [by rewrite map_map |].
  rewrite H, map_map. cbn. apply map_id.
Qed.

Lemma elem_of_toAdd c existing items :
  c ∈ toAdd existing items <->
  (c ∉ existing) /\ ∃ item, item ∈ items /\ eligible item = true /\ Item_NodeID item = c.
Proof.
  unfold toAdd. rewrite list_elem_of_fmap. setoid_rewrite list_elem_of_filter.
  split.
  - intros (item & -> & [He Hn] & Hin). eauto.
  - intros (Hn & item & Hin & He & <-). eauto.
Qed.

Lemma toAdd_sublist existing items :
  toAdd existing items
    `sublist_of` map Item_NodeID (filter (λ item, eligible item = true) items).
Proof.
  unfold toAdd. apply fmap_sublist.
  induction items as [| item items IH]; [done |].
  rewrite !filter_cons.
  destruct (decide (eligible item = true ∧ _)) as [[He _] |];
    destruct (decide (eligible item = true)); try done; by constructor.
Qed.

Lemma eligible_nonempty item : eligible item = true -> Item_NodeID item ≠ "".
Proof. unfold eligible. case_bool_decide; [done |]. by intros _. Qed.

(** ** C3: duplicates *)

(** C3, as amended. When no sendable candidate's content identifier occurs
    twice in the list, the add phase sends at most one add request per
    content identifier; when moreover the membership read succeeds and no
    two items of the board share an indexed content identifier before the
    run, none do after it. *)
Theorem addItems_no_duplicates fuel pid items w :
  length (board (server w) pid) < pageSize * fuel ->
  NoDup (map Item_NodeID (filter (λ item, eligible item = true) items)) ->
  ∃ r w' evs,
    addItems fuel pid items w = Some (r, w') /\
    trace w' = trace w ++ evs /\
    NoDup (map fst (addsOf evs)) /\
    ((∀ n c, faults w n (QueryItemContentIDs pid c) = None) ->
     NoDup (indexedIDs (board (server w) pid)) ->
     NoDup (indexedIDs (board (server w') pid))).
Proof.
  intros Hfuel Hnd.
  destruct (addItems_spec fuel pid items w Hfuel)
    as (a & s & w' & evs & existing & Hrun & [_ Ht] & _ & _ & Hreq & _ & _ & Hsrv & _ & Hread & _).
  exists (a, s, None), w', evs. split; [done |]. split; [done |].
  assert (HndAdd : NoDup (toAdd existing items)).
  { eapply sublist_NoDup; [exact Hnd | apply toAdd_sublist]. }
  split.
  { rewrite Hreq. apply NoDup_fmap_2; [| done]. by intros ?? [=]. }
  intros Hq HndB. specialize (Hread Hq). subst existing.
  rewrite Hsrv, board_addedServer, decide_True by done.
  rewrite indexedIDs_app, indexedIDs_fresh. apply NoDup_app.
  assert (Hsub : succeeded (addsOf evs)
                   `sublist_of` toAdd (indexOf (board (server w) pid)) items).
  { rewrite <- (targets_of_requests _ _ _ Hreq). apply succeeded_sublist. }
  split; [done |]. split.
  - intros c Hc Hc'. rewrite list_elem_of_filter in Hc'. destruct Hc' as [_ Hc'].
    pose proof (elem_of_sublist _ _ _ Hc' Hsub) as Hin.
    apply elem_of_toAdd in Hin as [Hn _]. apply Hn. by apply elem_of_indexOf_list.
  - apply NoDup_filter. exact (sublist_NoDup _ _ HndAdd Hsub).
Qed.

(** ** C1: running the add phase twice *)

Lemma toAdd_nil existing items :
  (∀ item, item ∈ items -> eligible item = true -> Item_NodeID item ∈ existing) ->
  toAdd existing items = [].
Proof.
  induction items as [| item items IH]; intros H; [done |].
  rewrite toAdd_cons, IH by (intros i Hi; apply H; by right).
  destruct (eligible item) eqn:He; [| done].
  rewrite bool_decide_eq_true_2; [done |]. apply H; [by left | done].
Qed.

Lemma length_toAdd existing items : length (toAdd existing items) <= length items.
Proof. unfold toAdd. rewrite length_map. apply length_filter. Qed.

(** After an add phase in which no add request failed, every sendable
    candidate is in the membership index of the board. *)
Lemma added_are_indexed pid existing items s :
  (existing = indexOf (board s pid) \/ existing = ∅) ->
  ∀ item, item ∈ items -> eligible item = true ->
    Item_NodeID item
      ∈ indexOf (board (addedServer pid (freshItems (minted s) (toAdd existing items)) s) pid).
Proof.
  intros Hex item Hin He. rewrite board_addedServer, decide_True by done.
  apply elem_of_indexOf_list. rewrite indexedIDs_app, indexedIDs_fresh.
  apply elem_of_app.
  destruct (decide (Item_NodeID item ∈ existing)) as [Hold | Hnew].
  - left. destruct Hex as [-> | ->]; [by apply elem_of_indexOf_list | set_solver].
  - right. apply list_elem_of_filter. split; [by apply eligible_nonempty |].
    apply elem_of_toAdd. eauto.
Qed.

(** C1, as amended. When the transport fails no membership read and no add
    request, a second run of the add phase with the same candidates on the
    board the first run left sends no add request, returns [added = 0] with
    every candidate skipped, and leaves the server as it was; every
    sendable candidate (a node identifier, not a draft) is skipped because
    its content identifier is in the membership index. *)
Theorem addItems_idempotent fuel pid items w :
  length (board (server w) pid) + length items < pageSize * fuel ->
  (∀ n c, faults w n (QueryItemContentIDs pid c) = None) ->
  (∀ n c, faults w n (AddProjectV2ItemById pid c) = None) ->
  ∃ r1 w1 w2 evs2,
    addItems fuel pid items w = Some (r1, w1) /\
    addItems fuel pid items w1 = Some ((0%Z, len items, None), w2) /\
    trace w2 = trace w1 ++ evs2 /\ addsOf evs2 = [] /\
    server w2 = server w1 /\
    (∀ item, item ∈ items -> eligible item = true ->
       Item_NodeID item ∈ indexOf (board (server w1) pid)).
Proof.
  intros Hfuel Hread Hadd.
  destruct (addItems_spec fuel pid items w ltac:(lia))
    as (a1 & s1 & w1 & evs1 & ex1 & Hrun1 & [Hf1 _] & _ & _ & _ & _ & _ & Hsrv1 & Hex1 & _ & Hok1 & _).
  rewrite (Hok1 Hadd) in Hsrv1.
  assert (Hidx : ∀ item, item ∈ items -> eligible item = true ->
                   Item_NodeID item ∈ indexOf (board (server w1) pid)).
  { rewrite Hsrv1. by apply added_are_indexed. }
  assert (Hfuel1 : length (board (server w1) pid) < pageSize * fuel).
  { rewrite Hsrv1, board_addedServer, decide_True by done.
    rewrite length_app, length_fresh. pose proof (length_toAdd ex1 items). lia. }
  destruct (addItems_spec fuel pid items w1 Hfuel1)
    as (a2 & s2 & w2 & evs2 & ex2 & Hrun2 & [_ Ht2] & Hsum & Hcount & Hreq & _ & _
        & Hsrv2 & _ & Hex2 & _ & _).
  rewrite Hex2 in Hreq by (intros n c; rewrite Hf1; apply Hread).
  rewrite (toAdd_nil _ _ Hidx) in Hreq. apply map_eq_nil in Hreq.
  rewrite Hreq in Hcount, Hsrv2.
  change (a2 = 0%Z) in Hcount. change (server w2 = server w1) in Hsrv2.
  exists (a1, s1, None), w1, w2, evs2. subst a2.
  replace s2 with (len items) in Hrun2 by lia.
  repeat split; done.
Qed.

(** ** C10: what pruning leaves alone *)

Lemma NoDup_map_inj {A B} (f : A -> B) (l : list A) x y :
  NoDup (map f l) -> x ∈ l -> y ∈ l -> f x = f y -> x = y.
Proof.
  induction l as [| a l IH]; intros Hnd Hx Hy Hxy; [by apply elem_of_nil in Hx |].
  cbn in Hnd. apply NoDup_cons in Hnd as [Ha Hnd].
  apply elem_of_cons in Hx as [-> | Hx]; apply elem_of_cons in Hy as [-> | Hy]; try done.
  - exfalso. apply Ha. rewrite Hxy. apply list_elem_of_fmap. eauto.
  - exfalso. apply Ha. rewrite <- Hxy. apply list_elem_of_fmap. eauto.
  - by apply IH.
Qed.

Lemma itemID_listed it : itemID (toBoardItem (listedNode it)) = sitem_ID it.
Proof. unfold listedNode. by destruct (sitem_Kind it). Qed.

Lemma contentID_listed it : contentID (toBoardItem (listedNode it)) = listedID it.
Proof. reflexivity. Qed.

Lemma elem_of_listingOf b items :
  b ∈ listingOf items <-> ∃ it, it ∈ items /\ b = toBoardItem (listedNode it).
Proof.
  unfold listingOf. rewrite map_map, list_elem_of_fmap. naive_solver.
Qed.

Lemma stale_spec current b :
  stale current b = true <-> contentID b ≠ "" /\ contentID b ∉ current.
Proof.
  unfold stale. rewrite andb_true_iff, !negb_true_iff, !bool_decide_eq_false. done.
Qed.

(** Every delete request of a pruning targets a listed item that has a
    content identifier outside the current set. *)
Lemma deletes_are_stale pid current listed items (rs : list (string * string * error)) :
  map fst rs = map (λ item, (pid, itemID item)) (filter (λ item, stale current item = true) listed) ->
  (listed = listingOf items \/ listed = []) ->
  ∀ p i e, (p, i, e) ∈ rs ->
    p = pid /\ ∃ it, it ∈ items /\ sitem_ID it = i /\ listedID it ≠ "" /\ listedID it ∉ current.
Proof.
  intros Hreq Hlisted p i e Hin.
  assert (Hpi : (p, i) ∈ map fst rs).
  { apply list_elem_of_fmap. by exists (p, i, e). }
  rewrite Hreq in Hpi. apply list_elem_of_fmap in Hpi as (b & [= -> ->] & Hb).
  apply list_elem_of_filter in Hb as [Hst Hb]. apply stale_spec in Hst as [Hne Hnc].
  destruct Hlisted as [-> | ->]; [| by apply elem_of_nil in Hb].
  apply elem_of_listingOf in Hb as (it & Hit & ->).
  split; [done |]. exists it. by rewrite itemID_listed.
Qed.


(** ** Board resolution and repository links *)

Lemma calm_nil : calm [].
Proof. done. Qed.

Lemma calm_app evs1 evs2 : calm evs1 -> calm evs2 -> calm (evs1 ++ evs2).
Proof.
  intros (Ha1 & Hd1 & Hp1) (Ha2 & Hd2 & Hp2). unfold calm.
  by rewrite addsOf_app, deletesOf_app, printsOf_app, Ha1, Ha2, Hd1, Hd2, Hp1, Hp2.
Qed.

Lemma calm_quiet evs : Forall (λ ev, ev_quiet ev = true) evs -> calm evs.
Proof.
  intros H. split; [by apply quiet_addsOf |]. split; [by apply quiet_deletesOf |].
  by apply quiet_printsOf.
Qed.

Lemma calm_cons ev evs :
  ev_add ev = false -> ev_delete ev = false -> ev_print ev = false ->
  calm evs -> calm (ev :: evs).
Proof.
  intros Ha Hd Hp H. apply (calm_app [ev] evs); [| done].
  destruct ev as [[] ?| |]; done.
Qed.

Lemma keeps_boards_refl s : keeps_boards s s.
Proof. by split. Qed.

Lemma keeps_boards_trans s1 s2 s3 :
  keeps_boards s1 s2 -> keeps_boards s2 s3 -> keeps_boards s1 s3.
Proof. intros [? ?] [? ?]. split; [congruence | lia]. Qed.

Lemma length_projectsOf ownerId s : length (projectsOf ownerId s) <= length (projects s).
Proof. unfold projectsOf. rewrite length_map. apply length_filter. Qed.

Lemma length_ownedProjects isOrg owner s :
  length (ownedProjects isOrg owner s) <= length (projects s).
Proof.
  unfold ownedProjects. destruct (findAccount owner isOrg s); cbn; [| lia].
  apply length_projectsOf.
Qed.

Lemma findUserProject_spec fuel owner title cursor w :
  default 0 cursor <= length (ownedProjects false owner (server w)) ->
  length (ownedProjects false owner (server w)) < default 0 cursor + pageSize * fuel ->
  ∃ proj err w' evs,
    findUserProject fuel owner title cursor w = Some ((proj, err), w') /\
    continues w w' evs /\ server w' = server w /\
    Forall (λ ev, ev_quiet ev = true) evs /\ logged evs.
Proof.
  revert cursor w. induction fuel as [| fuel IH]; intros cursor w Hle Hlt.
  { lia. }
  cbn [findUserProject]. rewrite bind_run. unfold Do.
  destruct (faults w (clock w) (QueryUserProjects owner cursor)) as [msg |] eqn:Hf.
  { eexists None, (Some msg), _, _. split; [reflexivity |].
    split; [exact (continues_sent _ _ _ _) |]. split; [done |].
    split; [by repeat constructor | by split]. }
  cbn [serve]. unfold ownedProjects in Hle, Hlt.
  destruct (findAccount owner false (server w)) as [a |] eqn:Hacct.
  2:{ eexists None, (Some _), _, _. split; [reflexivity |].
      split; [exact (continues_sent _ _ _ _) |]. split; [done |].
    split; [by repeat constructor | by split]. }
  cbn [paginate fst snd HasNextPage EndCursor].
  destruct (List.find (hasTitle title) _) as [p |].
  { eexists (Some _), None, _, _. split; [reflexivity |].
    split; [exact (continues_sent _ _ _ _) |]. split; [done |].
    split; [by repeat constructor | by split]. }
  case_bool_decide as Hnext; cbn [negb].
  - destruct (IH (Some (default 0 cursor + pageSize))
                 (sent (QueryUserProjects owner cursor) None (server w) w))
      as (proj & err & w' & evs & Hrun & Hc & Hs & Hq & Hlog).
    { unfold ownedProjects. cbn. rewrite Hacct. lia. }
    { unfold ownedProjects. cbn. rewrite Hacct. lia. }
    exists proj, err, w', (EvDo (QueryUserProjects owner cursor) None :: evs).
    split; [exact Hrun |]. split; [exact (continues_sent_l _ _ _ _ _ _ Hc) |].
    split; [done |]. split; [by constructor | exact Hlog].
  - eexists None, None, _, _. split; [reflexivity |].
    split; [exact (continues_sent _ _ _ _) |]. split; [done |].
    split; [by repeat constructor | by split].
Qed.

Lemma findOrgProject_spec fuel owner title cursor w :
  default 0 cursor <= length (ownedProjects true owner (server w)) ->
  length (ownedProjects true owner (server w)) < default 0 cursor + pageSize * fuel ->
  ∃ proj err w' evs,
    findOrgProject fuel owner title cursor w = Some ((proj, err), w') /\
    continues w w' evs /\ server w' = server w /\
    Forall (λ ev, ev_quiet ev = true) evs /\ logged evs.
Proof.
  revert cursor w. induction fuel as [| fuel IH]; intros cursor w Hle Hlt.
  { lia. }
  cbn [findOrgProject]. rewrite bind_run. unfold Do.
  destruct (faults w (clock w) (QueryOrgProjects owner cursor)) as [msg |] eqn:Hf.
  { eexists None, (Some msg), _, _. split; [reflexivity |].
    split; [exact (continues_sent _ _ _ _) |]. split; [done |].
    split; [by repeat constructor | by split]. }
  cbn [serve]. unfold ownedProjects in Hle, Hlt.
  destruct (findAccount owner true (server w)) as [a |] eqn:Hacct.
  2:{ eexists None, (Some _), _, _. split; [reflexivity |].
      split; [exact (continues_sent _ _ _ _) |]. split; [done |].
    split; [by repeat constructor | by split]. }
  cbn [paginate fst snd HasNextPage EndCursor].
  destruct (List.find (hasTitle title) _) as [p |].
  { eexists (Some _), None, _, _. split; [reflexivity |].
    split; [exact (continues_sent _ _ _ _) |]. split; [done |].
    split; [by repeat constructor | by split]. }
  case_bool_decide as Hnext; cbn [negb].
  - destruct (IH (Some (default 0 cursor + pageSize))
                 (sent (QueryOrgProjects owner cursor) None (server w) w))
      as (proj & err & w' & evs & Hrun & Hc & Hs & Hq & Hlog).
    { unfold ownedProjects. cbn. rewrite Hacct. lia. }
    { unfold ownedProjects. cbn. rewrite Hacct. lia. }
    exists proj, err, w', (EvDo (QueryOrgProjects owner cursor) None :: evs).
    split; [exact Hrun |]. split; [exact (continues_sent_l _ _ _ _ _ _ Hc) |].
    split; [done |]. split; [by constructor | exact Hlog].
  - eexists None, None, _, _. split; [reflexivity |].
    split; [exact (continues_sent _ _ _ _) |]. split; [done |].
    split; [by repeat constructor | by split].
Qed.

Lemma FindProject_spec fuel owner title w :
  length (projects (server w)) < pageSize * fuel ->
  ∃ proj w' evs,
    FindProject fuel owner title w = Some ((proj, None), w') /\
    continues w w' evs /\ server w' = server w /\
    Forall (λ ev, ev_quiet ev = true) evs /\ logged evs.
Proof.
  intros Hfuel. unfold FindProject. rewrite bind_run.
  pose proof (length_ownedProjects false owner (server w)) as Hlen1.
  pose proof (length_ownedProjects true owner (server w)) as Hlen2.
  destruct (findUserProject_spec fuel owner title None w ltac:(cbn; lia) ltac:(cbn; lia))
    as (proj1 & err1 & w1 & evs1 & -> & Hc1 & Hs1 & Hq1 & Hl1).
  destruct err1 as [e |], proj1 as [p |];
    try (rewrite bind_run;
         destruct (findOrgProject_spec fuel owner title None w1
                     ltac:(rewrite Hs1; cbn; lia) ltac:(rewrite Hs1; cbn; lia))
           as (proj2 & err2 & w2 & evs2 & -> & Hc2 & Hs2 & Hq2 & Hl2);
         pose proof (continues_trans _ _ _ _ _ Hc1 Hc2) as Hc;
         destruct err2 as [e2 |], proj2 as [p2 |]; eexists _, w2, _;
         (split; [reflexivity |]); (split; [exact Hc |]);
         (split; [congruence |]); (split; [by apply Forall_app | by apply logged_app])).
  exists (Some p), w1, evs1. split; [reflexivity | done].
Qed.

Ltac run_step :=
  first
    [ rewrite bind_run
    | rewrite log_run
    | rewrite ret_run
    | progress cbn [serve zero fst snd andb negb]
    | match goal with
      | |- context [Do ?req ?w] =>
          unfold Do at 1; destruct (faults w (clock w) req) as [?msg |] eqn:?Hf
      | |- context [match findAccount ?l ?o ?s with _ => _ end] =>
          destruct (findAccount l o s) as [?a |] eqn:?Hacct
      | |- context [bool_decide ?P] => destruct (bool_decide P) eqn:?Hb
      | |- context [if existsb ?f ?l then _ else _] => destruct (existsb f l) eqn:?Hex
      end ].

Lemma resolveOwnerNodeID_spec login w :
  ∃ id err w' e0 evs,
    resolveOwnerNodeID login w = Some ((id, err), w') /\
    continues w w' (EvDo (QueryUserID login) e0 :: evs) /\
    Forall (λ ev, ev_quiet ev = true) (EvDo (QueryUserID login) e0 :: evs) /\
    server w' = server w /\
    logged (EvDo (QueryUserID login) e0 :: evs).
Proof.
  unfold resolveOwnerNodeID.
  repeat run_step;
    eexists _, _, _, _, _; (split; [reflexivity |]);
    (split; [first [ exact (continues_sent _ _ _ _)
                   | exact (continues_sent_l _ _ _ _ _ _ (continues_sent _ _ _ _)) ] |]);
    (split; [by repeat constructor |]); (split; [done |]); by repeat split.
Qed.

(** [continues w w1 ?evs] for a world [w1] built from [w] by [emit] and
    [sent]. *)
Ltac prefix :=
  first
    [ exact (continues_refl _)
    | eapply continues_trans; [| exact (continues_emit _ _)]; prefix
    | eapply continues_trans; [| exact (continues_sent _ _ _ _)]; prefix ].

Ltac calm_prefix :=
  repeat (apply calm_app); first [ exact calm_nil | by repeat split ].

Lemma CreateProject_spec owner title w :
  ∃ proj err w' e0 evs,
    CreateProject owner title w = Some ((proj, err), w') /\
    continues w w' (EvDo (QueryUserID owner) e0 :: evs) /\
    calm (EvDo (QueryUserID owner) e0 :: evs) /\
    keeps_boards (server w) (server w') /\
    (err = None -> is_Some proj) /\
    logged (EvDo (QueryUserID owner) e0 :: evs).
Proof.
  unfold CreateProject. rewrite bind_run.
  destruct (resolveOwnerNodeID_spec owner w) as (id & err & w1 & e0 & evs & -> & Hc & Hq & Hs & Hlog).
  apply calm_quiet in Hq.
  destruct err as [e |]; repeat run_step.
  - eexists None, _, w1, e0, evs. split; [reflexivity |]. split; [done |].
    split; [done |]. split; [by rewrite Hs |]. split; [done | exact Hlog].
  - eexists None, _, _, e0, (evs ++ _). split; [reflexivity |].
    split; [exact (continues_trans _ _ _ _ _ Hc (continues_sent _ _ _ _)) |].
    split; [apply (calm_app (_ :: _) [_]); [done | by repeat split] |].
    split; [by rewrite Hs |].
    split; [done | apply (logged_app (_ :: _) [_]); [exact Hlog | by split]].
  - eexists (Some _), None, _, e0, (evs ++ _). split; [reflexivity |].
    split; [exact (continues_trans _ _ _ _ _ Hc (continues_sent _ _ _ _)) |].
    split; [apply (calm_app (_ :: _) [_]); [done | by repeat split] |].
    split; [rewrite Hs; split; cbn; [done | lia] |].
    split; [by eexists | apply (logged_app (_ :: _) [_]); [exact Hlog | by split]].
  - eexists None, _, _, e0, (evs ++ _). split; [reflexivity |].
    split; [exact (continues_trans _ _ _ _ _ Hc (continues_sent _ _ _ _)) |].
    split; [apply (calm_app (_ :: _) [_]); [done | by repeat split] |].
    split; [by rewrite Hs |].
    split; [done | apply (logged_app (_ :: _) [_]); [exact Hlog | by split]].
Qed.

Lemma LinkProjectToRepositories_range_spec pid repos linked skipped w :
  ∃ linked' skipped' w' evs,
    LinkProjectToRepositories_range pid repos linked skipped w
      = Some ((linked', skipped'), w') /\
    continues w w' evs /\ calm evs /\ keeps_boards (server w) (server w') /\
    logged evs.
Proof.
  revert linked skipped w.
  induction repos as [| repo repos IH]; intros linked skipped w.
  { exists linked, skipped, w, []. split; [done |]. split; [apply continues_refl |].
    split; [done |]. split; [apply keeps_boards_refl | done]. }
  cbn [LinkProjectToRepositories_range]. unfold resolveRepoNodeID, Errorf.
  destruct (SplitN2 repo) as [| owner [| name [| ? ?]]];
    repeat first
      [ run_step
      | match goal with
        | |- context [match List.find ?f ?l with _ => _ end] =>
            destruct (List.find f l) as [?r |] eqn:?Hfind
        | |- context [if (Contains ?a ?b || Contains ?c ?d)%bool then _ else _] =>
            destruct (Contains a b || Contains c d)%bool
        end ];
    match goal with |- context [LinkProjectToRepositories_range _ _ ?l ?s ?w1] =>
      destruct (IH l s w1) as (l' & s' & w' & evs & Hrun & Hc & Hcalm & Hk & Hlog)
    end.
  all: eexists l', s', w', (_ ++ evs); (split; [exact Hrun |]).
  all: (split; [eapply continues_trans; [| exact Hc]; prefix |]).
  all: (split; [apply calm_app; [calm_prefix | exact Hcalm] |]).
  all: (split; [eapply keeps_boards_trans; [| exact Hk]; by split |]).
  all: apply logged_app; [| exact Hlog]; cbn; repeat split; done.
Qed.

Lemma LinkProjectToRepositories_spec pid repos w :
  ∃ linked skipped w' evs,
    LinkProjectToRepositories pid repos w = Some ((linked, skipped, None), w') /\
    continues w w' evs /\ calm evs /\ keeps_boards (server w) (server w') /\
    logged evs.
Proof.
  unfold LinkProjectToRepositories. rewrite bind_run.
  destruct (LinkProjectToRepositories_range_spec pid repos 0 0 w)
    as (l' & s' & w' & evs & -> & Hc & Hcalm & Hk & Hlog).
  by exists l', s', w', evs.
Qed.

(** ** The orchestrator *)

Lemma UpdateBoard_linkRepos_spec config project w :
  ∃ w' evs,
    UpdateBoard_linkRepos config project w = Some (tt, w') /\
    continues w w' evs /\ calm evs /\ keeps_boards (server w) (server w') /\
    logged evs.
Proof.
  unfold UpdateBoard_linkRepos. case_bool_decide.
  2:{ exists w, []. split; [done |]. split; [apply continues_refl |].
      split; [done |]. split; [apply keeps_boards_refl | done]. }
  mstep.
  match goal with |- context [LinkProjectToRepositories ?pid ?repos ?w1] =>
    destruct (LinkProjectToRepositories_spec pid repos w1)
      as (l & s & w2 & evs & -> & Hc & Hcalm & Hk & Hlog)
  end.
  mstep. eexists _, _. split; [reflexivity |].
  split.
  { eapply continues_emit_l.
    eapply continues_trans; [exact Hc | exact (continues_emit _ _)]. }
  split; [apply (calm_app [_]); [by repeat split |]; apply calm_app; [done | by repeat split] |].
  split; [exact Hk |].
  apply (logged_app [_]); [done |]. apply logged_app; [done | done].
Qed.

Lemma UpdateBoard_sync_spec fuel config items project w :
  length (board (server w) (Info_ID project)) < pageSize * fuel ->
  ∃ w' evs listed,
    UpdateBoard_sync fuel config items project w = Some (tt, w') /\
    continues w w' evs /\
    addsOf evs = [] /\ printsOf evs = [] /\
    (Config_Sync config = false -> deletesOf evs = []) /\
    map fst (deletesOf evs)
      = map (λ item, (Info_ID project, itemID item))
            (filter (λ item, stale (currentIDsOf items) item = true) listed) /\
    (listed = listingOf (board (server w) (Info_ID project)) \/ listed = []) /\
    (Config_Sync config = true ->
     (∀ n c, faults w n (QueryItems (Info_ID project) c) = None) ->
     listed = listingOf (board (server w) (Info_ID project))) /\
    ((∀ n i, faults w n (DeleteProjectV2Item (Info_ID project) i) = None) ->
     succeeded (deletesOf evs)
       = map itemID (filter (λ item, stale (currentIDsOf items) item = true) listed)) /\
    server w' = deletedServer (Info_ID project) (succeeded (deletesOf evs)) (server w) /\
    logged evs.
Proof.
  intros Hfuel. unfold UpdateBoard_sync. destruct (Config_Sync config).
  2:{ exists w, [], []. split; [done |]. split; [apply continues_refl |].
      repeat split; try done. by right. }
  mstep.
  match goal with |- context [removeStaleItems _ _ _ ?w1] =>
    destruct (removeStaleItems_spec fuel (Info_ID project) items w1 Hfuel)
      as (removed & err & w2 & evs & -> & Hc & _ & (listed & Hreq & Hlisted & Herr & Hok)
          & Hadd & Hpr & Hsrv & Hnofault & Hlo)
  end.
  assert (Hfin : ∃ ev, (ev_quiet ev = true /\ ∃ format args, ev = EvLog format args) /\
            match err with
            | Some e => logPrintf "Warning: error removing stale items: %v" [AErr e]
            | None => logPrintf "Removed %d stale item(s)" [AInt removed]
            end w2 = Some (tt, emit ev w2)).
  { destruct err; eexists; (split; [| reflexivity]); (split; [done | by eexists _, _]). }
  destruct Hfin as (ev & (Hev & format & args & Hlogev) & ->).
  exists (emit ev w2), ([EvLog "Syncing: removing stale items not in current query..." []]
                        ++ evs ++ [ev]), listed.
  split; [done |]. split.
  { eapply (continues_emit_l _ _ _ (evs ++ [ev])).
    eapply continues_trans; [exact Hc | exact (continues_emit _ _)]. }
  assert (Hq : Forall (λ ev, ev_quiet ev = true) [ev]) by by repeat constructor.
  assert (Hq0 : Forall (λ ev, ev_quiet ev = true)
                       [EvLog "Syncing: removing stale items not in current query..." []])
    by by repeat constructor.
  rewrite (addsOf_quiet_app _ _ Hq0), (printsOf_quiet_app _ _ Hq0),
    (deletesOf_quiet_app _ _ Hq0).
  rewrite addsOf_app, printsOf_app, deletesOf_app, Hadd, Hpr,
    (quiet_addsOf _ Hq), (quiet_printsOf _ Hq), (quiet_deletesOf _ Hq), !app_nil_r.
  split; [done |]. split; [done |]. split; [done |]. split; [exact Hreq |].
  split; [exact Hlisted |]. split.
  { intros _ H. apply Herr, Hnofault, H. }
  split; [exact Hok |]. split; [exact Hsrv |].
  apply (logged_app [_]); [done |]. subst ev. apply Hlo.
Qed.

Lemma board_ext s s' p : boards s' = boards s -> board s' p = board s p.
Proof. unfold board. by intros ->. Qed.

(** A run from the resolved board on: the add phase [evsA], then linking
    and pruning [evsR], then the summary. *)
Lemma UpdateBoard_project_spec fuel config items project w :
  length (board (server w) (Info_ID project)) + length items < pageSize * fuel ->
  ∃ w' evsA evsR existing listed,
    UpdateBoard_project fuel config items project w = Some (None, w') /\
    faults w' = faults w /\
    trace w' = trace w ++ evsA ++ evsR ++ [summary project] /\
    (deletesOf evsA = [] /\ printsOf evsA = [] /\
     map fst (addsOf evsA) = map (pair (Info_ID project)) (toAdd existing items) /\
     (existing = indexOf (board (server w) (Info_ID project)) \/ existing = ∅) /\
     ((∀ n c, faults w n (QueryItemContentIDs (Info_ID project) c) = None) ->
      existing = indexOf (board (server w) (Info_ID project))) /\
     ((∀ n c, faults w n (AddProjectV2ItemById (Info_ID project) c) = None) ->
      succeeded (addsOf evsA) = toAdd existing items)) /\
    (addsOf evsR = [] /\ printsOf evsR = [] /\
     (Config_Sync config = false -> deletesOf evsR = []) /\
     map fst (deletesOf evsR)
       = map (λ item, (Info_ID project, itemID item))
             (filter (λ item, stale (currentIDsOf items) item = true) listed) /\
     (listed = listingOf (afterAdds (server w) (Info_ID project) evsA) \/ listed = []) /\
     (Config_Sync config = true ->
      (∀ n c, faults w n (QueryItems (Info_ID project) c) = None) ->
      listed = listingOf (afterAdds (server w) (Info_ID project) evsA)) /\
     ((∀ n i, faults w n (DeleteProjectV2Item (Info_ID project) i) = None) ->
      succeeded (deletesOf evsR)
        = map itemID (filter (λ item, stale (currentIDsOf items) item = true) listed))) /\
    (∀ p, board (server w') p =
          if decide (Info_ID project = p)
          then filter (λ it, sitem_ID it ∉ succeeded (deletesOf evsR))
                      (afterAdds (server w) (Info_ID project) evsA)
          else board (server w) p) /\
    minted (server w) <= minted (server w') /\
    logged (evsA ++ evsR ++ [summary project]).
Proof.
  intros Hfuel. unfold UpdateBoard_project. mstep.
  set (pid := Info_ID project) in *.
  set (ev1 := EvLog "Adding %d item(s) to project board..." [AInt (len items)]).
  destruct (addItems_spec fuel pid items (emit ev1 w) ltac:(cbn; lia))
    as (a & s & w1 & evs1 & existing & -> & Hc1 & _ & Hcount & Hreq1 & Hdel1 & Hpr1
        & Hsrv1 & Hex & Hread & Hok1 & Hlog1).
  mstep.
  set (ev2 := EvLog "Done: %d added, %d skipped (already present or error)"
                    [AInt a; AInt s]).
  destruct (UpdateBoard_linkRepos_spec config project (emit ev2 w1))
    as (w3 & evs3 & -> & Hc3 & (Ha3 & Hd3 & Hp3) & (Hb3 & Hm3) & Hlog3).
  mstep.
  assert (Hq1 : Forall (λ ev, ev_quiet ev = true) [ev1]) by by repeat constructor.
  assert (Hq2 : Forall (λ ev, ev_quiet ev = true) [ev2]) by by repeat constructor.
  set (evsA := [ev1] ++ evs1 ++ [ev2]).
  assert (HaddsA : addsOf evsA = addsOf evs1).
  { unfold evsA. by rewrite (addsOf_quiet_app _ _ Hq1), addsOf_app, (quiet_addsOf _ Hq2),
      app_nil_r. }
  cbn [server emit] in Hsrv1, Hb3, Hm3, Hex, Hread.
  assert (Hboard3 : board (server w3) pid = afterAdds (server w) pid evsA).
  { rewrite (board_ext _ _ _ Hb3), Hsrv1, board_addedServer, decide_True by done.
    unfold afterAdds. by rewrite HaddsA. }
  assert (Hlen : length (afterAdds (server w) pid evsA) < pageSize * fuel).
  { unfold afterAdds. rewrite length_app, length_fresh, HaddsA.
    pose proof (length_succeeded (addsOf evs1)) as Hls.
    rewrite <- (length_map fst (addsOf evs1)), Hreq1, length_map in Hls.
    pose proof (length_toAdd existing items). lia. }
  destruct (UpdateBoard_sync_spec fuel config items project w3 ltac:(fold pid; by rewrite Hboard3))
    as (w4 & evs4 & listed & -> & Hc4 & Ha4 & Hp4 & Hnosync & Hreq4 & Hlisted & Hlisting
        & Hok4 & Hsrv4 & Hlog4).
  fold pid in Hreq4, Hlisted, Hlisting, Hok4, Hsrv4. rewrite Hboard3 in Hlisted, Hlisting.
  destruct Hc1 as [Hf1 Ht1], Hc3 as [Hf3 Ht3], Hc4 as [Hf4 Ht4].
  cbn [faults trace emit] in Hf1, Ht1, Hf3, Ht3.
  eexists _, evsA, (evs3 ++ evs4), existing, listed.
  split; [reflexivity |].
  split; [cbn; congruence |].
  split.
  { cbn. rewrite Ht4, Ht3, Ht1. unfold evsA, summary. by rewrite <- !app_assoc. }
  split.
  { unfold evsA.
    rewrite (deletesOf_quiet_app _ _ Hq1), (printsOf_quiet_app _ _ Hq1), deletesOf_app,
      printsOf_app, (quiet_deletesOf _ Hq2), (quiet_printsOf _ Hq2), Hdel1, Hpr1.
    fold evsA. rewrite HaddsA.
    split; [done |]. split; [done |]. split; [done |]. split; [done |].
    split; [exact Hread |]. exact Hok1. }
  split.
  { rewrite addsOf_app, printsOf_app, deletesOf_app, Ha3, Ha4, Hp3, Hp4, Hd3.
    split; [done |]. split; [done |]. split; [exact Hnosync |].
    split; [exact Hreq4 |]. split; [exact Hlisted |]. split.
    - intros Hs H. apply Hlisting; [done |]. intros n c. rewrite Hf3, Hf1. apply H.
    - intros H. apply Hok4. intros n i. rewrite Hf3, Hf1. apply H. }
  rewrite deletesOf_app, Hd3. cbn [app server emit]. rewrite Hsrv4. split.
  - intros p. rewrite board_deletedServer. fold pid. case_decide as Hp.
    + by rewrite Hboard3.
    + rewrite (board_ext _ _ _ Hb3), Hsrv1, board_addedServer. by rewrite decide_False.
  - split.
    + rewrite minted_deletedServer.
      pose proof (minted_addedServer pid
                    (freshItems (minted (server w)) (succeeded (addsOf evs1)))
                    (server w)) as Hm1.
      rewrite <- Hsrv1 in Hm1. lia.
    + unfold evsA. repeat apply logged_app; done.
Qed.

(** How [UpdateBoard] resolves the board: it looks the project up, creates
    it when the lookup returned none, and either stops on a creation error
    or goes on with the project. *)
Lemma UpdateBoard_resolution fuel config items w :
  length (projects (server w)) < pageSize * fuel ->
  ∃ found w1 evs1,
    FindProject fuel (Config_Owner config) (Config_Name config) (banner config w)
      = Some ((found, None), w1) /\
    continues (banner config w) w1 evs1 /\ server w1 = server w /\
    Forall (λ ev, ev_quiet ev = true) evs1 /\ logged evs1 /\
    match found with
    | Some project =>
        UpdateBoard fuel config items w
        = UpdateBoard_project fuel config items project
            (emit (EvLog "Found existing project: %s" [AStr (Info_URL project)]) w1)
    | None =>
        ∃ created cerr w2 e0 evs2,
          CreateProject (Config_Owner config) (Config_Name config) (emit (notFound config) w1)
            = Some ((created, cerr), w2) /\
          continues (emit (notFound config) w1) w2
                    (EvDo (QueryUserID (Config_Owner config)) e0 :: evs2) /\
          calm (EvDo (QueryUserID (Config_Owner config)) e0 :: evs2) /\
          logged (EvDo (QueryUserID (Config_Owner config)) e0 :: evs2) /\
          keeps_boards (server w) (server w2) /\
          match cerr, created with
          | Some e, _ =>
              UpdateBoard fuel config items w
              = Some (Errorf "creating project: %w" [AErr e], w2)
          | None, Some project =>
              UpdateBoard fuel config items w
              = UpdateBoard_project fuel config items project
                  (emit (EvLog "Created project: %s" [AStr (Info_URL project)]) w2)
          | None, None => False
          end
    end.
Proof.
  intros Hfuel.
  destruct (FindProject_spec fuel (Config_Owner config) (Config_Name config)
              (banner config w) Hfuel)
    as (found & w1 & evs1 & Hfind & Hc1 & Hs1 & Hq1 & Hl1).
  exists found, w1, evs1. split; [exact Hfind |]. split; [exact Hc1 |].
  split; [exact Hs1 |]. split; [exact Hq1 |]. split; [exact Hl1 |].
  assert (Hstart : ∀ k : option Info * error -> M error,
            (logPrintf "Board name: %q" [AStr (Config_Name config)];;
             logPrintf "Board owner: %s" [AStr (Config_Owner config)];;
             FindProject fuel (Config_Owner config) (Config_Name config) ≫= k) w
            = k (found, None) w1).
  { intros k. mstep. fold (banner config w). by rewrite Hfind. }
  destruct found as [project |].
  { unfold UpdateBoard. rewrite Hstart. by mstep. }
  destruct (CreateProject_spec (Config_Owner config) (Config_Name config)
              (emit (notFound config) w1))
    as (created & cerr & w2 & e0 & evs2 & Hcreate & Hc2 & Hcalm2 & Hk2 & Hsome & Hl2).
  exists created, cerr, w2, e0, evs2. split; [exact Hcreate |]. split; [exact Hc2 |].
  split; [exact Hcalm2 |]. split; [exact Hl2 |].
  split; [cbn in Hk2; by rewrite Hs1 in Hk2 |].
  unfold UpdateBoard. rewrite Hstart. mstep. fold (notFound config). rewrite Hcreate.
  destruct cerr as [e |]; [done |].
  destruct (Hsome eq_refl) as [project ->]. by mstep.
Qed.

(** [UpdateBoard] either stops at a failed resolution, having touched no
    board, or runs [UpdateBoard_project] on the resolved project. *)
Lemma UpdateBoard_spec fuel config items w :
  length (projects (server w)) < pageSize * fuel ->
  ∃ pre,
    calm pre /\ logged pre /\
    ((∃ e w', UpdateBoard fuel config items w = Some (Some e, w') /\
              resolution_fails fuel config w /\
              faults w' = faults w /\ trace w' = trace w ++ pre /\
              keeps_boards (server w) (server w'))
     \/ (¬ resolution_fails fuel config w /\
         ∃ project w0,
           UpdateBoard fuel config items w = UpdateBoard_project fuel config items project w0 /\
           faults w0 = faults w /\ trace w0 = trace w ++ pre /\
           keeps_boards (server w) (server w0))).
Proof.
  intros Hfuel.
  destruct (UpdateBoard_resolution fuel config items w Hfuel)
    as (found & w1 & evs1 & Hfind & [Hf1 Ht1] & Hs1 & Hq1 & Hl1 & Hrest).
  cbn [banner emit faults trace] in Hf1, Ht1.
  set (b1 := EvLog "Board name: %q" [AStr (Config_Name config)]) in *.
  set (b2 := EvLog "Board owner: %s" [AStr (Config_Owner config)]) in *.
  assert (Hcalm1 : calm ([b1; b2] ++ evs1)).
  { apply calm_app; [by repeat split | by apply calm_quiet]. }
  assert (Hlog1 : logged ([b1; b2] ++ evs1)) by (apply logged_app; done).
  destruct found as [project |].
  { eexists (([b1; b2] ++ evs1)
              ++ [EvLog "Found existing project: %s" [AStr (Info_URL project)]]).
    split; [apply calm_app; [done | by repeat split] |].
    split; [apply logged_app; [done | by split] |].
    right. split.
    { intros (w1' & created & e & w2 & Hfind' & _). congruence. }
    eexists project, _. split; [exact Hrest |].
    split; [exact Hf1 |]. split; [| cbn; rewrite Hs1; apply keeps_boards_refl].
    cbn. rewrite Ht1. by rewrite <- !app_assoc. }
  destruct Hrest as (created & cerr & w2 & e0 & evs2 & Hcreate & [Hf2 Ht2] & Hcalm2 & Hl2
                     & Hk2 & Hrest).
  cbn [emit faults trace] in Hf2, Ht2.
  assert (Hcalm2' : calm (([b1; b2] ++ evs1) ++ [notFound config]
                          ++ EvDo (QueryUserID (Config_Owner config)) e0 :: evs2)).
  { apply calm_app; [done |]. apply (calm_app [_]); [by repeat split | done]. }
  assert (Hlog2' : logged (([b1; b2] ++ evs1) ++ [notFound config]
                           ++ EvDo (QueryUserID (Config_Owner config)) e0 :: evs2)).
  { apply logged_app; [done |]. apply (logged_app [_]); done. }
  destruct cerr as [e |].
  { eexists _. split; [exact Hcalm2' |]. split; [exact Hlog2' |].
    left. exists (Sprintf "creating project: %w" [AErr e]), w2.
    split; [exact Hrest |]. split; [by exists w1, created, e, w2 |].
    split; [congruence |]. split; [| exact Hk2].
    rewrite Ht2, Ht1. by rewrite <- !app_assoc. }
  destruct created as [project |]; [| done].
  eexists ((([b1; b2] ++ evs1) ++ [notFound config]
            ++ EvDo (QueryUserID (Config_Owner config)) e0 :: evs2)
           ++ [EvLog "Created project: %s" [AStr (Info_URL project)]]).
  split; [apply calm_app; [done | by repeat split] |].
  split; [apply logged_app; [done | by split] |].
  right. split.
  { intros (w1' & created & e & w2' & Hfind' & Hcreate').
    rewrite Hfind in Hfind'. injection Hfind' as <-. congruence. }
  eexists project, _. split; [exact Hrest |].
  split; [cbn; congruence |]. split; [| exact Hk2].
  cbn. rewrite Ht2, Ht1. by rewrite <- !app_assoc.
Qed.

(** C5. Fatal failure is exactly board resolution.  For every fault
    schedule, [UpdateBoard] returns an error if and only if the lookup
    found no project and the creation failed; it has then printed nothing
    and sent no add or delete request.  Otherwise it returns nil and the
    last thing it did was to print the board-URL summary, once: a failed
    membership read, add, repository lookup, link, listing or delete does
    not stop the run, and each one is followed at once by a log line. *)
Theorem UpdateBoard_fatal_iff_resolution fuel config items w :
  length (projects (server w)) < pageSize * fuel ->
  (∀ pid, length (board (server w) pid) + length items < pageSize * fuel) ->
  ∃ err w' evs,
    UpdateBoard fuel config items w = Some (err, w') /\
    trace w' = trace w ++ evs /\
    logged evs /\
    (err ≠ None <-> resolution_fails fuel config w) /\
    (err ≠ None -> printsOf evs = [] /\ addsOf evs = [] /\ deletesOf evs = []) /\
    (err = None ->
     ∃ project, printsOf evs = [summary project] /\ last evs = Some (summary project)).
Proof.
  intros Hfuel Hboards.
  destruct (UpdateBoard_spec fuel config items w Hfuel)
    as (pre & (Ha & Hd & Hp) & Hlog & [(e & w' & Hrun & Hfail & _ & Ht & _)
                                       | (Hnofail & project & w0 & Hrun & Hf0 & Ht0 & Hb0 & _)]).
  - exists (Some e), w', pre. split; [exact Hrun |]. split; [exact Ht |].
    split; [exact Hlog |]. split; [done |]. split; [done |]. done.
  - destruct (UpdateBoard_project_spec fuel config items project w0)
      as (w' & evsA & evsR & existing & listed & Hrun' & _ & Ht' & (_ & HpA & _)
          & (_ & HpR & _) & _ & _ & Hlog').
    { rewrite (board_ext _ _ _ Hb0). apply Hboards. }
    exists None, w', (pre ++ evsA ++ evsR ++ [summary project]).
    split; [by rewrite Hrun |].
    split; [rewrite Ht', Ht0; by rewrite <- !app_assoc |].
    split; [by apply logged_app |].
    split; [split; [done | intros H; by destruct Hnofail] |].
    split; [done |]. intros _. exists project. split.
    + by rewrite !printsOf_app, Hp, HpA, HpR.
    + rewrite !app_assoc. apply last_snoc.
Qed.

(** C8. Board lookup never signals failure.  [FindProject], and the copy
    [findProject] of the tools, returns a nil error on every world; when
    the transport fails both the user query and the organization query the
    result is the same [(nil, nil)] as for a project that does not exist;
    and whenever the lookup hands [UpdateBoard] no project, [UpdateBoard]
    logs that the project was not found and goes on to create one,
    starting with the owner lookup. *)
Theorem FindProject_never_fails fuel config items w :
  length (projects (server w)) < pageSize * fuel ->
  (∀ pid, length (board (server w) pid) + length items < pageSize * fuel) ->
  (∃ proj w',
     FindProject fuel (Config_Owner config) (Config_Name config) w = Some ((proj, None), w') /\
     SigAuthInterests.findProject fuel (Config_Owner config) (Config_Name config) w
       = Some ((proj, None), w') /\
     server w' = server w) /\
  (∀ e1 e2,
     faults w (clock w) (QueryUserProjects (Config_Owner config) None) = Some e1 ->
     faults w (S (clock w)) (QueryOrgProjects (Config_Owner config) None) = Some e2 ->
     ∃ w',
       FindProject fuel (Config_Owner config) (Config_Name config) w = Some ((None, None), w') /\
       trace w' = trace w ++ [EvDo (QueryUserProjects (Config_Owner config) None) (Some e1);
                              EvDo (QueryOrgProjects (Config_Owner config) None) (Some e2)]) /\
  (∀ w1,
     FindProject fuel (Config_Owner config) (Config_Name config) (banner config w)
       = Some ((None, None), w1) ->
     ∃ err w' e0 evs,
       UpdateBoard fuel config items w = Some (err, w') /\
       trace w' = trace w1 ++ notFound config
                    :: EvDo (QueryUserID (Config_Owner config)) e0 :: evs).
Proof.
  intros Hfuel Hboards. split; [| split].
  - destruct (FindProject_spec fuel (Config_Owner config) (Config_Name config) w Hfuel)
      as (proj & w' & evs & Hrun & _ & Hs & _).
    exists proj, w'. split; [exact Hrun |]. split; [exact Hrun | exact Hs].
  - intros e1 e2 H1 H2. destruct fuel as [| fuel]; [lia |].
    unfold FindProject. cbn [findUserProject findOrgProject].
    rewrite !bind_run. unfold Do at 1. rewrite H1. mstep. unfold Do at 1.
    cbn [faults clock sent]. rewrite H2. mstep.
    eexists. split; [reflexivity |]. cbn. by rewrite <- app_assoc.
  - intros w1 Hfind.
    destruct (UpdateBoard_resolution fuel config items w Hfuel)
      as (found & w1' & evs1 & Hfind' & _ & _ & _ & _ & Hrest).
    rewrite Hfind in Hfind'. injection Hfind' as <- <-.
    destruct Hrest as (created & cerr & w2 & e0 & evs2 & _ & [_ Ht2] & _ & _ & Hk2 & Hrest).
    cbn [emit trace] in Ht2.
    destruct cerr as [e |].
    { exists (Errorf "creating project: %w" [AErr e]), w2, e0, evs2.
      split; [exact Hrest |]. rewrite Ht2. by rewrite <- app_assoc. }
    destruct created as [project |]; [| done].
    destruct (UpdateBoard_project_spec fuel config items project
                (emit (EvLog "Created project: %s" [AStr (Info_URL project)]) w2))
      as (w' & evsA & evsR & existing & listed & Hrun' & _ & Ht' & _).
    { cbn. rewrite (board_ext _ _ _ (proj1 Hk2)). apply Hboards. }
    eexists None, w', e0, _. split; [by rewrite Hrest |].
    rewrite Ht'. cbn [emit trace]. rewrite Ht2. rewrite <- !app_assoc. cbn [app].
    reflexivity.
Qed.

(** ** Item identifiers *)

Lemma mintItemID_inj n m : mintItemID n = mintItemID m -> n = m.
Proof.
  unfold mintItemID, mintID. cbn. intros [= H].
  assert (Hu : Nat.to_uint n = Nat.to_uint m).
  { pose proof (NilEmpty.usu (Nat.to_uint n)) as Hn.
    pose proof (NilEmpty.usu (Nat.to_uint m)) as Hm.
    change (NilEmpty.string_of_uint (Nat.to_uint n)
            = NilEmpty.string_of_uint (Nat.to_uint m)) in H.
    congruence. }
  rewrite <- (Unsigned.of_to n), <- (Unsigned.of_to m). by rewrite Hu.
Qed.

Lemma wf_ids_kept s s' : keeps_boards s s' -> wf_ids s -> wf_ids s'.
Proof.
  intros [Hb Hm] Hwf pid. destruct (Hwf pid) as [Hnd Hfresh].
  rewrite (board_ext _ _ pid Hb). split; [done |].
  intros it n Hit Hn. apply Hfresh; [done | lia].
Qed.

Lemma fresh_ids n cids it :
  it ∈ freshItems n cids ->
  (∃ k, n <= k /\ sitem_ID it = mintItemID k) /\
  sitem_Kind it = IssueOrPullRequest /\ sitem_ContentID it ∈ cids.
Proof.
  revert n. induction cids as [| c cids IH]; intros n Hit; [by apply elem_of_nil in Hit |].
  cbn [freshItems] in Hit. apply elem_of_cons in Hit as [-> | Hit].
  - split; [exists n; by split |]. split; [done | by left].
  - destruct (IH _ Hit) as ((k & Hk & Hid) & Hkind & Hc).
    split; [exists k; split; [lia | done] |]. split; [done | by right].
Qed.

Lemma elem_of_fresh n cids c :
  c ∈ cids -> ∃ it, it ∈ freshItems n cids /\ sitem_ContentID it = c.
Proof.
  revert n. induction cids as [| c' cids IH]; intros n Hc; [by apply elem_of_nil in Hc |].
  apply elem_of_cons in Hc as [-> | Hc].
  - eexists. split; [by left | done].
  - destruct (IH (S n) Hc) as (it & Hit & Hcid). exists it. split; [by right | done].
Qed.

Lemma NoDup_fresh_ids n cids : NoDup (map sitem_ID (freshItems n cids)).
Proof.
  revert n. induction cids as [| c cids IH]; intros n; [constructor |].
  cbn. apply NoDup_cons. split; [| apply IH].
  intros Hin. apply list_elem_of_fmap in Hin as (it & Hid & Hit).
  destruct (fresh_ids _ _ _ Hit) as ((k & Hk & Hid') & _).
  cbn in Hid. rewrite Hid' in Hid. apply mintItemID_inj in Hid. lia.
Qed.

Lemma NoDup_afterAdds s pid evsA :
  wf_ids s -> NoDup (map sitem_ID (afterAdds s pid evsA)).
Proof.
  intros Hwf. destruct (Hwf pid) as [Hnd Hfresh].
  unfold afterAdds. rewrite map_app. apply NoDup_app.
  split; [done |]. split; [| apply NoDup_fresh_ids].
  intros i Hi Hi'.
  apply list_elem_of_fmap in Hi as (it & -> & Hit).
  apply list_elem_of_fmap in Hi' as (it' & Hid & Hit').
  destruct (fresh_ids _ _ _ Hit') as ((k & Hk & Hid') & _).
  apply (Hfresh it k Hit Hk). congruence.
Qed.

(** On a board with distinct item identifiers, pruning keeps every item
    whose content identifier is empty or in the current set. *)
Lemma survives_prune pid current listed items (rs : list (string * string * error)) it :
  NoDup (map sitem_ID items) ->
  map fst rs = map (λ item, (pid, itemID item)) (filter (λ item, stale current item = true) listed) ->
  (listed = listingOf items \/ listed = []) ->
  it ∈ items -> listedID it = "" \/ listedID it ∈ current ->
  it ∈ filter (λ it, sitem_ID it ∉ succeeded rs) items.
Proof.
  intros Hnd Hreq Hlisted Hit Hkeep.
  apply list_elem_of_filter. split; [| done]. intros Hin.
  pose proof (elem_of_sublist _ _ _ Hin (succeeded_sublist _)) as Hin'.
  apply list_elem_of_fmap in Hin' as ([[p i] e] & Hi & Hr). cbn in Hi. subst i.
  destruct (deletes_are_stale _ _ _ _ _ Hreq Hlisted _ _ _ Hr) as (_ & it' & Hit' & Hid & Hne & Hnc).
  assert (it' = it) as -> by exact (NoDup_map_inj _ _ _ _ Hnd Hit' Hit Hid).
  by destruct Hkeep.
Qed.

Lemma elem_of_succeeded (rs : list (string * string * error)) p c :
  (p, c, None) ∈ rs -> c ∈ succeeded rs.
Proof. intros H. apply list_elem_of_omap. by exists (p, c, None). Qed.

Lemma listedID_fresh n cids it : it ∈ freshItems n cids -> listedID it = sitem_ContentID it.
Proof.
  intros Hit. destruct (fresh_ids _ _ _ Hit) as (_ & Hkind & _).
  unfold listedID, listedNode. by rewrite Hkind.
Qed.

(** C6. Add before prune.  In every run the trace splits into a first part
    with every add request and no delete request, and a second part with
    every delete request and no add request.  On boards with distinct item
    identifiers, an item whose content identifier is in the candidate set
    is on the board at the end of the run if it was there at the start,
    and every add request that succeeded has left on the board an item
    with that content identifier, minted during the run: no item is
    deleted in the run that added it.  (Without [Sync] no delete request
    is sent at all.) *)
Theorem adds_before_prune fuel config items w :
  length (projects (server w)) < pageSize * fuel ->
  (∀ pid, length (board (server w) pid) + length items < pageSize * fuel) ->
  wf_ids (server w) ->
  ∃ err w' evs1 evs2,
    UpdateBoard fuel config items w = Some (err, w') /\
    trace w' = trace w ++ evs1 ++ evs2 /\
    deletesOf evs1 = [] /\ addsOf evs2 = [] /\
    (Config_Sync config = false -> deletesOf evs2 = []) /\
    (∀ p it, it ∈ board (server w) p -> listedID it ∈ currentIDsOf items ->
             it ∈ board (server w') p) /\
    (∀ p c, (p, c, None) ∈ addsOf evs1 ->
       c ∈ currentIDsOf items /\
       ∃ it k, it ∈ board (server w') p /\ sitem_ContentID it = c /\
               sitem_ID it = mintItemID k /\ minted (server w) <= k).
Proof.
  intros Hfuel Hboards Hwf.
  destruct (UpdateBoard_spec fuel config items w Hfuel)
    as (pre & (Ha & Hd & Hp) & Hlog & [(e & w' & Hrun & _ & _ & Ht & Hk)
                                       | (_ & project & w0 & Hrun & Hf0 & Ht0 & Hk0)]).
  - exists (Some e), w', pre, []. split; [exact Hrun |].
    split; [by rewrite app_nil_r |]. split; [done |]. split; [done |]. split; [done |].
    split.
    + intros p it Hit _. by rewrite (board_ext _ _ _ (proj1 Hk)).
    + intros p c Hin. rewrite Ha in Hin. by apply elem_of_nil in Hin.
  - pose proof (wf_ids_kept _ _ Hk0 Hwf) as Hwf0. destruct Hk0 as [Hb0 Hm0].
    set (pid := Info_ID project).
    destruct (UpdateBoard_project_spec fuel config items project w0)
      as (w' & evsA & evsR & existing & listed & Hrun' & _ & Ht' & (HdA & _ & HreqA & _)
          & (HaR & _ & Hnosync & HreqR & Hlisted & _) & Hfinal & _).
    { rewrite (board_ext _ _ _ Hb0). apply Hboards. }
    fold pid in HreqA, HreqR, Hlisted, Hfinal.
    pose proof (NoDup_afterAdds _ pid evsA Hwf0) as Hnd.
    exists None, w', (pre ++ evsA), (evsR ++ [summary project]).
    split; [by rewrite Hrun |].
    split; [rewrite Ht', Ht0; by rewrite <- !app_assoc |].
    split; [by rewrite deletesOf_app, Hd, HdA |].
    split; [by rewrite addsOf_app, HaR |].
    split; [intros Hs; by rewrite deletesOf_app, (Hnosync Hs) |].
    split.
    + intros p it Hit Hcur. rewrite Hfinal. case_decide as Hpp.
      * subst p. eapply survives_prune; eauto.
        unfold afterAdds. rewrite <- (board_ext _ _ pid Hb0) in Hit.
        apply elem_of_app. by left.
      * by rewrite (board_ext _ _ _ Hb0).
    + intros p c Hin. rewrite addsOf_app, Ha in Hin. cbn [app] in Hin.
      assert (Hpc : (p, c) ∈ map fst (addsOf evsA)).
      { apply list_elem_of_fmap. by exists (p, c, None). }
      rewrite HreqA in Hpc. apply list_elem_of_fmap in Hpc as (c' & [= -> <-] & Hc).
      apply elem_of_toAdd in Hc as (_ & item & Hitem & Hel & Hid).
      assert (Hcur : c ∈ currentIDsOf items).
      { apply elem_of_currentIDsOf. split; [| by exists item].
        rewrite <- Hid. by apply eligible_nonempty. }
      split; [exact Hcur |].
      destruct (elem_of_fresh (minted (server w0)) _ _ (elem_of_succeeded _ _ _ Hin))
        as (it & Hit & Hcid).
      destruct (fresh_ids _ _ _ Hit) as ((k & Hk & Hidk) & _).
      exists it, k. rewrite Hfinal, decide_True by done.
      split; [| split; [done | split; [done | lia]]].
      eapply survives_prune; eauto.
      * unfold afterAdds. apply elem_of_app. by right.
      * right. by rewrite (listedID_fresh _ _ _ Hit), Hcid.
Qed.

(** ** C2: membership after a run *)

Lemma elem_of_sendableIDs c items :
  c ∈ sendableIDs items <-> ∃ item, item ∈ items /\ eligible item = true /\ Item_NodeID item = c.
Proof.
  unfold sendableIDs. rewrite elem_of_list_to_set, list_elem_of_fmap.
  setoid_rewrite list_elem_of_filter. naive_solver.
Qed.

Lemma indexed_is_listed it : indexedID it ≠ "" -> listedID it = indexedID it.
Proof. unfold indexedID, listedID, listedNode. by destruct (sitem_Kind it). Qed.

Lemma elem_of_membership_afterAdds c s pid evsA existing items :
  succeeded (addsOf evsA) = toAdd existing items ->
  (existing = indexOf (board s pid) \/ existing = ∅) ->
  c ∈ membership (afterAdds s pid evsA) <->
  c ∈ membership (board s pid) \/ c ∈ sendableIDs items.
Proof.
  intros Hok Hex. unfold afterAdds. rewrite Hok.
  rewrite !elem_of_membership, elem_of_sendableIDs. split.
  - intros (Hne & it & Hit & Hc). apply elem_of_app in Hit as [Hit | Hit]; [left; eauto |].
    right. destruct (fresh_ids _ _ _ Hit) as (_ & _ & Hin).
    rewrite (listedID_fresh _ _ _ Hit) in Hc. rewrite Hc in Hin.
    apply elem_of_toAdd in Hin as (_ & item & ? & ? & ?). eauto.
  - intros [(Hne & it & Hit & Hc) | (item & Hitem & Hel & Hc)].
    { split; [done |]. exists it. split; [apply elem_of_app; by left | done]. }
    assert (Hne : c ≠ "") by (rewrite <- Hc; by apply eligible_nonempty).
    split; [done |].
    destruct (decide (c ∈ existing)) as [Hold | Hnew].
    + destruct Hex as [-> | ->]; [| set_solver].
      apply elem_of_indexOf in Hold as (_ & it & Hit & Hid).
      exists it. split; [apply elem_of_app; by left |].
      rewrite indexed_is_listed; [done | by rewrite Hid].
    + assert (Hin : c ∈ toAdd existing items) by (apply elem_of_toAdd; eauto).
      destruct (elem_of_fresh (minted s) _ _ Hin) as (it & Hit & Hcid).
      exists it. split; [apply elem_of_app; by right |].
      by rewrite (listedID_fresh _ _ _ Hit).
Qed.

(** C2, as amended.  When no add and no delete request fails, on boards
    with distinct item identifiers: without [Sync] the membership after the
    run is the membership before it together with the content identifiers
    of the sendable candidates (those with a node identifier that are not
    draft issues); with [Sync], when the listing is read, it is what of the
    membership before is in the candidate set, together with the sendable
    candidates.  When no candidate is a draft issue the sendable
    identifiers are the candidate set: the membership is then E ∪ C
    without [Sync] and exactly C with it. *)
Theorem membership_after_run fuel config items project w :
  length (board (server w) (Info_ID project)) + length items < pageSize * fuel ->
  wf_ids (server w) ->
  (∀ n c, faults w n (AddProjectV2ItemById (Info_ID project) c) = None) ->
  (∀ n i, faults w n (DeleteProjectV2Item (Info_ID project) i) = None) ->
  ∃ w',
    UpdateBoard_project fuel config items project w = Some (None, w') /\
    (Config_Sync config = false ->
     membership (board (server w') (Info_ID project))
       = membership (board (server w) (Info_ID project)) ∪ sendableIDs items) /\
    (Config_Sync config = true ->
     (∀ n c, faults w n (QueryItems (Info_ID project) c) = None) ->
     membership (board (server w') (Info_ID project))
       = (membership (board (server w) (Info_ID project)) ∩ currentIDsOf items)
         ∪ sendableIDs items) /\
    ((∀ item, item ∈ items -> Item_Type item ≠ "DraftIssue") ->
     sendableIDs items = currentIDsOf items).
Proof.
  intros Hfuel Hwf Hadds Hdels. set (pid := Info_ID project) in *.
  destruct (UpdateBoard_project_spec fuel config items project w Hfuel)
    as (w' & evsA & evsR & existing & listed & Hrun & _ & _ & (_ & _ & _ & Hex & _ & HokA)
        & (_ & _ & Hnosync & HreqR & Hlisted & Hlisting & HokR) & Hfinal & _).
  fold pid in Hex, HokA, HreqR, Hlisted, Hlisting, HokR, Hfinal.
  specialize (HokA Hadds). specialize (HokR Hdels).
  pose proof (NoDup_afterAdds _ pid evsA Hwf) as Hnd.
  pose proof (elem_of_membership_afterAdds) as HA.
  exists w'. split; [exact Hrun |].
  rewrite Hfinal, decide_True by done. split; [| split].
  - intros Hs. rewrite (Hnosync Hs).
    rewrite filter_all by (intros it _; apply not_elem_of_nil).
    apply set_eq. intros c. rewrite (HA c _ _ _ _ _ HokA Hex). set_solver.
  - intros Hs Hq. specialize (Hlisting Hs Hq). subst listed.
    apply set_eq. intros c.
    rewrite elem_of_union, elem_of_intersection, elem_of_membership.
    split.
    + intros (Hne & it & Hit & Hc). apply list_elem_of_filter in Hit as [Hkept Hit].
      assert (Hcur : c ∈ currentIDsOf items).
      { destruct (decide (c ∈ currentIDsOf items)) as [| Hn]; [done |]. exfalso.
        apply Hkept. rewrite HokR. apply list_elem_of_fmap.
        exists (toBoardItem (listedNode it)). split; [by rewrite itemID_listed |].
        apply list_elem_of_filter. split; [| apply elem_of_listingOf; eauto].
        apply stale_spec. rewrite contentID_listed, Hc. done. }
      assert (Hmem : c ∈ membership (afterAdds (server w) pid evsA)).
      { apply elem_of_membership. eauto. }
      apply (HA c _ _ _ _ _ HokA Hex) in Hmem as [Hm | Hm]; [left | right]; done.
    + intros Hc.
      assert (Hcur : c ∈ currentIDsOf items).
      { destruct Hc as [[_ Hcur] | Hs']; [done |].
        apply elem_of_sendableIDs in Hs' as (item & Hitem & Hel & Hid).
        apply elem_of_currentIDsOf. split; [| by exists item].
        rewrite <- Hid. by apply eligible_nonempty. }
      assert (Hmem : c ∈ membership (afterAdds (server w) pid evsA)).
      { apply (HA c _ _ _ _ _ HokA Hex). destruct Hc as [[Hm _] | Hs']; [by left | by right]. }
      apply elem_of_membership in Hmem as (Hne & it & Hit & Hcid).
      split; [done |]. exists it. split; [| done].
      eapply survives_prune; eauto. right. by rewrite Hcid.
  - intros Hnodraft. apply set_eq. intros c.
    rewrite elem_of_sendableIDs, elem_of_currentIDsOf. split.
    + intros (item & Hitem & Hel & Hid). split; [| by exists item].
      rewrite <- Hid. by apply eligible_nonempty.
    + intros (Hne & item & Hitem & Hid). exists item. split; [done |]. split; [| done].
      unfold eligible. rewrite !bool_decide_eq_false_2; [done | by apply Hnodraft | by rewrite Hid].
Qed.

(** ** Field values *)

Section FieldProperties.

Variable ToLower : string -> string.

Lemma SetItemFields_app pid iid entries1 entries2 destFields w :
  SetItemFields ToLower pid iid (entries1 ++ entries2) destFields w =
  match SetItemFields ToLower pid iid entries1 destFields w with
  | Some (_, w1) => SetItemFields ToLower pid iid entries2 destFields w1
  | None => None
  end.
Proof.
  revert w. induction entries1 as [| [fieldName desiredValue] entries1 IH]; intros w; [done |].
  cbn [SetItemFields app]. rewrite !bind_run.
  destruct (SetItemFields_entry ToLower pid iid destFields fieldName desiredValue w)
    as [[[] w1] |]; [apply IH | done].
Qed.

Lemma SetItemFields_entry_total pid iid destFields fieldName desiredValue w :
  ∃ w', SetItemFields_entry ToLower pid iid destFields fieldName desiredValue w
        = Some (tt, w').
Proof.
  unfold SetItemFields_entry, SetItemFields_update, UpdateItemField.
  repeat first
    [ run_step
    | match goal with
      | |- context [match ?m !! ?k with _ => _ end] => destruct (m !! k) eqn:?Hlk
      | |- context [let '(_, _) := ResolveOptionID ?l ?f ?v in _] =>
          destruct (ResolveOptionID l f v) as [?optID []] eqn:?Hres
      end ];
    by eexists.
Qed.

Lemma SetItemFields_total pid iid entries destFields w :
  ∃ w', SetItemFields ToLower pid iid entries destFields w = Some (tt, w').
Proof.
  revert w. induction entries as [| [fieldName desiredValue] entries IH]; intros w;
    [by exists w |].
  cbn [SetItemFields]. rewrite bind_run.
  destruct (SetItemFields_entry_total pid iid destFields fieldName desiredValue w)
    as (w1 & ->).
  apply IH.
Qed.

Lemma ResolveOptionID_spec field optionName :
  match ResolveOptionID ToLower field optionName with
  | (id, true) =>
      ∃ before opt after,
        FieldDef_Options field = before ++ opt :: after /\
        id = FieldOption_ID opt /\
        ToLower (FieldOption_Name opt) = ToLower optionName /\
        ∀ o, o ∈ before -> ToLower (FieldOption_Name o) ≠ ToLower optionName
  | (id, false) =>
      id = "" /\
      ∀ o, o ∈ FieldDef_Options field -> ToLower (FieldOption_Name o) ≠ ToLower optionName
  end.
Proof.
  unfold ResolveOptionID. induction (FieldDef_Options field) as [| o opts IH]; cbn [List.find].
  { split; [done |]. intros o Ho. by apply elem_of_nil in Ho. }
  case_bool_decide as Ho.
  - exists [], o, opts. repeat split; try done. intros o' Ho'. by apply elem_of_nil in Ho'.
  - destruct (List.find _ opts) as [opt |].
    + destruct IH as (before & opt' & after & -> & Hid & Hname & Hbefore).
      exists (o :: before), opt', after. repeat split; try done.
      intros o' Ho'. apply elem_of_cons in Ho' as [-> | Ho']; [done | by apply Hbefore].
    + destruct IH as [_ Hnone]. split; [done |].
      intros o' Ho'. apply elem_of_cons in Ho' as [-> | Ho']; [done | by apply Hnone].
Qed.

Lemma ResolveOptionID_none field optionName :
  (∀ o, o ∈ FieldDef_Options field -> ToLower (FieldOption_Name o) ≠ ToLower optionName) ->
  ResolveOptionID ToLower field optionName = ("", false).
Proof.
  intros Hnone. pose proof (ResolveOptionID_spec field optionName) as Hspec.
  destruct (ResolveOptionID ToLower field optionName) as [id []].
  - destruct Hspec as (before & opt & after & Hopts & _ & Hname & _).
    exfalso. apply (Hnone opt); [| done]. rewrite Hopts. apply elem_of_app. right. by left.
  - by destruct Hspec as [-> _].
Qed.

(** A matched value is sent as the identifier of the option. *)
Lemma SetItemFields_entry_matched pid iid destFields fieldName destField v id w :
  destFields !! fieldName = Some destField ->
  FieldDef_Type destField = "SINGLE_SELECT" ->
  v ≠ "" -> ResolveOptionID ToLower destField v = (id, true) -> id ≠ "" ->
  ∃ err w',
    SetItemFields_entry ToLower pid iid destFields fieldName v w = Some (tt, w') /\
    trace w' = trace w
      ++ EvDo (UpdateProjectV2ItemFieldValue pid iid (FieldDef_ID destField)
                 (VSingleSelectOptionId id)) err
      :: match err with
         | Some e => [EvLog "    Error setting %s=%s: %v" [AStr fieldName; AStr v; AErr e]]
         | None => []
         end.
Proof.
  intros Hfield Htype Hv Hres Hid. unfold SetItemFields_entry.
  rewrite bool_decide_eq_false_2 by done. rewrite Hfield.
  rewrite bool_decide_eq_true_2 by done. rewrite Hres. cbn [negb].
  unfold SetItemFields_update, UpdateItemField. cbn [SingleSelectOptionID].
  rewrite bool_decide_eq_false_2 by done. cbn [negb]. mstep. unfold Do.
  destruct (faults w (clock w) _) as [msg |]; cbn [serve]; mstep.
  - eexists (Some msg), _. split; [reflexivity |]. cbn. by rewrite <- app_assoc.
  - eexists None, _. split; [reflexivity |]. done.
Qed.

(** C4. Field-mapping safety for single-select fields.  For a field the
    destination has as SINGLE_SELECT, [ResolveOptionID] returns the
    identifier of the first option whose lowered name equals the lowered
    value, and [("", false)] when no option matches; a matched value is sent
    as that option identifier.  For an entry with a value that matches no
    option: the run over the whole sequence of entries is the run over the
    entries before it, one log line, and the run over the entries after it;
    no request is sent for the entry and the server state is not touched
    by it.  [SetItemFields] returns for every sequence of entries. *)
Theorem SetItemFields_skips_unmatched pid iid before fieldName desiredValue after
    destFields destField w :
  destFields !! fieldName = Some destField ->
  FieldDef_Type destField = "SINGLE_SELECT" ->
  desiredValue ≠ "" ->
  (∀ o, o ∈ FieldDef_Options destField ->
        ToLower (FieldOption_Name o) ≠ ToLower desiredValue) ->
  (∀ v, match ResolveOptionID ToLower destField v with
        | (id, true) =>
            ∃ opts1 opt opts2,
              FieldDef_Options destField = opts1 ++ opt :: opts2 /\
              id = FieldOption_ID opt /\
              ToLower (FieldOption_Name opt) = ToLower v /\
              ∀ o, o ∈ opts1 -> ToLower (FieldOption_Name o) ≠ ToLower v
        | (id, false) =>
            id = "" /\
            ∀ o, o ∈ FieldDef_Options destField -> ToLower (FieldOption_Name o) ≠ ToLower v
        end) /\
  (∀ v id w0, v ≠ "" -> ResolveOptionID ToLower destField v = (id, true) -> id ≠ "" ->
     ∃ err w2,
       SetItemFields_entry ToLower pid iid destFields fieldName v w0 = Some (tt, w2) /\
       trace w2 = trace w0
         ++ EvDo (UpdateProjectV2ItemFieldValue pid iid (FieldDef_ID destField)
                    (VSingleSelectOptionId id)) err
         :: match err with
            | Some e => [EvLog "    Error setting %s=%s: %v" [AStr fieldName; AStr v; AErr e]]
            | None => []
            end) /\
  ResolveOptionID ToLower destField desiredValue = ("", false) /\
  ∃ w1 w',
    SetItemFields ToLower pid iid before destFields w = Some (tt, w1) /\
    SetItemFields ToLower pid iid (before ++ (fieldName, desiredValue) :: after) destFields w
      = SetItemFields ToLower pid iid after destFields
          (emit (EvLog "    Option %q not found for field %q, skipping"
                       [AStr desiredValue; AStr fieldName]) w1) /\
    SetItemFields ToLower pid iid (before ++ (fieldName, desiredValue) :: after) destFields w
      = Some (tt, w') /\
    server (emit (EvLog "    Option %q not found for field %q, skipping"
                        [AStr desiredValue; AStr fieldName]) w1) = server w1.
Proof.
  intros Hfield Htype Hvalue Hnone.
  split; [intros v; apply ResolveOptionID_spec |].
  split; [intros v id w0 Hv Hres Hid; by eapply SetItemFields_entry_matched |].
  pose proof (ResolveOptionID_none _ _ Hnone) as Hres. split; [exact Hres |].
  destruct (SetItemFields_total pid iid before destFields w) as (w1 & Hbefore).
  assert (Hskip :
    SetItemFields ToLower pid iid (before ++ (fieldName, desiredValue) :: after) destFields w
      = SetItemFields ToLower pid iid after destFields
          (emit (EvLog "    Option %q not found for field %q, skipping"
                       [AStr desiredValue; AStr fieldName]) w1)).
  { rewrite SetItemFields_app, Hbefore. cbn [SetItemFields]. rewrite bind_run.
    unfold SetItemFields_entry.
    rewrite bool_decide_eq_false_2 by done. rewrite Hfield.
    rewrite bool_decide_eq_true_2 by done. rewrite Hres. cbn [negb]. by mstep. }
  destruct (SetItemFields_total pid iid after destFields
              (emit (EvLog "    Option %q not found for field %q, skipping"
                           [AStr desiredValue; AStr fieldName]) w1)) as (w' & Hafter).
  exists w1, w'. split; [exact Hbefore |]. split; [exact Hskip |].
  split; [by rewrite Hskip | done].
Qed.

(** ** Custom fields *)




End FieldProperties.

(** * Examples *)

(** Decidable facts about concrete values, by evaluation. *)
Ltac by_decide :=
  match goal with
  | |- ¬ ?P => apply (bool_decide_eq_false_1 P); vm_compute; reflexivity
  | |- ?P => apply (bool_decide_eq_true_1 P); vm_compute; reflexivity
  end.

(** C1 as stated fails: the add of C fails in the first run and succeeds in
    the second, which so returns [added = 1] and changes the board. *)
Lemma addItems_twice_counterexample :
  ∃ r1 w1 w2,
    addItems 1 "PVT_x" [itemB; itemC] (exampleWorld failsSecond) = Some (r1, w1) /\
    addItems 1 "PVT_x" [itemB; itemC] w1 = Some ((1%Z, 1%Z, None), w2) /\
    board (server w2) "PVT_x" ≠ board (server w1) "PVT_x".
Proof.
  eexists _, _, _. split; [reflexivity |]. split; [reflexivity |].
  vm_compute. discriminate.
Qed.

(** C3 as stated fails: a list that names C twice makes [addItems] send
    two add requests for C, and the board ends with two items for C. *)
Lemma addItems_duplicates_counterexample :
  ∃ w',
    addItems 1 "PVT_x" [itemC; itemC] (exampleWorld reliable) = Some ((2%Z, 0%Z, None), w') /\
    ¬ NoDup (indexedIDs (board (server w') "PVT_x")) /\
    ¬ NoDup (map fst (addsOf (trace w'))).
Proof.
  eexists. split; [reflexivity |].
  split; by_decide.
Qed.

(** C2 as stated fails: a draft candidate D is in the candidate set but is
    never sent, so that without pruning the membership after the run is not
    E ∪ C. *)
Lemma membership_draft_counterexample :
  ∃ w',
    UpdateBoard_project 1 (exampleConfig false) [draftD] exampleProject (exampleWorld reliable)
      = Some (None, w') /\
    "D" ∈ membership (board exampleServer "PVT_x") ∪ currentIDsOf [draftD] /\
    "D" ∉ membership (board (server w') "PVT_x").
Proof.
  eexists. split; [reflexivity |]. split.
  - by_decide.
  - by_decide.
Qed.

Lemma exampleServer_boards pid : length (board exampleServer pid) <= 2.
Proof.
  unfold board, exampleServer. cbn [boards].
  destruct (decide (pid = "PVT_x")) as [-> | Hne].
  - rewrite lookup_singleton_eq. cbn. lia.
  - rewrite lookup_singleton_ne by done. cbn. lia.
Qed.

Lemma exampleServer_wf : wf_ids exampleServer.
Proof.
  intros pid. unfold board, exampleServer. cbn [boards minted].
  destruct (decide (pid = "PVT_x")) as [-> | Hne].
  - rewrite lookup_singleton_eq. cbn [default]. split.
    + by_decide.
    + intros it n Hit _. unfold mintItemID, mintID.
      apply elem_of_cons in Hit as [-> | Hit]; [cbn; by intros [=] |].
      apply elem_of_cons in Hit as [-> | Hit]; [cbn; by intros [=] |].
      by apply elem_of_nil in Hit.
  - rewrite lookup_singleton_ne by done. cbn [default]. split; [constructor |].
    intros it n Hit. by apply elem_of_nil in Hit.
Qed.

Lemma exampleServer_fuel : length (projects exampleServer) < pageSize * 1.
Proof. vm_compute. lia. Qed.

Lemma exampleServer_budget (items : list Item) pid :
  length items <= 2 -> length (board exampleServer pid) + length items < pageSize * 1.
Proof.
  intros H. pose proof (exampleServer_boards pid).
  assert (pageSize * 1 = 100) as -> by (vm_compute; reflexivity). lia.
Qed.


Lemma addItems_no_duplicates_witness :
  length (board (server (exampleWorld reliable)) "PVT_x") < pageSize * 1 /\
  NoDup (map Item_NodeID (filter (λ item, eligible item = true) [itemB; itemC])) /\
  ∃ r w', addItems 1 "PVT_x" [itemB; itemC] (exampleWorld reliable) = Some (r, w') /\
          NoDup (indexedIDs (board (server w') "PVT_x")).
Proof.
  assert (H1 : length (board (server (exampleWorld reliable)) "PVT_x") < pageSize * 1)
    by (vm_compute; lia).
  assert (H2 : NoDup (map Item_NodeID (filter (λ item, eligible item = true) [itemB; itemC])))
    by by_decide.
  split; [exact H1 |]. split; [exact H2 |].
  destruct (addItems_no_duplicates 1 "PVT_x" [itemB; itemC] (exampleWorld reliable) H1 H2)
    as (r & w' & evs & Hrun & _ & _ & Hnd).
  exists r, w'. split; [exact Hrun |]. apply Hnd.
  - intros n c. reflexivity.
  - by_decide.
Defined.

Lemma addItems_idempotent_witness :
  length (board (server (exampleWorld reliable)) "PVT_x") + length [itemB; itemC] < pageSize * 1 /\
  ∃ r1 w1 w2,
    addItems 1 "PVT_x" [itemB; itemC] (exampleWorld reliable) = Some (r1, w1) /\
    addItems 1 "PVT_x" [itemB; itemC] w1 = Some ((0%Z, 2%Z, None), w2) /\
    server w2 = server w1.
Proof.
  assert (H : length (board (server (exampleWorld reliable)) "PVT_x") + length [itemB; itemC]
              < pageSize * 1) by (vm_compute; lia).
  split; [exact H |].
  destruct (addItems_idempotent 1 "PVT_x" [itemB; itemC] (exampleWorld reliable) H
              (λ _ _, eq_refl) (λ _ _, eq_refl))
    as (r1 & w1 & w2 & evs2 & Hrun1 & Hrun2 & _ & _ & Hsrv & _).
  exists r1, w1, w2. split; [exact Hrun1 |]. split; [exact Hrun2 | exact Hsrv].
Defined.


Lemma UpdateBoard_fatal_iff_resolution_witness :
  length (projects (server (exampleWorld reliable))) < pageSize * 1 /\
  (∀ pid, length (board (server (exampleWorld reliable)) pid) + length [itemB; itemC]
          < pageSize * 1) /\
  ∃ err w' evs,
    UpdateBoard 1 (exampleConfig true) [itemB; itemC] (exampleWorld reliable) = Some (err, w') /\
    trace w' = trace (exampleWorld reliable) ++ evs /\
    (err ≠ None <-> resolution_fails 1 (exampleConfig true) (exampleWorld reliable)).
Proof.
  assert (H1 : length (projects (server (exampleWorld reliable))) < pageSize * 1)
    by exact exampleServer_fuel.
  assert (H2 : ∀ pid, length (board (server (exampleWorld reliable)) pid)
                      + length [itemB; itemC] < pageSize * 1)
    by (intros pid; apply exampleServer_budget; cbn; lia).
  split; [exact H1 |]. split; [exact H2 |].
  destruct (UpdateBoard_fatal_iff_resolution 1 (exampleConfig true) [itemB; itemC]
              (exampleWorld reliable) H1 H2)
    as (err & w' & evs & Hrun & Ht & _ & Hiff & _).
  exists err, w', evs. split; [exact Hrun |]. split; [exact Ht | exact Hiff].
Defined.

Lemma FindProject_never_fails_witness :
  length (projects (server (exampleWorld reliable))) < pageSize * 1 /\
  (∀ pid, length (board (server (exampleWorld reliable)) pid) + length [itemB; itemC]
          < pageSize * 1) /\
  ∃ proj w',
    FindProject 1 "ben" "My Board" (exampleWorld reliable) = Some ((proj, None), w').
Proof.
  assert (H1 : length (projects (server (exampleWorld reliable))) < pageSize * 1)
    by exact exampleServer_fuel.
  assert (H2 : ∀ pid, length (board (server (exampleWorld reliable)) pid)
                      + length [itemB; itemC] < pageSize * 1)
    by (intros pid; apply exampleServer_budget; cbn; lia).
  split; [exact H1 |]. split; [exact H2 |].
  destruct (FindProject_never_fails 1 (exampleConfig true) [itemB; itemC]
              (exampleWorld reliable) H1 H2)
    as ((proj & w' & Hrun & _) & _).
  exists proj, w'. exact Hrun.
Defined.

Lemma adds_before_prune_witness :
  length (projects (server (exampleWorld reliable))) < pageSize * 1 /\
  (∀ pid, length (board (server (exampleWorld reliable)) pid) + length [itemB; itemC]
          < pageSize * 1) /\
  wf_ids (server (exampleWorld reliable)) /\
  ∃ err w' evs1 evs2,
    UpdateBoard 1 (exampleConfig true) [itemB; itemC] (exampleWorld reliable) = Some (err, w') /\
    trace w' = trace (exampleWorld reliable) ++ evs1 ++ evs2 /\
    deletesOf evs1 = [] /\ addsOf evs2 = [].
Proof.
  assert (H1 : length (projects (server (exampleWorld reliable))) < pageSize * 1)
    by exact exampleServer_fuel.
  assert (H2 : ∀ pid, length (board (server (exampleWorld reliable)) pid)
                      + length [itemB; itemC] < pageSize * 1)
    by (intros pid; apply exampleServer_budget; cbn; lia).
  assert (H3 : wf_ids (server (exampleWorld reliable))) by exact exampleServer_wf.
  split; [exact H1 |]. split; [exact H2 |]. split; [exact H3 |].
  destruct (adds_before_prune 1 (exampleConfig true) [itemB; itemC]
              (exampleWorld reliable) H1 H2 H3)
    as (err & w' & evs1 & evs2 & Hrun & Ht & Hd & Ha & _).
  exists err, w', evs1, evs2. split; [exact Hrun |]. split; [exact Ht |].
  split; [exact Hd | exact Ha].
Defined.

(** The second scenario of the specification: with [Sync] and the single
    candidate C, the membership after the run is exactly C. *)
Lemma membership_after_run_witness :
  length (board (server (exampleWorld reliable)) (Info_ID exampleProject)) + length [itemC]
    < pageSize * 1 /\
  wf_ids (server (exampleWorld reliable)) /\
  ∃ w',
    UpdateBoard_project 1 (exampleConfig true) [itemC] exampleProject (exampleWorld reliable)
      = Some (None, w') /\
    membership (board (server w') (Info_ID exampleProject))
      = (membership (board exampleServer (Info_ID exampleProject)) ∩ currentIDsOf [itemC])
        ∪ sendableIDs [itemC].
Proof.
  assert (H1 : length (board (server (exampleWorld reliable)) (Info_ID exampleProject))
               + length [itemC] < pageSize * 1) by (vm_compute; lia).
  assert (H2 : wf_ids (server (exampleWorld reliable))) by exact exampleServer_wf.
  split; [exact H1 |]. split; [exact H2 |].
  destruct (membership_after_run 1 (exampleConfig true) [itemC] exampleProject
              (exampleWorld reliable) H1 H2 (λ _ _, eq_refl) (λ _ _, eq_refl))
    as (w' & Hrun & _ & Hsync & _).
  exists w'. split; [exact Hrun |]. apply Hsync; [reflexivity |]. intros n c. reflexivity.
Defined.

Lemma SetItemFields_skips_unmatched_witness :
  exampleFields !! "Status"
    = Some (mkFieldDef "PVTF_1" "Status" "SINGLE_SELECT"
                       [mkFieldOption "O1" "Tracked"; mkFieldOption "O2" "Done"]) /\
  ResolveOptionID asciiToLower
    (mkFieldDef "PVTF_1" "Status" "SINGLE_SELECT"
                [mkFieldOption "O1" "Tracked"; mkFieldOption "O2" "Done"]) "Blocked"
    = ("", false) /\
  ∃ w',
    SetItemFields asciiToLower "PVT_x" "I1" [("Status", "Blocked"); ("Status", "tracked")]
                  exampleFields (exampleWorld reliable) = Some (tt, w').
Proof.
  assert (H1 : exampleFields !! "Status"
               = Some (mkFieldDef "PVTF_1" "Status" "SINGLE_SELECT"
                                  [mkFieldOption "O1" "Tracked"; mkFieldOption "O2" "Done"]))
    by (vm_compute; reflexivity).
  assert (H4 : ∀ o, o ∈ [mkFieldOption "O1" "Tracked"; mkFieldOption "O2" "Done"] ->
                    asciiToLower (FieldOption_Name o) ≠ asciiToLower "Blocked").
  { intros o Ho.
    apply elem_of_cons in Ho as [-> | Ho]; [vm_compute; by intros [=] |].
    apply elem_of_cons in Ho as [-> | Ho]; [vm_compute; by intros [=] |].
    by apply elem_of_nil in Ho. }
  split; [exact H1 |].
  destruct (SetItemFields_skips_unmatched asciiToLower "PVT_x" "I1" [] "Status" "Blocked"
              [("Status", "tracked")] exampleFields _ (exampleWorld reliable)
              H1 eq_refl ltac:(by intros [=]) H4)
    as (_ & _ & Hres & w1 & w' & _ & _ & Hrun & _).
  split; [exact Hres |]. exists w'. exact Hrun.
Defined.

(** * Properties of the rest of the packages *)

Lemma requestsOf_app evs1 evs2 :
  requestsOf (evs1 ++ evs2) = requestsOf evs1 ++ requestsOf evs2.
Proof. apply omap_app. Qed.




Lemma len_nonneg {A} (xs : list A) : (0 <= len xs)%Z.
Proof. unfold len. lia. Qed.

(** ** Linking repositories *)



Lemma Contains_slash_cons c rest :
  Contains (String c rest) "/" = (Ascii.eqb c "/" || Contains rest "/")%bool.
Proof.
  cbn [Contains String.prefix].
  destruct (ascii_dec "/" c) as [<- | Hne].
  - by destruct rest.
  - destruct (Ascii.eqb_spec c "/") as [-> | _]; [done |]. reflexivity.
Qed.

Lemma SplitN2_no_slash s : Contains s "/" = false -> SplitN2 s = [s].
Proof.
  induction s as [| c rest IH]; [done |].
  rewrite Contains_slash_cons. intros [Hc Hrest]%orb_false_elim.
  cbn [SplitN2]. rewrite Hc, (IH Hrest). reflexivity.
Qed.


(** X2. An entry without a slash is not looked up: when no entry of the
    list has one, [LinkProjectToRepositories] sends no request at all,
    counts every entry as skipped and logs one line per entry. *)
Theorem LinkProjectToRepositories_invalid_format pid repos w :
  Forall (λ repo, Contains repo "/" = false) repos ->
  LinkProjectToRepositories pid repos w
  = Some ((0%Z, len repos, None),
          mkWorld (server w) (clock w) (faults w) (trace w ++ map invalidRepo repos)).
Proof.
  intros Hall. unfold LinkProjectToRepositories. rewrite bind_run.
  assert (∀ linked skipped w0,
            LinkProjectToRepositories_range pid repos linked skipped w0
            = Some ((linked, (skipped + len repos)%Z),
                    mkWorld (server w0) (clock w0) (faults w0)
                            (trace w0 ++ map invalidRepo repos))) as ->.
  { induction Hall as [| repo repos Hrepo Hall IH]; intros linked skipped w0.
    - cbn. unfold len. cbn. rewrite Z.add_0_r, app_nil_r. by destruct w0.
    - cbn [LinkProjectToRepositories_range]. rewrite (SplitN2_no_slash _ Hrepo).
      rewrite bind_run, log_run, IH, len_cons. cbn [emit server clock faults trace map].
      rewrite <- app_assoc.
      by replace (skipped + 1 + len repos)%Z with (skipped + (1 + len repos))%Z by lia. }
  reflexivity.
Qed.

(** ** Finding the project *)

Lemma Info_eta p : mkInfo (Info_ID p) (Info_Number p) (Info_Title p) (Info_URL p) = p.
Proof. by destruct p. Qed.

Lemma find_hasTitle title l p :
  List.find (hasTitle title) l = Some p -> p ∈ l /\ Info_Title p = title.
Proof.
  intros [Hin Ht]%find_some. split; [by apply list_elem_of_In |].
  unfold hasTitle in Ht. by apply bool_decide_eq_true in Ht.
Qed.

Lemma find_app_first {A} (f : A -> bool) l1 l2 :
  List.find f (l1 ++ l2)
  = match List.find f l1 with Some x => Some x | None => List.find f l2 end.
Proof. induction l1 as [| x l1 IH]; [done |]. cbn. by destruct (f x). Qed.

Lemma findUserProject_sound fuel owner title cursor w proj err w' :
  findUserProject fuel owner title cursor w = Some ((proj, err), w') ->
  server w' = server w /\ faults w' = faults w /\
  ∀ p, proj = Some p ->
       err = None /\ Info_Title p = title /\ p ∈ ownedProjects false owner (server w).
Proof.
  revert cursor w. induction fuel as [| fuel IH]; intros cursor w; [done |].
  cbn [findUserProject]. rewrite bind_run. unfold Do.
  destruct (faults w (clock w) (QueryUserProjects owner cursor)) as [msg |].
  { rewrite ret_run. intros [= <- <- <-]. by repeat split. }
  cbn [serve]. unfold ownedProjects.
  destruct (findAccount owner false (server w)) as [a |] eqn:Hacct.
  2:{ rewrite ret_run. intros [= <- <- <-]. by repeat split. }
  cbn [paginate fst snd HasNextPage EndCursor].
  destruct (List.find (hasTitle title) _) as [p |] eqn:Hfind.
  { rewrite ret_run. intros [= <- <- <-]. split; [done |]. split; [done |].
    intros p0 [= <-]. rewrite Info_eta.
    apply find_hasTitle in Hfind as [Hin Ht]. split; [done |]. split; [done |].
    by apply subseteq_take, subseteq_drop in Hin. }
  case_bool_decide as Hnext; cbn [negb].
  - intros Hrun. apply IH in Hrun as (Hs & Hf & Hp). cbn in Hs, Hf, Hp.
    split; [done |]. split; [done |]. intros p ->.
    specialize (Hp p eq_refl). unfold ownedProjects in Hp. by rewrite Hacct in Hp.
  - rewrite ret_run. intros [= <- <- <-]. by repeat split.
Qed.

Lemma findOrgProject_sound fuel owner title cursor w proj err w' :
  findOrgProject fuel owner title cursor w = Some ((proj, err), w') ->
  server w' = server w /\ faults w' = faults w /\
  ∀ p, proj = Some p ->
       err = None /\ Info_Title p = title /\ p ∈ ownedProjects true owner (server w).
Proof.
  revert cursor w. induction fuel as [| fuel IH]; intros cursor w; [done |].
  cbn [findOrgProject]. rewrite bind_run. unfold Do.
  destruct (faults w (clock w) (QueryOrgProjects owner cursor)) as [msg |].
  { rewrite ret_run. intros [= <- <- <-]. by repeat split. }
  cbn [serve]. unfold ownedProjects.
  destruct (findAccount owner true (server w)) as [a |] eqn:Hacct.
  2:{ rewrite ret_run. intros [= <- <- <-]. by repeat split. }
  cbn [paginate fst snd HasNextPage EndCursor].
  destruct (List.find (hasTitle title) _) as [p |] eqn:Hfind.
  { rewrite ret_run. intros [= <- <- <-]. split; [done |]. split; [done |].
    intros p0 [= <-]. rewrite Info_eta.
    apply find_hasTitle in Hfind as [Hin Ht]. split; [done |]. split; [done |].
    by apply subseteq_take, subseteq_drop in Hin. }
  case_bool_decide as Hnext; cbn [negb].
  - intros Hrun. apply IH in Hrun as (Hs & Hf & Hp). cbn in Hs, Hf, Hp.
    split; [done |]. split; [done |]. intros p ->.
    specialize (Hp p eq_refl). unfold ownedProjects in Hp. by rewrite Hacct in Hp.
  - rewrite ret_run. intros [= <- <- <-]. by repeat split.
Qed.

(** X3. Whatever the transport does, a project returned by [FindProject]
    carries exactly the title asked for and is one of the projects of the
    user or of the organization with the login given; the error is nil and
    the server is as it was. *)
Theorem FindProject_sound fuel owner title w p err w' :
  FindProject fuel owner title w = Some ((Some p, err), w') ->
  err = None /\ Info_Title p = title /\ server w' = server w /\
  (p ∈ ownedProjects false owner (server w) \/ p ∈ ownedProjects true owner (server w)).
Proof.
  unfold FindProject. rewrite bind_run.
  destruct (findUserProject fuel owner title None w) as [[[proj1 err1] w1] |] eqn:Hrun1;
    [| done].
  apply findUserProject_sound in Hrun1 as (Hs1 & Hf1 & Hp1).
  destruct err1 as [e1 |], proj1 as [p1 |].
  3:{ rewrite ret_run. intros [= <- <- <-].
      destruct (Hp1 p1 eq_refl) as (_ & Ht & Hin). by repeat split; [..| left]. }
  all: rewrite bind_run.
  all: destruct (findOrgProject fuel owner title None w1) as [[[proj2 err2] w2] |] eqn:Hrun2;
    [| done].
  all: apply findOrgProject_sound in Hrun2 as (Hs2 & Hf2 & Hp2).
  all: destruct err2 as [e2 |], proj2 as [p2 |]; rewrite ret_run; intros [= <- <- <-].
  all: destruct (Hp2 p2 eq_refl) as (_ & Ht & Hin); rewrite Hs1 in Hin.
  all: split; [done |]; split; [done |]; split; [congruence | by right].
Qed.

Lemma find_paged {A} (f : A -> bool) (xs : list A) (off : nat) :
  List.find f (drop off xs)
  = match List.find f (take pageSize (drop off xs)) with
    | Some x => Some x
    | None => List.find f (drop (off + pageSize) xs)
    end.
Proof. by rewrite <- (paginate_next xs off) at 1; rewrite find_app_first. Qed.

Lemma findUserProject_complete fuel owner title cursor w :
  (∀ n c, faults w n (QueryUserProjects owner c) = None) ->
  default 0 cursor <= length (ownedProjects false owner (server w)) ->
  length (ownedProjects false owner (server w)) < default 0 cursor + pageSize * fuel ->
  ∃ err w',
    findUserProject fuel owner title cursor w
    = Some ((List.find (hasTitle title)
                       (drop (default 0 cursor) (ownedProjects false owner (server w))),
             err), w') /\
    server w' = server w /\ faults w' = faults w.
Proof.
  revert cursor w. induction fuel as [| fuel IH]; intros cursor w Hfaults Hle Hlt.
  { lia. }
  cbn [findUserProject]. rewrite bind_run. unfold Do. rewrite Hfaults.
  cbn [serve]. unfold ownedProjects in *.
  destruct (findAccount owner false (server w)) as [a |] eqn:Hacct.
  2:{ rewrite ret_run, drop_nil. by eexists _, _. }
  cbn [paginate fst snd HasNextPage EndCursor].
  rewrite (find_paged (hasTitle title)).
  destruct (List.find (hasTitle title) (take _ _)) as [p |] eqn:Hfind.
  { rewrite ret_run, Info_eta. by eexists _, _. }
  case_bool_decide as Hnext; cbn [negb].
  - destruct (IH (Some (default 0 cursor + pageSize))
                 (sent (QueryUserProjects owner cursor) None (server w) w))
      as (err & w' & Hrun & Hs & Hf).
    { done. }
    { cbn. rewrite Hacct. lia. }
    { cbn. rewrite Hacct. lia. }
    cbn in Hrun. rewrite Hacct in Hrun. by exists err, w'.
  - rewrite ret_run. rewrite drop_ge by lia. by eexists _, _.
Qed.

Lemma findOrgProject_complete fuel owner title cursor w :
  (∀ n c, faults w n (QueryOrgProjects owner c) = None) ->
  default 0 cursor <= length (ownedProjects true owner (server w)) ->
  length (ownedProjects true owner (server w)) < default 0 cursor + pageSize * fuel ->
  ∃ err w',
    findOrgProject fuel owner title cursor w
    = Some ((List.find (hasTitle title)
                       (drop (default 0 cursor) (ownedProjects true owner (server w))),
             err), w') /\
    server w' = server w /\ faults w' = faults w.
Proof.
  revert cursor w. induction fuel as [| fuel IH]; intros cursor w Hfaults Hle Hlt.
  { lia. }
  cbn [findOrgProject]. rewrite bind_run. unfold Do. rewrite Hfaults.
  cbn [serve]. unfold ownedProjects in *.
  destruct (findAccount owner true (server w)) as [a |] eqn:Hacct.
  2:{ rewrite ret_run, drop_nil. by eexists _, _. }
  cbn [paginate fst snd HasNextPage EndCursor].
  rewrite (find_paged (hasTitle title)).
  destruct (List.find (hasTitle title) (take _ _)) as [p |] eqn:Hfind.
  { rewrite ret_run, Info_eta. by eexists _, _. }
  case_bool_decide as Hnext; cbn [negb].
  - destruct (IH (Some (default 0 cursor + pageSize))
                 (sent (QueryOrgProjects owner cursor) None (server w) w))
      as (err & w' & Hrun & Hs & Hf).
    { done. }
    { cbn. rewrite Hacct. lia. }
    { cbn. rewrite Hacct. lia. }
    cbn in Hrun. rewrite Hacct in Hrun. by exists err, w'.
  - rewrite ret_run. rewrite drop_ge by lia. by eexists _, _.
Qed.

(** [FindProject] when neither project query fails: the first match of the
    user, and else of the organization. *)
Lemma FindProject_complete fuel owner title w :
  length (projects (server w)) < pageSize * fuel ->
  (∀ n c, faults w n (QueryUserProjects owner c) = None) ->
  (∀ n c, faults w n (QueryOrgProjects owner c) = None) ->
  ∃ w',
    FindProject fuel owner title w
    = Some ((match List.find (hasTitle title) (ownedProjects false owner (server w)) with
             | Some p => Some p
             | None => List.find (hasTitle title) (ownedProjects true owner (server w))
             end, None), w') /\
    server w' = server w.
Proof.
  intros Hfuel Hu Ho. unfold FindProject. rewrite bind_run.
  pose proof (length_ownedProjects false owner (server w)) as Hlen1.
  pose proof (length_ownedProjects true owner (server w)) as Hlen2.
  destruct (findUserProject_complete fuel owner title None w Hu ltac:(cbn; lia)
              ltac:(cbn; lia)) as (err1 & w1 & Hrun1 & Hs1 & Hf1).
  pose proof (findUserProject_sound _ _ _ _ _ _ _ _ Hrun1) as (_ & _ & Hp1).
  rewrite Hrun1. cbn [default] in *. rewrite drop_0 in *.
  destruct (findOrgProject_complete fuel owner title None w1
              ltac:(by rewrite Hf1) ltac:(rewrite Hs1; cbn; lia)
              ltac:(rewrite Hs1; cbn; lia)) as (err2 & w2 & Hrun2 & Hs2 & Hf2).
  pose proof (findOrgProject_sound _ _ _ _ _ _ _ _ Hrun2) as (_ & _ & Hp2).
  cbn [default] in Hrun2, Hp2. rewrite drop_0, Hs1 in Hrun2, Hp2.
  destruct (List.find (hasTitle title) (ownedProjects false owner (server w))) as [p1 |].
  { destruct (Hp1 p1 eq_refl) as (-> & _). rewrite ret_run. by exists w1. }
  destruct err1 as [e1 |]; rewrite bind_run, Hrun2.
  all: destruct (List.find (hasTitle title) (ownedProjects true owner (server w))) as [p2 |];
    [destruct (Hp2 p2 eq_refl) as (-> & _); rewrite ret_run |];
    exists w2; (split; [by try destruct err2 | congruence]).
Qed.

(** X4. When the transport fails neither project query, [FindProject]
    returns the first project with the title asked for among the projects
    of the user with that login, in the order the API lists them and over
    all pages; only when the user has none (or there is no such user) does
    it return the first one of the organization with that login. *)
Theorem FindProject_first_match fuel owner title w :
  length (projects (server w)) < pageSize * fuel ->
  (∀ n c, faults w n (QueryUserProjects owner c) = None) ->
  (∀ n c, faults w n (QueryOrgProjects owner c) = None) ->
  ∃ w',
    FindProject fuel owner title w
    = Some ((match List.find (hasTitle title) (ownedProjects false owner (server w)) with
             | Some p => Some p
             | None => List.find (hasTitle title) (ownedProjects true owner (server w))
             end, None), w') /\
    server w' = server w.
Proof. apply FindProject_complete. Qed.

(** ** Creating the project *)


Lemma resolveOwnerNodeID_resolved login w id w' :
  resolveOwnerNodeID login w = Some ((id, None), w') ->
  id ≠ "" /\ server w' = server w /\ faults w' = faults w /\
  ∃ isOrg a, findAccount login isOrg (server w) = Some a /\ acct_ID a = id.
Proof.
  unfold resolveOwnerNodeID, Errorf.
  repeat run_step; intros [= <- <-]; try done.
  all: repeat match goal with
         | H : bool_decide _ = true |- _ => apply bool_decide_eq_true in H
         | H : bool_decide _ = false |- _ => apply bool_decide_eq_false in H
         end.
  all: try congruence.
  all: (split; [done |]); (split; [done |]); (split; [done |]).
  all: eexists _, _; split; [eassumption | done].
Qed.



Lemma CreateProject_created owner title w p w1 :
  CreateProject owner title w = Some ((Some p, None), w1) ->
  ∃ isOrg a, findAccount owner isOrg (server w) = Some a /\ Info_Title p = title /\
             accounts (server w1) = accounts (server w) /\
             projects (server w1) = projects (server w) ++ [(acct_ID a, p)].
Proof.
  unfold CreateProject. rewrite bind_run.
  destruct (resolveOwnerNodeID owner w) as [[[id [e |]] w0] |] eqn:Hrun; [done | | done].
  apply resolveOwnerNodeID_resolved in Hrun as (Hid & Hs & _ & isOrg & a & Hacct & Ha).
  rewrite bind_run. unfold Do.
  destruct (faults w0 (clock w0) (CreateProjectV2 id title)) as [msg |]; [done |].
  cbn [serve]. destruct (existsb _ _); [| done].
  rewrite ret_run. intros [= <- <-]. exists isOrg, a. rewrite Hs, Ha. by repeat split.
Qed.

Lemma ownedProjects_created isOrg owner s s1 ownerId p :
  accounts s1 = accounts s ->
  projects s1 = projects s ++ [(ownerId, p)] ->
  ownedProjects isOrg owner s1
  = ownedProjects isOrg owner s
    ++ match findAccount owner isOrg s with
       | Some a => if bool_decide (ownerId = acct_ID a) then [p] else []
       | None => []
       end.
Proof.
  intros Ha Hp. unfold ownedProjects, findAccount, projectsOf. rewrite Ha, Hp.
  destruct (List.find _ (accounts s)) as [a |]; [| done].
  rewrite filter_app, map_app. f_equal.
  rewrite filter_cons, filter_nil. cbn [fst].
  case_decide; case_bool_decide; done.
Qed.

(** X6. A project that [CreateProject] has created is found again: when
    the transport fails neither project query, [FindProject] with the same
    owner and title returns a project with that title, and it returns the
    created project itself when the owner had no project of that title
    before. *)
Theorem CreateProject_then_FindProject fuel owner title w p w1 :
  CreateProject owner title w = Some ((Some p, None), w1) ->
  length (projects (server w1)) < pageSize * fuel ->
  (∀ n c, faults w1 n (QueryUserProjects owner c) = None) ->
  (∀ n c, faults w1 n (QueryOrgProjects owner c) = None) ->
  ∃ p' w2,
    FindProject fuel owner title w1 = Some ((Some p', None), w2) /\
    Info_Title p' = title /\
    (List.find (hasTitle title) (ownedProjects false owner (server w)) = None ->
     List.find (hasTitle title) (ownedProjects true owner (server w)) = None ->
     p' = p).
Proof.
  intros (isOrg & a & Hacct & Ht & Haccts & Hprojs)%CreateProject_created Hfuel Hu Ho.
  destruct (FindProject_complete fuel owner title w1 Hfuel Hu Ho) as (w2 & Hrun & _).
  rewrite Hrun.
  rewrite !(ownedProjects_created _ owner (server w) (server w1) (acct_ID a) p Haccts Hprojs).
  rewrite !find_app_first.
  assert (hasTitle title p = true) as Hp by by apply bool_decide_eq_true.
  destruct isOrg.
  - rewrite Hacct, bool_decide_eq_true_2 by done. cbn [List.find]. rewrite Hp.
    destruct (List.find (hasTitle title) (ownedProjects false owner (server w))) as [pu |] eqn:Hfu.
    { exists pu, w2. split; [done |]. split; [by apply find_hasTitle in Hfu as [_ ?] |]. done. }
    destruct (findAccount owner false (server w)) as [au |]; [case_bool_decide |];
      cbn [List.find]; rewrite ?Hp.
    + exists p, w2. by repeat split.
    + destruct (List.find (hasTitle title) (ownedProjects true owner (server w))) as [po |] eqn:Hfo.
      * exists po, w2. split; [done |]. split; [by apply find_hasTitle in Hfo as [_ ?] | done].
      * exists p, w2. by repeat split.
    + destruct (List.find (hasTitle title) (ownedProjects true owner (server w))) as [po |] eqn:Hfo.
      * exists po, w2. split; [done |]. split; [by apply find_hasTitle in Hfo as [_ ?] | done].
      * exists p, w2. by repeat split.
  - rewrite Hacct, bool_decide_eq_true_2 by done. cbn [List.find]. rewrite Hp.
    destruct (List.find (hasTitle title) (ownedProjects false owner (server w))) as [pu |] eqn:Hfu.
    + exists pu, w2. split; [done |]. split; [by apply find_hasTitle in Hfu as [_ ?] | done].
    + exists p, w2. by repeat split.
Qed.

(** ** Reading a board *)

Lemma getProjectItemContentIDs_from_failure fuel pid cursor ids w r e w' :
  getProjectItemContentIDs_from fuel pid cursor ids w = Some ((r, Some e), w') -> r = ∅.
Proof.
  revert cursor ids w. induction fuel as [| fuel IH]; intros cursor ids w; [done |].
  cbn [getProjectItemContentIDs_from]. rewrite bind_run. unfold Do.
  destruct (faults w (clock w) _) as [msg |]; [by intros [= <- _ _] |].
  cbn [serve map_page paginate fst snd HasNextPage EndCursor].
  case_bool_decide; cbn [negb]; [apply IH | done].
Qed.

Lemma getProjectItems_from_failure fuel pid cursor items w r e w' :
  getProjectItems_from fuel pid cursor items w = Some ((r, Some e), w') -> r = [].
Proof.
  revert cursor items w. induction fuel as [| fuel IH]; intros cursor items w; [done |].
  cbn [getProjectItems_from]. rewrite bind_run. unfold Do.
  destruct (faults w (clock w) _) as [msg |]; [by intros [= <- _ _] |].
  cbn [serve map_page paginate fst snd HasNextPage EndCursor].
  case_bool_decide; cbn [negb]; [apply IH | done].
Qed.

(** X7. The two readers of a board return all of it or nothing.  Within
    the page budget, [getProjectItems] and [getProjectItemContentIDs]
    return; with a nil error the result is the listing, respectively the
    membership index, of the whole board, whatever the number of pages;
    with an error the result is empty, the pages read before the failure
    being dropped.  The error is nil when the transport fails none of the
    reads, and the server is as it was. *)
Theorem board_readers_all_or_nothing fuel pid w :
  length (board (server w) pid) < pageSize * fuel ->
  (∃ items err w',
     getProjectItems fuel pid w = Some ((items, err), w') /\ server w' = server w /\
     (err = None -> items = listingOf (board (server w) pid)) /\
     (err ≠ None -> items = []) /\
     ((∀ n c, faults w n (QueryItems pid c) = None) -> err = None)) /\
  (∃ ids err w',
     getProjectItemContentIDs fuel pid w = Some ((ids, err), w') /\ server w' = server w /\
     (err = None -> ids = indexOf (board (server w) pid)) /\
     (err ≠ None -> ids = ∅) /\
     ((∀ n c, faults w n (QueryItemContentIDs pid c) = None) -> err = None)).
Proof.
  intros Hfuel. split.
  - destruct (getProjectItems_spec fuel pid w Hfuel)
      as (r & err & w' & evs & Hrun & _ & Hs & _ & Hok & Hnone & _).
    exists r, err, w'. split; [exact Hrun |]. split; [exact Hs |]. split; [exact Hok |].
    split; [| exact Hnone].
    destruct err as [e |]; [| done]. intros _.
    by apply getProjectItems_from_failure in Hrun.
  - destruct (getProjectItemContentIDs_spec fuel pid w Hfuel)
      as (r & err & w' & evs & Hrun & _ & Hs & _ & Hok & Hnone & _).
    exists r, err, w'. split; [exact Hrun |]. split; [exact Hs |]. split; [exact Hok |].
    split; [| exact Hnone].
    destruct err as [e |]; [| done]. intros _.
    by apply getProjectItemContentIDs_from_failure in Hrun.
Qed.

(** ** Removing stale items *)

(** X8. When the listing of the board fails, [removeStaleItems] deletes
    nothing: it returns a count of 0 and the error of the listing, wrapped,
    sends no delete mutation and leaves the server as it was.  When the
    listing succeeds the error is nil and the count returned is the number
    of delete mutations that succeeded. *)
Theorem removeStaleItems_listing_failure fuel pid currentItems w :
  length (board (server w) pid) < pageSize * fuel ->
  ∃ removed err w' evs,
    removeStaleItems fuel pid currentItems w = Some ((removed, err), w') /\
    trace w' = trace w ++ evs /\
    (removed = len (succeeded (deletesOf evs)))%Z /\
    match err with
    | Some msg =>
        removed = 0%Z /\ deletesOf evs = [] /\ server w' = server w /\
        ∃ e, getProjectItems fuel pid w = Some (([], Some e), w') /\
             Some msg = Errorf "listing project items: %w" [AErr e]
    | None =>
        ∃ w1, getProjectItems fuel pid w
              = Some ((listingOf (board (server w) pid), None), w1)
    end.
Proof.
  intros Hfuel.
  destruct (removeStaleItems_spec fuel pid currentItems w Hfuel)
    as (removed & err & w' & evs & Hrun & [_ Ht] & Hrem & _).
  exists removed, err, w', evs. split; [exact Hrun |]. split; [exact Ht |].
  split; [exact Hrem |].
  unfold removeStaleItems in Hrun. rewrite bind_run in Hrun.
  destruct (getProjectItems_spec fuel pid w Hfuel)
    as (r & err1 & w1 & evs1 & Hrun1 & [_ Ht1] & Hs1 & Hq1 & Hok & _).
  rewrite Hrun1 in Hrun. destruct err1 as [e |].
  - rewrite ret_run in Hrun. injection Hrun as <- <- <-.
    pose proof (getProjectItems_from_failure _ _ _ _ _ _ _ _ Hrun1) as ->.
    rewrite Ht1 in Ht. apply app_inv_head in Ht as <-.
    split; [done |]. split; [by apply quiet_deletesOf |]. split; [done |]. by exists e.
  - rewrite (Hok eq_refl) in Hrun1.
    rewrite bind_run in Hrun.
    destruct (removeStaleItems_range _ _ _ _ _) as [[removed' w2] |]; [| done].
    rewrite ret_run in Hrun. injection Hrun as <- <- <-. by exists w1.
Qed.

(** ** Adding one item *)


(** ** Setting field values and ensuring fields *)

Section MoreFieldProperties.

Variable ToLower : string -> string.

Lemma valid_update_mono pid iid destFields entries1 entries2 req :
  entries1 ⊆ entries2 ->
  valid_update ToLower pid iid destFields entries1 req ->
  valid_update ToLower pid iid destFields entries2 req.
Proof.
  intros Hsub (fieldName & desiredValue & destField & value & Hin & H).
  exists fieldName, desiredValue, destField, value. split; [by apply Hsub | exact H].
Qed.

Lemma SetItemFields_entry_valid pid iid destFields fieldName desiredValue w :
  ∃ w' evs,
    SetItemFields_entry ToLower pid iid destFields fieldName desiredValue w = Some (tt, w') /\
    trace w' = trace w ++ evs /\
    boards (server w') = boards (server w) /\
    (requestsOf evs = [] \/
     desiredValue ≠ "" /\
     ∃ req, requestsOf evs = [req] /\
            valid_update ToLower pid iid destFields [(fieldName, desiredValue)] req).
Proof.
  unfold SetItemFields_entry, SetItemFields_update, UpdateItemField.
  destruct (bool_decide (desiredValue = "")) eqn:Hdv.
  { exists w, []. rewrite app_nil_r. by repeat split; [..| left]. }
  apply bool_decide_eq_false in Hdv.
  destruct (destFields !! fieldName) as [destField |] eqn:Hlk.
  2:{ eexists _, [_]. rewrite log_run. by repeat split; [..| left]. }
  pose proof (ResolveOptionID_spec ToLower destField desiredValue) as Hres.
  destruct (bool_decide (FieldDef_Type destField = "SINGLE_SELECT")) eqn:Hty.
  - destruct (ResolveOptionID ToLower destField desiredValue) as [optID []]; cbn [negb].
    2:{ eexists _, [_]. rewrite log_run. by repeat split; [..| left]. }
    destruct Hres as (before & opt & after & Hopts & -> & Hname & _).
    cbn [SingleSelectOptionID Text].
    destruct (bool_decide (FieldOption_ID opt = "")) eqn:Hid; cbn [negb].
    { exists w, []. rewrite app_nil_r. by repeat split; [..| left]. }
    apply bool_decide_eq_false in Hid.
    repeat run_step; eexists _, _; (split; [reflexivity |]);
      cbn [trace emit sent server boards]; rewrite <- ?app_assoc;
      (split; [reflexivity |]); (split; [done |]); right; (split; [done |]);
      eexists; (split; [reflexivity |]);
      exists fieldName, desiredValue, destField, (VSingleSelectOptionId (FieldOption_ID opt));
      (split; [by apply list_elem_of_singleton |]); (split; [done |]); (split; [done |]);
      (split; [done |]); rewrite Hty; exists opt;
      (split; [rewrite Hopts, elem_of_app; right; by left | done]).
  - cbn [SingleSelectOptionID Text]. rewrite (bool_decide_eq_true_2 ("" = "")) by done.
    cbn [negb]. rewrite (bool_decide_eq_false_2 (desiredValue = "")) by done. cbn [negb].
    repeat run_step; eexists _, _; (split; [reflexivity |]);
      cbn [trace emit sent server boards]; rewrite <- ?app_assoc;
      (split; [reflexivity |]); (split; [done |]); right; (split; [done |]);
      eexists; (split; [reflexivity |]);
      exists fieldName, desiredValue, destField, (VText desiredValue);
      (split; [by apply list_elem_of_singleton |]); (split; [done |]); (split; [done |]);
      (split; [done |]); by rewrite Hty.
Qed.

(** X10. Whatever the transport does, [SetItemFields] returns, and every
    request it sends sets a field of the destination map, on the item
    given, to a value one of the entries asks for: the text itself for a
    text field, for a single-select field the non-empty identifier of an
    option of that field whose name matches the value when both are
    lowered.  It sends at most one request per entry with a non-empty
    value, and leaves the boards as they were. *)
Theorem SetItemFields_sends_valid pid iid entries destFields w :
  ∃ w' evs,
    SetItemFields ToLower pid iid entries destFields w = Some (tt, w') /\
    trace w' = trace w ++ evs /\
    boards (server w') = boards (server w) /\
    length (requestsOf evs) <= length (filter (λ entry, entry.2 ≠ "") entries) /\
    Forall (valid_update ToLower pid iid destFields entries) (requestsOf evs).
Proof.
  revert w. induction entries as [| [fieldName desiredValue] entries IH]; intros w.
  { exists w, []. rewrite app_nil_r. by repeat split. }
  cbn [SetItemFields]. rewrite bind_run.
  destruct (SetItemFields_entry_valid pid iid destFields fieldName desiredValue w)
    as (w1 & evs1 & -> & Ht1 & Hb1 & Hreq1).
  destruct (IH w1) as (w' & evs & Hrun & Ht & Hb & Hlen & Hall).
  exists w', (evs1 ++ evs). split; [exact Hrun |].
  split; [by rewrite Ht, Ht1, app_assoc |]. split; [congruence |].
  rewrite requestsOf_app, length_app, filter_cons. cbn [snd].
  assert (Forall (valid_update ToLower pid iid destFields ((fieldName, desiredValue) :: entries))
                 (requestsOf evs)) as Hall'.
  { eapply Forall_impl; [exact Hall |]. intros req. apply valid_update_mono.
    set_solver. }
  destruct Hreq1 as [-> | (Hdv & req & -> & Hvalid)].
  - split; [case_decide; cbn [length]; lia | exact Hall'].
  - rewrite decide_True by done. split; [cbn [length]; lia |].
    apply Forall_app. split; [| exact Hall'].
    apply Forall_singleton. eapply valid_update_mono; [| exact Hvalid]. set_solver.
Qed.

(** X11. [createField] sends one request.  For a single-select field with
    options it carries the option names in the order given, each with an
    empty description and a color of the palette of eight, taken in turn:
    the option at index [i] has the color at index [i mod 8].  For any
    other data type, or without options, it carries no option.  A field is
    returned exactly when the error is nil. *)
Theorem createField_palette pid name dataType options w :
  ∃ opts r err w',
    createField pid name dataType options w = Some ((r, err), w') /\
    trace w' = trace w ++ [EvDo (CreateProjectV2Field pid dataType name opts) err] /\
    (is_Some r <-> err = None) /\
    (dataType = "SINGLE_SELECT" ->
     map fst opts = options /\
     ∀ i opt, opts !! i = Some opt -> colors !! (i mod 8) = Some opt.2) /\
    (dataType ≠ "SINGLE_SELECT" -> opts = []).
Proof.
  unfold createField.
  match goal with |- context [Do (CreateProjectV2Field _ _ _ ?o)] => set (opts := o) end.
  exists opts.
  assert ((dataType = "SINGLE_SELECT" ->
           map fst opts = options /\
           ∀ i opt, opts !! i = Some opt -> colors !! (i mod 8) = Some opt.2) /\
          (dataType ≠ "SINGLE_SELECT" -> opts = [])) as Hopts.
  { subst opts. split.
    - intros ->. rewrite bool_decide_eq_true_2 by done. cbn [andb].
      case_bool_decide as Hlen.
      + split.
        * apply list_eq. intros i. rewrite list_lookup_fmap, list_lookup_imap.
          by destruct (options !! i).
        * intros i opt. rewrite list_lookup_imap.
          destruct (options !! i) as [o |]; [| done].
          change (length colors) with 8. cbn -[Nat.modulo colors].
          destruct (lookup_lt_is_Some_2 colors (i mod 8)) as [c Hc].
          { change (length colors) with 8. apply Nat.mod_upper_bound. lia. }
          rewrite Hc. by intros [= <-].
      + destruct options; [| cbn in Hlen; lia]. split; [done |]. by intros i opt.
    - intros Hne. by rewrite bool_decide_eq_false_2. }
  clearbody opts.
  repeat run_step; eexists _, _, _; (split; [reflexivity |]); (split; [done |]);
    (split; [| exact Hopts]); split; (done || by eexists || by intros [? ?]).
Qed.






End MoreFieldProperties.

(** ** File names *)

Lemma Contains_byte_cons c rest x :
  Contains (String c rest) (String x "") = (Ascii.eqb c x || Contains rest (String x ""))%bool.
Proof.
  cbn [Contains String.prefix].
  destruct (ascii_dec x c) as [<- | Hne].
  - rewrite Ascii.eqb_refl. by destruct rest.
  - destruct (Ascii.eqb_spec c x) as [-> | _]; [done |]. reflexivity.
Qed.

Lemma Contains_nil_byte x : Contains "" (String x "") = false.
Proof. reflexivity. Qed.

Lemma Contains_ReplaceAll s old new x :
  x ≠ new ->
  Contains (ReplaceAll s old new) (String x "")
  = (Contains s (String x "") && negb (Ascii.eqb x old))%bool.
Proof.
  intros Hne. induction s as [| c rest IH]; [done |].
  cbn [ReplaceAll]. rewrite !Contains_byte_cons, IH.
  destruct (Ascii.eqb_spec c old) as [-> | Hco].
  - destruct (Ascii.eqb_spec new x) as [-> | _]; [done |].
    destruct (Ascii.eqb_spec old x) as [-> | Hox].
    + rewrite Ascii.eqb_refl. cbn. by rewrite andb_false_r.
    + cbn. reflexivity.
  - destruct (Ascii.eqb_spec c x) as [-> | Hcx]; cbn; [| done].
    destruct (Ascii.eqb_spec x old) as [-> | _]; done.
Qed.

Lemma ReplaceAll_absent s old new :
  Contains s (String old "") = false -> ReplaceAll s old new = s.
Proof.
  induction s as [| c rest IH]; [done |].
  rewrite Contains_byte_cons. intros [Hc Hrest]%orb_false_elim.
  cbn [ReplaceAll]. by rewrite Hc, IH.
Qed.

Lemma length_ReplaceAll s old new : String.length (ReplaceAll s old new) = String.length s.
Proof. induction s as [| c rest IH]; [done |]. cbn. by rewrite IH. Qed.

(** What [SafeString] replaces and what it keeps. *)
Lemma SafeString_spec s :
  Contains (SafeString s) "/" = false /\
  Contains (SafeString s) " " = false /\
  String.length (SafeString s) = String.length s /\
  SafeString (SafeString s) = SafeString s /\
  (Contains s "/" = false -> Contains s " " = false -> SafeString s = s).
Proof.
  unfold SafeString.
  assert (Contains (ReplaceAll (ReplaceAll s "/" "-") " " "_") "/" = false) as H1.
  { rewrite !Contains_ReplaceAll by done. cbn. by rewrite !andb_false_r. }
  assert (Contains (ReplaceAll (ReplaceAll s "/" "-") " " "_") " " = false) as H2.
  { rewrite Contains_ReplaceAll by done. cbn. by rewrite andb_false_r. }
  split; [exact H1 |]. split; [exact H2 |].
  split; [by rewrite !length_ReplaceAll |].
  split.
  - rewrite (ReplaceAll_absent (ReplaceAll (ReplaceAll s "/" "-") " " "_") "/") by exact H1.
    by rewrite ReplaceAll_absent.
  - intros Hs Hp. rewrite (ReplaceAll_absent s "/") by exact Hs. by rewrite ReplaceAll_absent.
Qed.

(** X13. [SafeString] makes a name filename-safe and changes nothing else:
    the result contains neither a slash nor a space, has the length of the
    argument, is a fixed point of [SafeString], and is the argument itself
    when that contains neither character. *)
Theorem SafeString_filename_safe s :
  Contains (SafeString s) "/" = false /\
  Contains (SafeString s) " " = false /\
  String.length (SafeString s) = String.length s /\
  SafeString (SafeString s) = SafeString s /\
  (Contains s "/" = false -> Contains s " " = false -> SafeString s = s).
Proof. apply SafeString_spec. Qed.

(** ** Field definitions *)

Lemma copy_options (opts : list FieldOption) (acc : list FieldOption) :
  foldl (λ opts opt, opts ++ [mkFieldOption (FieldOption_ID opt) (FieldOption_Name opt)])
        acc opts = acc ++ opts.
Proof.
  revert acc. induction opts as [| [id name] opts IH]; intros acc; cbn [foldl].
  - by rewrite app_nil_r.
  - rewrite IH. cbn. by rewrite <- app_assoc.
Qed.

Lemma fieldOfNode_eq n :
  fieldOfNode n
  = mkFieldDef (FieldNode_ID n) (FieldNode_Name n)
               (if bool_decide (FieldNode_Options n = []) then FieldNode_DataType n
                else "SINGLE_SELECT")
               (FieldNode_Options n).
Proof.
  unfold fieldOfNode. cbn [FieldDef_ID FieldDef_Name FieldDef_Options].
  rewrite copy_options. destruct (FieldNode_Options n) as [| o opts] eqn:Ho.
  - by rewrite bool_decide_eq_false_2 by (cbn; lia).
  - rewrite bool_decide_eq_true_2 by (cbn; lia). by rewrite bool_decide_eq_false_2.
Qed.

(** X14. [parseFieldNodes] maps every non-empty field name among the nodes
    to the definition read from the last node of that name, and has no
    other key: the empty name is never a key.  The definition carries the
    identifier and the options of that node; its type is SINGLE_SELECT when
    the node has options, whatever its data type, and the data type of the
    node otherwise. *)
Theorem parseFieldNodes_last_wins nodes k :
  parseFieldNodes nodes !! k
  = if bool_decide (k = "") then None
    else (λ n, mkFieldDef (FieldNode_ID n) k
                 (if bool_decide (FieldNode_Options n = []) then FieldNode_DataType n
                  else "SINGLE_SELECT")
                 (FieldNode_Options n))
         <$> last (filter (λ n, FieldNode_Name n = k) nodes).
Proof.
  unfold parseFieldNodes. destruct (decide (k = "")) as [-> | Hk].
  - rewrite bool_decide_eq_true_2 by done.
    induction nodes as [| n nodes IH] using rev_ind; [done |].
    rewrite foldl_app. cbn [foldl]. case_bool_decide; [done |].
    by rewrite lookup_insert_ne.
  - rewrite bool_decide_eq_false_2 by done.
    induction nodes as [| n nodes IH] using rev_ind; [done |].
    rewrite foldl_app. cbn [foldl]. rewrite filter_app, filter_cons, filter_nil.
    case_bool_decide as Hname.
    + rewrite decide_False by congruence. by rewrite app_nil_r.
    + destruct (decide (FieldNode_Name n = k)) as [<- | Hne].
      * rewrite lookup_insert_eq, last_snoc. cbn. by rewrite fieldOfNode_eq.
      * rewrite lookup_insert_ne by done. by rewrite IH, app_nil_r.
Qed.

(** ** Parsing the configuration *)

Lemma Split_absent s sep : Contains s (String sep "") = false -> Split s sep = [s].
Proof.
  induction s as [| c rest IH]; [done |].
  rewrite Contains_byte_cons. intros [Hc Hrest]%orb_false_elim.
  cbn [Split]. by rewrite Hc, IH.
Qed.

Lemma Split_app s sep rest :
  Contains s (String sep "") = false ->
  Split (s +:+ String sep rest) sep = s :: Split rest sep.
Proof.
  induction s as [| c s IH].
  - intros _. change ("" +:+ String sep rest) with (String sep rest).
    cbn [Split]. by rewrite Ascii.eqb_refl.
  - rewrite Contains_byte_cons. intros [Hc Hrest]%orb_false_elim.
    change (String c s +:+ String sep rest) with (String c (s +:+ String sep rest)).
    cbn [Split]. by rewrite Hc, IH.
Qed.

Lemma Split_pieces s sep : Forall (λ p, Contains p (String sep "") = false) (Split s sep).
Proof.
  induction s as [| c rest IH]; [by repeat constructor |].
  cbn [Split]. destruct (Ascii.eqb_spec c sep) as [-> | Hne].
  - by constructor.
  - destruct (Split rest sep) as [| piece pieces].
    { constructor; [| done]. rewrite Contains_byte_cons.
      by destruct (Ascii.eqb_spec c sep). }
    inversion IH as [| ? ? Hp Hps]; subst. constructor; [| done].
    rewrite Contains_byte_cons, Hp. by destruct (Ascii.eqb_spec c sep).
Qed.

Lemma Join_cons x y ys sep : Join (x :: y :: ys) sep = x +:+ sep +:+ Join (y :: ys) sep.
Proof. reflexivity. Qed.

Lemma Split_Join xs sep :
  xs ≠ [] ->
  Forall (λ x, Contains x (String sep "") = false) xs ->
  Split (Join xs (String sep "")) sep = xs.
Proof.
  intros Hne Hall. induction Hall as [| x xs Hx Hall IH]; [done |].
  destruct xs as [| y ys].
  - cbn. by apply Split_absent.
  - rewrite Join_cons.
    change (String sep "" +:+ Join (y :: ys) (String sep ""))
      with (String sep (Join (y :: ys) (String sep ""))).
    rewrite Split_app by done. by rewrite IH.
Qed.

Lemma Contains_app_byte a b x : Contains (a +:+ String x b) (String x "") = true.
Proof.
  induction a as [| c a IH].
  - change ("" +:+ String x b) with (String x b).
    by rewrite Contains_byte_cons, Ascii.eqb_refl.
  - change (String c a +:+ String x b) with (String c (a +:+ String x b)).
    by rewrite Contains_byte_cons, IH, orb_true_r.
Qed.

Lemma foldl_snoc_map {A B} (g : A -> B) (l : list A) (acc : list B) :
  foldl (λ acc x, acc ++ [g x]) acc l = acc ++ map g l.
Proof.
  revert acc. induction l as [| x l IH]; intros acc; cbn [foldl map].
  - by rewrite app_nil_r.
  - by rewrite IH, <- app_assoc.
Qed.

Lemma foldl_snoc_filter {A} (P : A -> Prop) `{∀ x, Decision (P x)} (b : A -> bool)
    (l : list A) (acc : list A) :
  (∀ x, b x = true <-> P x) ->
  foldl (λ acc x, if b x then acc ++ [x] else acc) acc l = acc ++ filter P l.
Proof.
  intros Hb. revert acc. induction l as [| x l IH]; intros acc; cbn [foldl].
  - by rewrite app_nil_r.
  - rewrite IH, filter_cons. destruct (b x) eqn:Hx.
    + rewrite decide_True by by apply Hb. by rewrite <- app_assoc.
    + rewrite decide_False; [done |]. rewrite <- Hb. congruence.
Qed.

Section ToolProperties.

Variable ToLower : string -> string.
Variable TrimSpace : string -> string.

Lemma splitAndTrim_eq s :
  SigAuthMain.splitAndTrim TrimSpace s
  = if bool_decide (s = "") then []
    else filter (λ p, p ≠ "") (map TrimSpace (Split s ",")).
Proof.
  unfold SigAuthMain.splitAndTrim. case_bool_decide; [done |].
  generalize (Split s ","). intros l.
  assert (∀ acc,
            foldl (λ result p,
                     let p0 := TrimSpace p in
                     if negb (bool_decide (p0 = "")) then result ++ [p0] else result) acc l
            = acc ++ filter (λ p, p ≠ "") (map TrimSpace l)) as Hfold.
  { induction l as [| p l IH]; intros acc; cbn [foldl map].
    - by rewrite app_nil_r.
    - rewrite IH, filter_cons. cbn zeta. case_bool_decide as Hp; cbn [negb].
      + by rewrite decide_False by (by intros ?).
      + rewrite decide_True by done. by rewrite <- app_assoc. }
  by rewrite Hfold.
Qed.

(** X15. [splitAndTrim] never returns an empty entry: each entry is a
    non-empty trimmed piece of the argument between two commas, in the
    order of the pieces, so that there are at most as many entries as
    pieces; for the empty string the result is empty.  A list of non-empty
    entries without commas that trimming leaves as they are is read back
    from its comma-separated form. *)
Theorem splitAndTrim_entries s :
  SigAuthMain.splitAndTrim TrimSpace "" = [] /\
  Forall (λ p, p ≠ "" /\
               ∃ piece, piece ∈ Split s "," /\ Contains piece "," = false /\
                        p = TrimSpace piece)
         (SigAuthMain.splitAndTrim TrimSpace s) /\
  length (SigAuthMain.splitAndTrim TrimSpace s) <= length (Split s ",") /\
  ∀ xs, Forall (λ x, x ≠ "" /\ Contains x "," = false /\ TrimSpace x = x) xs ->
        SigAuthMain.splitAndTrim TrimSpace (Join xs ",") = xs.
Proof.
  split; [done |]. rewrite !splitAndTrim_eq. split; [| split].
  - case_bool_decide; [by constructor |].
    apply Forall_forall. intros p [Hp Hin]%list_elem_of_filter.
    apply list_elem_of_fmap in Hin as (piece & -> & Hin). split; [done |].
    exists piece. split; [done |]. split; [| done].
    pose proof (Split_pieces s ",") as Hall. rewrite Forall_forall in Hall. by apply Hall.
  - case_bool_decide; [cbn; lia |].
    etrans; [apply length_filter |]. by rewrite length_map.
  - intros xs Hall. rewrite splitAndTrim_eq. destruct xs as [| x xs]; [done |].
    assert (Join (x :: xs) "," ≠ "") as Hne.
    { inversion Hall as [| ? ? (Hx & _) _]; subst.
      destruct x as [| c x]; [done |]. by destruct xs. }
    rewrite bool_decide_eq_false_2 by done.
    rewrite Split_Join; [| done | eapply Forall_impl; [exact Hall | by intros ? (? & ? & ?)]].
    assert (map TrimSpace (x :: xs) = x :: xs) as ->.
    { clear Hne. induction Hall as [| y ys (_ & _ & Hy) _ IH]; [done |].
      cbn [map]. by rewrite Hy, IH. }
    clear Hne. induction Hall as [| y ys (Hy & _) _ IH]; [done |].
    rewrite filter_cons, decide_True by done. by rewrite IH.
Qed.

Lemma parseRepos_eq raw org :
  SigAuthMain.parseRepos TrimSpace raw org
  = map (λ p, if negb (Contains p "/") then org +:+ "/" +:+ p else p)
        (SigAuthMain.splitAndTrim TrimSpace raw).
Proof. unfold SigAuthMain.parseRepos. by rewrite foldl_snoc_map. Qed.

Lemma parseLinkRepos_eq raw boardOwner :
  SigAuthMain.parseLinkRepos TrimSpace raw boardOwner
  = map (λ p, if negb (Contains p "/") && negb (bool_decide (boardOwner = ""))
              then boardOwner +:+ "/" +:+ p else p)
        (SigAuthMain.splitAndTrim TrimSpace raw).
Proof. unfold SigAuthMain.parseLinkRepos. by rewrite foldl_snoc_map. Qed.

(** The entries of [parseRepos] and [parseLinkRepos]. *)
Lemma parseRepos_entries raw org boardOwner :
  Forall (λ r, Contains r "/" = true) (SigAuthMain.parseRepos TrimSpace raw org) /\
  length (SigAuthMain.parseRepos TrimSpace raw org)
    = length (SigAuthMain.splitAndTrim TrimSpace raw) /\
  (boardOwner ≠ "" ->
   Forall (λ r, Contains r "/" = true)
          (SigAuthMain.parseLinkRepos TrimSpace raw boardOwner)) /\
  SigAuthMain.parseLinkRepos TrimSpace raw ""
    = SigAuthMain.splitAndTrim TrimSpace raw.
Proof.
  rewrite parseRepos_eq, !parseLinkRepos_eq. split; [| split; [| split]].
  - apply Forall_forall. intros r (p & -> & _)%list_elem_of_fmap.
    destruct (Contains p "/") eqn:Hp; cbn [negb]; [done |].
    apply Contains_app_byte.
  - by rewrite length_map.
  - intros Hne. apply Forall_forall. intros r (p & -> & _)%list_elem_of_fmap.
    rewrite (bool_decide_eq_false_2 (boardOwner = "")) by done.
    destruct (Contains p "/") eqn:Hp; cbn [negb andb]; [done |].
    apply Contains_app_byte.
  - rewrite bool_decide_eq_true_2 by done.
    induction (SigAuthMain.splitAndTrim TrimSpace raw) as [| p l IH]; [done |].
    cbn [map]. rewrite IH. by rewrite andb_false_r.
Qed.

(** X16. Every entry [parseRepos] returns has a slash: an entry of the
    input that has one is kept as it is, a bare name is prefixed with the
    organization and a slash; there is one entry per entry of
    [splitAndTrim].  [parseLinkRepos] does the same with the board owner
    when that is not empty, and returns the entries of [splitAndTrim]
    unchanged when it is empty. *)
Theorem parseRepos_qualified raw org boardOwner :
  Forall (λ r, Contains r "/" = true) (SigAuthMain.parseRepos TrimSpace raw org) /\
  length (SigAuthMain.parseRepos TrimSpace raw org)
    = length (SigAuthMain.splitAndTrim TrimSpace raw) /\
  (boardOwner ≠ "" ->
   Forall (λ r, Contains r "/" = true)
          (SigAuthMain.parseLinkRepos TrimSpace raw boardOwner)) /\
  SigAuthMain.parseLinkRepos TrimSpace raw ""
    = SigAuthMain.splitAndTrim TrimSpace raw.
Proof. apply parseRepos_entries. Qed.

End ToolProperties.



Section LinkedConfiguration.

Variable TrimSpace : string -> string.


End LinkedConfiguration.

(** ** Filters of the tool *)

Section FilterProperties.

Variable ToLower : string -> string.

Lemma elem_of_userSetOf x users :
  x ∈ SigAuthMain.userSetOf ToLower users <-> x ∈ map ToLower users.
Proof.
  unfold SigAuthMain.userSetOf.
  assert (∀ acc : gset string,
            x ∈ foldl (λ userSet u, {[ToLower u]} ∪ userSet) acc users
            <-> x ∈ acc \/ x ∈ map ToLower users) as H.
  { induction users as [| u users IH]; intros acc; cbn [foldl map].
    - rewrite elem_of_nil. tauto.
    - rewrite IH, elem_of_cons. set_solver. }
  rewrite H. set_solver.
Qed.

Lemma anyAssignee_spec userSet assignees :
  SigAuthMain.anyAssignee ToLower userSet assignees = true
  <-> Exists (λ a, ToLower a ∈ userSet) assignees.
Proof.
  induction assignees as [| a assignees IH]; cbn [SigAuthMain.anyAssignee].
  - rewrite Exists_nil. split; [done | tauto].
  - rewrite Exists_cons. case_bool_decide; [tauto |]. rewrite IH. tauto.
Qed.

(** [filterByInvolved] as a filter. *)
Lemma filterByInvolved_filter items users :
  SigAuthMain.filterByInvolved ToLower items users
    = filter (involved ToLower users) items /\
  SigAuthMain.filterByInvolved ToLower
      (SigAuthMain.filterByInvolved ToLower items users) users
    = SigAuthMain.filterByInvolved ToLower items users.
Proof.
  assert (∀ items, SigAuthMain.filterByInvolved ToLower items users
                   = filter (involved ToLower users) items) as Heq.
  { intros l. unfold SigAuthMain.filterByInvolved.
    assert (∀ acc,
      foldl (λ filtered item,
               if negb (bool_decide (SigAuthMain.ProjectItem_Author item = ""))
                  && bool_decide (ToLower (SigAuthMain.ProjectItem_Author item)
                                  ∈ SigAuthMain.userSetOf ToLower users)
               then filtered ++ [item]
               else if SigAuthMain.anyAssignee ToLower (SigAuthMain.userSetOf ToLower users)
                         (SigAuthMain.ProjectItem_Assignees item)
                    then filtered ++ [item]
                    else filtered) acc l
      = acc ++ filter (involved ToLower users) l) as Hfold.
    { induction l as [| item l IH]; intros acc; cbn [foldl].
      - by rewrite app_nil_r.
      - rewrite IH, filter_cons.
        assert (Exists (λ a, ToLower a ∈ SigAuthMain.userSetOf ToLower users)
                       (SigAuthMain.ProjectItem_Assignees item)
                <-> Exists (λ a, ToLower a ∈ map ToLower users)
                           (SigAuthMain.ProjectItem_Assignees item)) as Hex.
        { rewrite !Exists_exists. by setoid_rewrite elem_of_userSetOf. }
        destruct (bool_decide (SigAuthMain.ProjectItem_Author item = "")) eqn:Ha;
          [apply bool_decide_eq_true in Ha | apply bool_decide_eq_false in Ha];
          cbn [negb andb].
        + destruct (SigAuthMain.anyAssignee _ _ _) eqn:Hany.
          * apply anyAssignee_spec, Hex in Hany.
            rewrite decide_True by by right. by rewrite <- app_assoc.
          * rewrite decide_False; [done |]. intros [[? _] | H]; [done |].
            apply Hex, anyAssignee_spec in H. congruence.
        + case_bool_decide as Hin.
          * apply elem_of_userSetOf in Hin.
            rewrite decide_True by by left. by rewrite <- app_assoc.
          * rewrite elem_of_userSetOf in Hin.
            destruct (SigAuthMain.anyAssignee _ _ _) eqn:Hany.
            -- apply anyAssignee_spec, Hex in Hany.
               rewrite decide_True by by right. by rewrite <- app_assoc.
            -- rewrite decide_False; [done |]. intros [[_ ?] | H]; [done |].
               apply Hex, anyAssignee_spec in H. congruence. }
    by rewrite Hfold. }
  split; [apply Heq |]. rewrite !Heq. by apply list_filter_filter_l.
Qed.

(** X18. [filterByInvolved] keeps, in their order and once each, exactly
    the items whose author is named and among the users or one of whose
    assignees is among the users, all names compared lowered; an item
    without author is kept only for an assignee.  Filtering a second time
    with the same users changes nothing. *)
Theorem filterByInvolved_spec items users :
  SigAuthMain.filterByInvolved ToLower items users
    = filter (involved ToLower users) items /\
  SigAuthMain.filterByInvolved ToLower
      (SigAuthMain.filterByInvolved ToLower items users) users
    = SigAuthMain.filterByInvolved ToLower items users.
Proof. apply filterByInvolved_filter. Qed.

Lemma typeSetOf_sub types :
  SigAuthMain.typeSetOf ToLower types ⊆ {["Issue"; "PullRequest"]}.
Proof.
  unfold SigAuthMain.typeSetOf.
  assert (∀ acc : gset string, acc ⊆ {["Issue"; "PullRequest"]} ->
            foldl (λ typeSet t,
                     let l := ToLower t in
                     if bool_decide (l = "issues") || bool_decide (l = "issue") then
                       {["Issue"]} ∪ typeSet
                     else if bool_decide (l = "pr") || bool_decide (l = "pullrequest")
                             || bool_decide (l = "pull_request") then
                       {["PullRequest"]} ∪ typeSet
                     else typeSet) acc types ⊆ {["Issue"; "PullRequest"]}) as H.
  { induction types as [| t types IH]; intros acc Hacc; cbn [foldl]; [done |].
    apply IH. cbn zeta.
    destruct (_ || _)%bool; [set_solver |]. destruct (_ || _)%bool; set_solver. }
  apply H. set_solver.
Qed.

Lemma typeSetOf_unknown types :
  Forall (λ t, ToLower t ∉ ["issues"; "issue"; "pr"; "pullrequest"; "pull_request"]) types ->
  SigAuthMain.typeSetOf ToLower types = ∅.
Proof.
  unfold SigAuthMain.typeSetOf. generalize (∅ : gset string).
  intros acc Hall. revert acc.
  induction Hall as [| t types Ht Hall IH]; intros acc; cbn [foldl]; [done |].
  rewrite <- IH. cbn zeta.
  rewrite !bool_decide_eq_false_2; [done | | | | |]; intros Heq; apply Ht; rewrite Heq;
    set_solver.
Qed.

Lemma filterByItemTypes_eq items types :
  SigAuthMain.filterByItemTypes ToLower items types
  = filter (λ item, SigAuthMain.ProjectItem_Type item ∈ SigAuthMain.typeSetOf ToLower types)
           items.
Proof.
  unfold SigAuthMain.filterByItemTypes.
  rewrite (foldl_snoc_filter
             (λ item, SigAuthMain.ProjectItem_Type item ∈ SigAuthMain.typeSetOf ToLower types)
             (λ item, bool_decide (SigAuthMain.ProjectItem_Type item
                                   ∈ SigAuthMain.typeSetOf ToLower types))); [done |].
  intros item. apply bool_decide_eq_true.
Qed.

(** X19. [filterByItemTypes] keeps only issues and pull requests: every
    item kept has the type Issue or PullRequest, whatever types are asked
    for, so that a draft issue is never kept; the items kept are in the
    order given.  When none of the types asked for is one of the five words
    the function knows, compared lowered, nothing is kept.  The filter
    commutes with [filterByInvolved]. *)
Theorem filterByItemTypes_spec items types users :
  Forall (λ item, SigAuthMain.ProjectItem_Type item = "Issue" \/
                  SigAuthMain.ProjectItem_Type item = "PullRequest")
         (SigAuthMain.filterByItemTypes ToLower items types) /\
  SigAuthMain.filterByItemTypes ToLower items types `sublist_of` items /\
  (Forall (λ t, ToLower t ∉ ["issues"; "issue"; "pr"; "pullrequest"; "pull_request"]) types ->
   SigAuthMain.filterByItemTypes ToLower items types = []) /\
  SigAuthMain.filterByItemTypes ToLower
      (SigAuthMain.filterByInvolved ToLower items users) types
    = SigAuthMain.filterByInvolved ToLower
        (SigAuthMain.filterByItemTypes ToLower items types) users.
Proof.
  rewrite !filterByItemTypes_eq. split; [| split; [| split]].
  - apply Forall_forall. intros item [Hin _]%list_elem_of_filter.
    apply typeSetOf_sub in Hin. set_solver.
  - apply sublist_filter.
  - intros Hall. rewrite (typeSetOf_unknown types Hall).
    induction items as [| item items IH]; [done |].
    rewrite filter_cons, decide_False by set_solver. exact IH.
  - destruct (filterByInvolved_filter items users) as [-> _].
    destruct (filterByInvolved_filter
                (filter (λ item, SigAuthMain.ProjectItem_Type item
                                 ∈ SigAuthMain.typeSetOf ToLower types) items) users)
      as [-> _].
    rewrite !list_filter_filter. apply list_filter_iff. tauto.
Qed.

End FilterProperties.

(** ** Cache keys of the tool *)

Lemma append_assoc (a b c : string) : (a +:+ b) +:+ c = a +:+ b +:+ c.
Proof.
  induction a as [| x a IH]; [done |].
  change (String x (a +:+ b) +:+ c = String x (a +:+ b +:+ c)).
  change (String x ((a +:+ b) +:+ c) = String x (a +:+ b +:+ c)). by rewrite IH.
Qed.

Lemma Join_snoc parts x sep :
  parts ≠ [] -> Join (parts ++ [x]) sep = Join parts sep +:+ sep +:+ x.
Proof.
  induction parts as [| p parts IH]; [done |]. intros _.
  destruct parts as [| q parts]; [done |].
  change ((p :: q :: parts) ++ [x]) with (p :: (q :: parts) ++ [x]).
  change ((q :: parts) ++ [x]) with (q :: parts ++ [x]) at 1.
  rewrite Join_cons. change (q :: parts ++ [x]) with ((q :: parts) ++ [x]).
  rewrite IH by done. rewrite Join_cons. by rewrite !append_assoc.
Qed.

Lemma prefix_append p s : String.prefix p (p +:+ s) = true.
Proof.
  induction p as [| c p IH]; [by destruct s |].
  change (String c p +:+ s) with (String c (p +:+ s)). cbn [String.prefix].
  by destruct (ascii_dec c c).
Qed.

Lemma length_append a b : String.length (a +:+ b) = String.length a + String.length b.
Proof.
  induction a as [| c a IH]; [done |].
  change (String c a +:+ b) with (String c (a +:+ b)). cbn [String.length]. by rewrite IH.
Qed.

Lemma substring_all s : substring 0 (String.length s) s = s.
Proof. induction s as [| c s IH]; [done |]. cbn. by rewrite IH. Qed.

Lemma substring_append a b :
  substring (String.length a) (String.length b) (a +:+ b) = b.
Proof.
  induction a as [| c a IH]; [apply substring_all |].
  change (String c a +:+ b) with (String c (a +:+ b)). cbn [String.length substring].
  exact IH.
Qed.

Lemma HasSuffix_append a b : HasSuffix (a +:+ b) b = true.
Proof.
  unfold HasSuffix. rewrite length_append.
  replace (String.length a + String.length b - String.length b) with (String.length a)
    by lia.
  rewrite substring_append, String.eqb_refl.
  rewrite andb_true_r. apply Nat.leb_le. lia.
Qed.

Lemma Contains_append_byte a b x :
  Contains (a +:+ b) (String x "")
  = (Contains a (String x "") || Contains b (String x ""))%bool.
Proof.
  induction a as [| c a IH]; [done |].
  change (String c a +:+ b) with (String c (a +:+ b)).
  by rewrite !Contains_byte_cons, IH, orb_assoc.
Qed.

Lemma Contains_Join_byte parts sep x :
  Forall (λ p, Contains p (String x "") = false) parts ->
  Contains sep (String x "") = false ->
  Contains (Join parts sep) (String x "") = false.
Proof.
  intros Hall Hsep. induction Hall as [| p parts Hp Hall IH]; [done |].
  destruct parts as [| q parts]; [done |].
  by rewrite Join_cons, !Contains_append_byte, Hp, Hsep, IH.
Qed.

Lemma safe_no_slash s : Contains (SigAuthMain.safe s) "/" = false.
Proof. apply (SafeString_spec s). Qed.

(** X20. The key of a cache file goes with the prefix the reader looks
    for: for the same configuration, [cacheKey] is [cachePrefix] followed
    by the time stamp and [.json], so that it has that prefix and that
    suffix; and it contains no slash when the time stamp contains none, so
    that the file lies in the cache directory itself. *)
Theorem cacheKey_matches_prefix config now :
  SigAuthMain.cacheKey config now = SigAuthMain.cachePrefix config +:+ now +:+ ".json" /\
  HasPrefix (SigAuthMain.cacheKey config now) (SigAuthMain.cachePrefix config) = true /\
  HasSuffix (SigAuthMain.cacheKey config now) ".json" = true /\
  (Contains now "/" = false -> Contains (SigAuthMain.cacheKey config now) "/" = false).
Proof.
  unfold SigAuthMain.cacheKey, SigAuthMain.cachePrefix, HasPrefix.
  set (parts0 := if negb (bool_decide (SigAuthMain.Config_Milestone config = ""))
                 then ["items"; SigAuthMain.safe (SigAuthMain.Config_Org config)]
                      ++ [SigAuthMain.safe (SigAuthMain.Config_Milestone config)]
                 else ["items"; SigAuthMain.safe (SigAuthMain.Config_Org config)]).
  rewrite (foldl_snoc_map SigAuthMain.safe).
  set (parts := parts0 ++ map SigAuthMain.safe (SigAuthMain.Config_Repos config)).
  assert (parts ≠ []) as Hne.
  { subst parts parts0. by destruct (negb _). }
  assert (Forall (λ p, Contains p "/" = false) parts) as Hsafe.
  { subst parts parts0. apply Forall_app. split.
    - destruct (negb _); repeat constructor; apply safe_no_slash.
    - apply Forall_forall. intros p (r & -> & _)%list_elem_of_fmap. apply safe_no_slash. }
  cbn zeta. rewrite Join_snoc by done.
  assert ((Join parts "_" +:+ "_" +:+ now) +:+ ".json"
          = (Join parts "_" +:+ "_") +:+ now +:+ ".json") as Heq
    by by rewrite !append_assoc.
  split; [exact Heq |]. rewrite Heq. split; [apply prefix_append |]. split.
  - rewrite <- append_assoc. apply HasSuffix_append.
  - intros Hnow. rewrite !Contains_append_byte, Hnow.
    by rewrite (Contains_Join_byte parts "_" "/" Hsafe).
Qed.

(** ** Searching *)

Section SearchProperties.

Variable ToLower : string -> string.
Variable Quote : string -> string.
Variable executeSearch : string -> M (list SigAuthMain.ProjectItem * error).




(** X22. [buildSearchQueries] never returns an empty list: it makes one
    query per pair of a repository and a label, a list that is empty
    counting as one entry, the organization-wide search or the search
    without a label. *)
Theorem buildSearchQueries_count config :
  length (SigAuthQuery.buildSearchQueries ToLower Quote config)
  = Nat.max 1 (length (SigAuthMain.Config_Repos config))
    * Nat.max 1 (length (SigAuthMain.Config_Labels config)) /\
  SigAuthQuery.buildSearchQueries ToLower Quote config ≠ [].
Proof.
  assert (length (SigAuthQuery.buildSearchQueries ToLower Quote config)
          = Nat.max 1 (length (SigAuthMain.Config_Repos config))
            * Nat.max 1 (length (SigAuthMain.Config_Labels config))) as Hlen.
  { unfold SigAuthQuery.buildSearchQueries. cbn zeta.
    set (repos := if bool_decide (length (SigAuthMain.Config_Repos config) = 0) then [""]
                  else SigAuthMain.Config_Repos config).
    set (labels := if bool_decide (length (SigAuthMain.Config_Labels config) = 0) then [""]
                   else SigAuthMain.Config_Labels config).
    assert (length repos = Nat.max 1 (length (SigAuthMain.Config_Repos config))) as <-.
    { subst repos. case_bool_decide as H; [by rewrite H | lia]. }
    assert (length labels = Nat.max 1 (length (SigAuthMain.Config_Labels config))) as <-.
    { subst labels. case_bool_decide as H; [by rewrite H | lia]. }
    clearbody repos labels.
    match goal with |- length (foldl ?f [] repos) = _ =>
      assert (∀ acc, length (foldl f acc repos) = length acc + length repos * length labels)
        as Hfold
    end.
    { induction repos as [| repo repos IH]; intros acc; cbn [foldl length]; [lia |].
      rewrite IH.
      match goal with |- length (foldl ?g acc labels) + _ = _ =>
        assert (∀ acc, length (foldl g acc labels) = length acc + length labels) as Hin
      end.
      { clear. induction labels as [| label labels IH]; intros acc; cbn [foldl length]; [lia |].
        rewrite IH, length_app. cbn [length]. lia. }
      rewrite Hin. lia. }
    rewrite Hfold. cbn [length]. lia. }
  split; [exact Hlen |]. intros Heq. rewrite Heq in Hlen. cbn [length] in Hlen. lia.
Qed.

End SearchProperties.

(** ** Views *)

Lemma views_bind_run {A B} (m : Views.M A) (f : A -> Views.M B) (w : Views.World) :
  (m ≫= f) w = match m w with Some (a, w') => f a w' | None => None end.
Proof. reflexivity. Qed.

Lemma views_ret_run {A} (a : A) (w : Views.World) : (mret a : Views.M A) w = Some (a, w).
Proof. reflexivity. Qed.

Lemma views_log_run format args (w : Views.World) :
  Views.logPrintf format args w = Some (tt, Views.emit (Views.EvLog format args) w).
Proof. reflexivity. Qed.

Lemma views_requestsOf_app evs1 evs2 :
  Views.requestsOf (evs1 ++ evs2) = Views.requestsOf evs1 ++ Views.requestsOf evs2.
Proof. apply omap_app. Qed.

Lemma ViewDef_eta v :
  Views.mkViewDef (Views.ViewDef_ID v) (Views.ViewDef_Name v) (Views.ViewDef_Number v)
                  (Views.ViewDef_Layout v) (Views.ViewDef_Filter v) = v.
Proof. by destruct v. Qed.

Lemma views_pageSize_pos : 0 < Views.pageSize.
Proof. unfold Views.pageSize. lia. Qed.

Lemma map_ViewDef_eta (l : list Views.ViewDef) :
  map (λ v, Views.mkViewDef (Views.ViewDef_ID v) (Views.ViewDef_Name v)
              (Views.ViewDef_Number v) (Views.ViewDef_Layout v) (Views.ViewDef_Filter v)) l
  = l.
Proof. induction l as [| v l IH]; [done |]. cbn [map]. by rewrite ViewDef_eta, IH. Qed.

Lemma ListViews_from_spec fuel pid cursor acc w :
  default 0 cursor <= length (Views.viewsOf (Views.server w) pid) ->
  length (Views.viewsOf (Views.server w) pid) < default 0 cursor + Views.pageSize * fuel ->
  ∃ r err w' evs,
    Views.ListViews_from fuel pid cursor acc w = Some ((r, err), w') /\
    Views.trace w' = Views.trace w ++ evs /\
    Views.server w' = Views.server w /\ Views.faults w' = Views.faults w /\
    Forall (λ req, Views.is_query req = true) (Views.requestsOf evs) /\
    (err = None -> r = acc ++ drop (default 0 cursor) (Views.listed (Views.server w) pid)) /\
    (err ≠ None -> r = []) /\
    ((∀ n c, Views.faults w n (Views.QueryViews pid c) = None) -> err = None).
Proof.
  pose proof views_pageSize_pos as Hpos.
  revert cursor acc w. induction fuel as [| fuel IH]; intros cursor acc w Hle Hlt.
  { lia. }
  cbn [Views.ListViews_from]. rewrite views_bind_run. unfold Views.Do.
  destruct (Views.faults w (Views.clock w) (Views.QueryViews pid cursor)) as [msg |] eqn:Hf.
  { rewrite views_ret_run. eexists [], (Some msg), _, [_]. split; [reflexivity |].
    split; [done |]. split; [done |]. split; [done |].
    split; [by repeat constructor |]. split; [done |]. split; [done |].
    intros Hnone. by rewrite Hnone in Hf. }
  cbn [Views.serve Views.paginate fst snd HasNextPage EndCursor].
  rewrite map_ViewDef_eta, length_map.
  fold (Views.listed (Views.server w) pid).
  case_bool_decide as Hnext; cbn [negb].
  - destruct (IH (Some (default 0 cursor + Views.pageSize))
                 (acc ++ take Views.pageSize
                           (drop (default 0 cursor) (Views.listed (Views.server w) pid)))
                 (Views.sent (Views.QueryViews pid cursor) None (Views.server w) w))
      as (r & err & w' & evs & Hrun & Ht & Hs & Hfl & Hq & Hok & Hfail & Hnone).
    { cbn [default id Views.server Views.sent]. lia. }
    { cbn [default id Views.server Views.sent]. lia. }
    exists r, err, w', (Views.EvDo (Views.QueryViews pid cursor) None :: evs).
    split; [exact Hrun |]. cbn [Views.trace Views.sent Views.server Views.faults] in *.
    split; [by rewrite Ht, <- app_assoc |]. split; [done |]. split; [done |].
    split; [by constructor |]. split; [| split; [done |]].
    + intros ->. rewrite (Hok eq_refl), <- app_assoc. f_equal.
      cbn [default id]. by rewrite <- drop_drop, take_drop.
    + intros H. apply Hnone. intros n c. apply H.
  - rewrite views_ret_run. eexists _, None, _, [_]. split; [reflexivity |].
    split; [done |]. split; [done |]. split; [done |].
    split; [by repeat constructor |]. split; [| done].
    intros _. f_equal. apply take_ge. unfold Views.listed.
    rewrite length_drop, length_map. lia.
Qed.

Lemma ListViews_spec fuel pid w :
  length (Views.viewsOf (Views.server w) pid) < Views.pageSize * fuel ->
  ∃ r err w' evs,
    Views.ListViews fuel pid w = Some ((r, err), w') /\
    Views.trace w' = Views.trace w ++ evs /\
    Views.server w' = Views.server w /\ Views.faults w' = Views.faults w /\
    Forall (λ req, Views.is_query req = true) (Views.requestsOf evs) /\
    (err = None -> r = Views.listed (Views.server w) pid) /\
    (err ≠ None -> r = []) /\
    ((∀ n c, Views.faults w n (Views.QueryViews pid c) = None) -> err = None).
Proof.
  intros Hfuel. unfold Views.ListViews.
  destruct (ListViews_from_spec fuel pid None [] w ltac:(cbn [default]; lia)
              ltac:(cbn [default]; lia))
    as (r & err & w' & evs & Hrun & Ht & Hs & Hfl & Hq & Hok & Hfail & Hnone).
  exists r, err, w', evs. by repeat split.
Qed.

Ltac views_step :=
  first
    [ rewrite views_bind_run
    | rewrite views_log_run
    | rewrite views_ret_run
    | progress cbn [Views.serve Views.zero fst snd andb negb]
    | match goal with
      | |- context [Views.Do ?req ?w] =>
          unfold Views.Do at 1;
          destruct (Views.faults w (Views.clock w) req) as [?msg |] eqn:?Hf
      | |- context [if existsb ?f ?l then _ else _] => destruct (existsb f l) eqn:?Hex
      end ].

Lemma viewsOf_insert pid l vs n :
  Views.viewsOf (Views.mkServer (<[pid := l]> vs) n) pid = l.
Proof. unfold Views.viewsOf. cbn. by rewrite lookup_insert_eq. Qed.

(** The two requests of [CreateView]. *)
Lemma CreateView_spec pid name w :
  ∃ r err w' evs,
    Views.CreateView pid name w = Some ((r, err), w') /\
    Views.trace w' = Views.trace w ++ evs /\
    match err with
    | Some msg =>
        r = None /\ Views.server w' = Views.server w /\
        ∃ e, evs = [Views.EvDo (Views.CreateProjectV2View pid) (Some e)] /\
             Some msg = Errorf "creating view: %w" [AErr e]
    | None =>
        ∃ v sv renameErr,
          r = Some v /\ Views.ViewDef_Name v = name /\
          Views.requestsOf evs
            = [Views.CreateProjectV2View pid;
               Views.UpdateProjectV2ViewName pid (Views.ViewDef_ID v) name] /\
          length (Views.viewsOf (Views.server w') pid)
            = S (length (Views.viewsOf (Views.server w) pid)) /\
          last (Views.viewsOf (Views.server w') pid) = Some sv /\
          Views.ViewDef_ID (Views.sview_Def sv) = Views.ViewDef_ID v /\
          match renameErr with
          | None => Views.ViewDef_Name (Views.sview_Def sv) = name
          | Some e =>
              last evs
                = Some (Views.EvLog "Warning: created view but could not rename to %q: %v"
                                    [AStr name; AErr e]) /\
              Views.ViewDef_Name (Views.sview_Def sv)
                = mintID "View " (S (length (Views.viewsOf (Views.server w) pid)))
          end
    end.
Proof.
  unfold Views.CreateView.
  repeat views_step.
  - eexists None, _, _, [_]. split; [reflexivity |].
    split; [done |]. split; [done |]. split; [done |]. by eexists.
  - eexists (Some _), None, _, [_; _; _]. split; [reflexivity |].
    cbn [Views.trace Views.emit Views.sent Views.server Views.ViewDef_ID].
    rewrite <- !app_assoc. split; [reflexivity |].
    eexists _, _, (Some _). split; [reflexivity |]. split; [done |]. split; [done |].
    rewrite viewsOf_insert, length_app, last_snoc.
    split; [cbn [length]; lia |]. by repeat split.
  - eexists (Some _), None, _, [_; _]. split; [reflexivity |].
    cbn [Views.trace Views.emit Views.sent Views.server Views.ViewDef_ID].
    rewrite <- !app_assoc. split; [reflexivity |].
    eexists _, _, None. split; [reflexivity |]. split; [done |]. split; [done |].
    rewrite !viewsOf_insert, length_map, length_app, map_app. cbn [map]. rewrite last_snoc.
    split; [cbn [length]; lia |]. split; [reflexivity |].
    unfold Views.rename, Views.hasID. cbn [Views.sview_Def Views.ViewDef_ID].
    by rewrite bool_decide_eq_true_2.
  - exfalso. cbn [Views.server Views.sent] in Hex. rewrite viewsOf_insert in Hex.
    rewrite existsb_app in Hex. apply orb_false_elim in Hex as [_ Hex].
    cbn [existsb] in Hex. unfold Views.hasID in Hex.
    cbn [Views.sview_Def Views.ViewDef_ID] in Hex.
    by rewrite bool_decide_eq_true_2 in Hex.
Qed.


Lemma columnsOf_cons fields name names :
  Views.columnsOf fields (name :: names)
  = match fields !! name with
    | Some fd => FieldDef_ID fd :: Views.columnsOf fields names
    | None => Views.columnsOf fields names
    end.
Proof. unfold Views.columnsOf. cbn. by destruct (fields !! name). Qed.

Lemma resolveFieldIDs_range_spec names fields ids w :
  ∃ w' evs,
    Views.resolveFieldIDs_range names fields ids w
      = Some (ids ++ Views.columnsOf fields names, w') /\
    Views.trace w' = Views.trace w ++ evs /\
    Views.requestsOf evs = [].
Proof.
  revert ids w. induction names as [| name names IH]; intros ids w.
  { exists w, []. cbn. by rewrite !app_nil_r. }
  cbn [Views.resolveFieldIDs_range]. rewrite columnsOf_cons.
  destruct (fields !! name) as [fd |].
  - destruct (IH (ids ++ [FieldDef_ID fd]) w) as (w' & evs & -> & Ht & Hreq).
    exists w', evs. by rewrite <- app_assoc.
  - rewrite views_bind_run, views_log_run.
    destruct (IH ids (Views.emit (Views.EvLog "    Field %q not found on board, skipping column"
                                              [AStr name]) w))
      as (w' & evs & -> & Ht & Hreq).
    eexists w', (_ :: evs). split; [done |].
    cbn [Views.trace Views.emit] in Ht. rewrite <- app_assoc in Ht. by split.
Qed.

Lemma EnsureViews_columns_spec pid want view fields w :
  ∃ w' evs,
    Views.EnsureViews_columns pid want view fields w = Some (tt, w') /\
    Views.trace w' = Views.trace w ++ evs /\
    (Views.requestsOf evs = [] \/
     ∃ fs,
       fields = Some fs /\ Views.columnsOf fs (Views.ViewConfig_FieldNames want) ≠ [] /\
       Views.requestsOf evs
       = [Views.UpdateProjectV2ViewFields pid (Views.ViewDef_ID view)
            (Views.columnsOf fs (Views.ViewConfig_FieldNames want))]).
Proof.
  unfold Views.EnsureViews_columns.
  destruct (bool_decide _) eqn:Hlen; [| exists w, []; rewrite app_nil_r; by repeat split; left].
  destruct fields as [fs |]; [| exists w, []; rewrite app_nil_r; by repeat split; left].
  unfold Views.resolveFieldIDs. rewrite views_bind_run.
  destruct (resolveFieldIDs_range_spec (Views.ViewConfig_FieldNames want) fs [] w)
    as (w1 & evs1 & -> & Ht1 & Hreq1).
  cbn [app].
  clear Hlen.
  destruct (bool_decide (0 < length (Views.columnsOf fs _))) eqn:Hcols.
  2:{ rewrite views_log_run. eexists _, (evs1 ++ [_]). split; [reflexivity |].
      cbn [Views.trace Views.emit]. rewrite Ht1, <- app_assoc.
      split; [done |]. left.
      by rewrite views_requestsOf_app, Hreq1. }
  apply bool_decide_eq_true in Hcols.
  assert (Views.columnsOf fs (Views.ViewConfig_FieldNames want) ≠ []) as Hne.
  { intros Heq. rewrite Heq in Hcols. cbn in Hcols. lia. }
  unfold Views.SetViewVisibleFields.
  repeat views_step.
  all: eexists _, (evs1 ++ _); (split; [reflexivity |]).
  all: cbn [Views.trace Views.emit Views.sent]; rewrite Ht1, <- ?app_assoc.
  all: (split; [reflexivity |]); right; exists fs.
  all: (split; [done |]); (split; [done |]).
  all: by rewrite views_requestsOf_app, Hreq1.
Qed.

Lemma EnsureViews_want_spec pid viewsByName fields want w :
  ∃ w' evs,
    Views.EnsureViews_want pid viewsByName fields want w = Some (tt, w') /\
    Views.trace w' = Views.trace w ++ evs /\
    Views.wantRequests pid viewsByName fields want (Views.requestsOf evs).
Proof.
  unfold Views.EnsureViews_want, Views.wantRequests.
  destruct (viewsByName !! Views.ViewConfig_Name want) as [view |] eqn:Hlk.
  - rewrite views_bind_run, views_log_run.
    destruct (EnsureViews_columns_spec pid want view fields
                (Views.emit (Views.EvLog "  ✓ View %q already exists"
                                         [AStr (Views.ViewConfig_Name want)]) w))
      as (w' & evs & -> & Ht & Hreq).
    cbn [Views.trace Views.emit] in Ht. rewrite <- app_assoc in Ht.
    eexists w', _. split; [done |]. split; [exact Ht |].
    exists [], (Views.requestsOf evs). split; [done |]. split; [done |].
    destruct Hreq as [-> | (fs & -> & Hne & ->)]; [by left |].
    right. by exists fs, (Views.ViewDef_ID view).
  - rewrite views_bind_run, views_log_run, views_bind_run.
    destruct (CreateView_spec pid (Views.ViewConfig_Name want)
                (Views.emit (Views.EvLog "  Creating view %q..."
                                         [AStr (Views.ViewConfig_Name want)]) w))
      as (r & err & w1 & evs1 & -> & Ht1 & Hout).
    cbn [Views.trace Views.emit] in Ht1. rewrite <- app_assoc in Ht1.
    destruct err as [msg |].
    + destruct Hout as (-> & _ & e & -> & _). rewrite views_log_run.
      eexists _, _. split; [reflexivity |].
      cbn [Views.trace Views.emit]. rewrite Ht1, <- app_assoc. split; [reflexivity |].
      exists [Views.CreateProjectV2View pid], []. split; [done |]. split; [by left | by left].
    + destruct Hout as (v & sv & renameErr & -> & Hname & Hreq1 & _).
      rewrite views_bind_run, views_log_run.
      destruct (EnsureViews_columns_spec pid want v fields
                  (Views.emit (Views.EvLog "  ✓ Created view %q"
                                           [AStr (Views.ViewConfig_Name want)]) w1))
        as (w' & evs & -> & Ht & Hreq).
      cbn [Views.trace Views.emit] in Ht. rewrite Ht1, <- !app_assoc in Ht.
      eexists w', _. split; [done |]. split; [exact Ht |].
      exists (Views.requestsOf evs1), (Views.requestsOf evs).
      split; [by rewrite (views_requestsOf_app [_] (evs1 ++ _)), views_requestsOf_app,
                (views_requestsOf_app [_] evs) |].
      split; [right; by exists (Views.ViewDef_ID v) |].
      destruct Hreq as [-> | (fs & -> & Hne & ->)]; [by left |].
      right. by exists fs, (Views.ViewDef_ID v).
Qed.

Lemma EnsureViews_range_spec pid viewsByName fields desired w :
  ∃ w' evs rss,
    Views.EnsureViews_range pid viewsByName fields desired w = Some (tt, w') /\
    Views.trace w' = Views.trace w ++ evs /\
    Forall2 (Views.wantRequests pid viewsByName fields) desired rss /\
    Views.requestsOf evs = concat rss.
Proof.
  revert w. induction desired as [| want desired IH]; intros w.
  { exists w, [], []. rewrite app_nil_r. by repeat split. }
  cbn [Views.EnsureViews_range]. rewrite views_bind_run.
  destruct (EnsureViews_want_spec pid viewsByName fields want w)
    as (w1 & evs1 & -> & Ht1 & Hreq1).
  destruct (IH w1) as (w' & evs & rss & Hrun & Ht & Hall & Hreq).
  exists w', (evs1 ++ evs), (Views.requestsOf evs1 :: rss). split; [exact Hrun |].
  split; [by rewrite Ht, Ht1, app_assoc |]. split; [by constructor |].
  by rewrite views_requestsOf_app, Hreq.
Qed.


Lemma elem_of_concat {A} (x : A) (ls : list (list A)) :
  x ∈ concat ls <-> ∃ l, x ∈ l /\ l ∈ ls.
Proof.
  rewrite list_elem_of_In, in_concat. split; intros (l & H1 & H2); exists l.
  - by rewrite !list_elem_of_In.
  - by rewrite <- !list_elem_of_In.
Qed.

Lemma EnsureViews_spec fuel pid desired destFields w :
  length (Views.viewsOf (Views.server w) pid) < Views.pageSize * fuel ->
  ∃ w' evs qs rss existing err w1,
    Views.EnsureViews fuel pid desired destFields w = Some (tt, w') /\
    Views.trace w' = Views.trace w ++ evs /\
    Views.ListViews fuel pid w = Some ((existing, err), w1) /\
    Views.requestsOf evs = qs ++ concat rss /\
    Forall (λ req, Views.is_query req = true) qs /\
    match err with
    | Some e =>
        rss = [] /\
        w' = Views.emit (Views.EvLog "Warning: could not list project views: %v" [AErr e]) w1
    | None =>
        Forall2 (Views.wantRequests pid
                   (Views.indexViews (Views.listed (Views.server w) pid))
                   (match destFields with Some fs :: _ => Some fs | _ => None end))
                desired rss
    end.
Proof.
  intros Hfuel. unfold Views.EnsureViews. rewrite views_bind_run.
  destruct (ListViews_spec fuel pid w Hfuel)
    as (existing & err & w1 & evs1 & Hrun1 & Ht1 & _ & _ & Hq & Hok & _).
  rewrite Hrun1. destruct err as [e |].
  - rewrite views_log_run. eexists _, (evs1 ++ [_]), (Views.requestsOf evs1), [], existing, _, w1.
    split; [reflexivity |]. cbn [Views.trace Views.emit]. rewrite Ht1, <- app_assoc.
    split; [done |]. split; [done |].
    split; [by rewrite views_requestsOf_app, !app_nil_r |]. by split.
  - pose proof (Hok eq_refl) as ->.
    destruct (EnsureViews_range_spec pid (Views.indexViews (Views.listed (Views.server w) pid))
                (match destFields with Some fs :: _ => Some fs | _ => None end) desired w1)
      as (w' & evs & rss & Hrun & Ht & Hall & Hreq).
    exists w', (evs1 ++ evs), (Views.requestsOf evs1), rss,
      (Views.listed (Views.server w) pid), None, w1.
    split; [exact Hrun |]. split; [by rewrite Ht, Ht1, app_assoc |].
    split; [done |]. split; [by rewrite views_requestsOf_app, Hreq |]. by split.
Qed.



(** X25. [EnsureViews] shows only fields that exist.  Every update of the
    visible fields it sends is for the project given and carries a list,
    which is not empty, of the identifiers that the first map given has for
    the field names of a desired view, in the order of the names, the names
    that are no field of the map being left out.  When no map is given, or
    a nil map, it sends no such update. *)
Theorem EnsureViews_columns_valid fuel pid desired destFields w :
  length (Views.viewsOf (Views.server w) pid) < Views.pageSize * fuel ->
  ∃ w' evs,
    Views.EnsureViews fuel pid desired destFields w = Some (tt, w') /\
    Views.trace w' = Views.trace w ++ evs /\
    ∀ p vid ids,
      Views.UpdateProjectV2ViewFields p vid ids ∈ Views.requestsOf evs ->
      p = pid /\ ids ≠ [] /\
      ∃ fs rest want,
        destFields = Some fs :: rest /\ want ∈ desired /\
        ids = Views.columnsOf fs (Views.ViewConfig_FieldNames want) /\
        Forall (λ id, ∃ name fd, name ∈ Views.ViewConfig_FieldNames want /\
                                 fs !! name = Some fd /\ id = FieldDef_ID fd) ids.
Proof.
  intros Hfuel.
  destruct (EnsureViews_spec fuel pid desired destFields w Hfuel)
    as (w' & evs & qs & rss & existing & err & w1 & Hrun & Ht & Hlist & Hreq & Hq & Herr).
  exists w', evs. split; [exact Hrun |]. split; [exact Ht |].
  assert (∀ req, req ∈ qs -> Views.is_query req = true) as Hqs
    by by apply Forall_forall.
  intros p vid ids. rewrite Hreq, elem_of_app. intros [Hin | Hin].
  { by apply Hqs in Hin. }
  destruct err as [e |]; [destruct Herr as [-> _]; by apply elem_of_nil in Hin |].
  apply elem_of_concat in Hin as (rs & Hin & Hrs).
  apply list_elem_of_lookup in Hrs as [i Hi].
  destruct (Forall2_lookup_r _ _ _ _ _ Herr Hi) as (want & Hwant & Hw).
  destruct Hw as (creation & columns & -> & Hc & Hcol).
  apply elem_of_app in Hin as [Hin | Hin].
  - destruct (Views.indexViews _ !! Views.ViewConfig_Name want).
    { subst creation. by apply elem_of_nil in Hin. }
    destruct Hc as [-> | [vid' ->]].
    + by apply list_elem_of_singleton in Hin.
    + apply elem_of_cons in Hin as [Hin | Hin]; [done |].
      by apply list_elem_of_singleton in Hin.
  - destruct Hcol as [-> | (fs & vid' & Hfs & Hne & ->)].
    { by apply elem_of_nil in Hin. }
    apply list_elem_of_singleton in Hin. injection Hin as -> -> ->.
    split; [done |]. split; [done |].
    destruct destFields as [| [fs' |] rest]; try done. injection Hfs as ->.
    exists fs, rest, want. split; [done |]. split; [by eapply list_elem_of_lookup_2 |].
    split; [done |].
    apply Forall_forall. intros id Hid. unfold Views.columnsOf in Hid.
    apply list_elem_of_omap in Hid as (name & Hname & Hfd).
    destruct (fs !! name) as [fd |] eqn:Hlk; [| done].
    injection Hfd as <-. by exists name, fd.
Qed.

(** ** The cache directory *)

Lemma cache_bind_run {A B} (m : Cache.M A) (f : A -> Cache.M B) (w : Cache.World) :
  (m ≫= f) w = match m w with Some (a, w') => f a w' | None => None end.
Proof. reflexivity. Qed.

Lemma cache_ret_run {A} (a : A) (w : Cache.World) : (mret a : Cache.M A) w = Some (a, w).
Proof. reflexivity. Qed.

Lemma cache_log_run format args (w : Cache.World) :
  Cache.logPrintf format args w = Some (tt, Cache.emit (Cache.EvLog format args) w).
Proof. reflexivity. Qed.

Lemma removalsOf_app evs1 evs2 :
  Cache.removalsOf (evs1 ++ evs2) = Cache.removalsOf evs1 ++ Cache.removalsOf evs2.
Proof. apply omap_app. Qed.

Lemma removedOf_app evs1 evs2 :
  Cache.removedOf (evs1 ++ evs2) = Cache.removedOf evs1 ++ Cache.removedOf evs2.
Proof. unfold Cache.removedOf. by rewrite removalsOf_app, omap_app. Qed.

Lemma readsOf_app evs1 evs2 :
  Cache.readsOf (evs1 ++ evs2) = Cache.readsOf evs1 ++ Cache.readsOf evs2.
Proof. apply omap_app. Qed.

Lemma sortStrings_Permutation l : Cache.sortStrings l ≡ₚ l.
Proof. apply merge_sort_Permutation. Qed.

Lemma sortStrings_sorted l : StronglySorted String.le (Cache.sortStrings l).
Proof. apply StronglySorted_merge_sort; apply _. Qed.

Lemma sortStrings_id l : StronglySorted String.le l -> Cache.sortStrings l = l.
Proof.
  intros Hl. apply (StronglySorted_unique String.le); [apply sortStrings_sorted | done |].
  apply sortStrings_Permutation.
Qed.

Lemma StronglySorted_filter {A} (R : relation A) (P : A -> Prop) `{∀ x, Decision (P x)} l :
  StronglySorted R l -> StronglySorted R (filter P l).
Proof.
  induction 1 as [| x l Hl IH Hx]; [constructor |].
  rewrite filter_cons. case_decide; [| done].
  constructor; [done |]. apply Forall_forall. intros y [_ Hy]%list_elem_of_filter.
  rewrite Forall_forall in Hx. by apply Hx.
Qed.

Lemma names_sorted (files : gmap string Cache.File) :
  StronglySorted String.le (Cache.sortStrings (elements (dom files))) /\
  NoDup (Cache.sortStrings (elements (dom files))) /\
  ∀ name, name ∈ Cache.sortStrings (elements (dom files)) <-> is_Some (files !! name).
Proof.
  split; [apply sortStrings_sorted |]. split.
  - rewrite sortStrings_Permutation. apply NoDup_elements.
  - intros name. rewrite sortStrings_Permutation, elem_of_elements. apply elem_of_dom.
Qed.

Lemma cacheFiles_spec prefix files :
  StronglySorted String.le (Cache.cacheFiles prefix files) /\
  NoDup (Cache.cacheFiles prefix files) /\
  ∀ name, name ∈ Cache.cacheFiles prefix files <-> Cache.isCacheName prefix files name = true.
Proof.
  destruct (names_sorted files) as (Hs & Hnd & Hin). unfold Cache.cacheFiles.
  split; [by apply StronglySorted_filter |]. split; [by apply NoDup_filter |].
  intros name. rewrite list_elem_of_filter, Hin. split; [by intros [? _] |].
  intros H. split; [done |]. unfold Cache.isCacheName in H.
  by destruct (files !! name).
Qed.

Lemma matchesOf_entries prefix files :
  Cache.matchesOf prefix (Cache.entriesOf files) = Cache.cacheFiles prefix files.
Proof.
  unfold Cache.matchesOf, Cache.entriesOf, Cache.cacheFiles.
  generalize (Cache.sortStrings (elements (dom files))). intros names.
  assert (∀ acc,
            foldl (λ matches e,
                     if Cache.isCacheFile prefix e then matches ++ [Cache.Name e] else matches)
                  acc
                  (omap (λ name, Cache.mkDirEntry name <$> (Cache.file_IsDir <$> files !! name))
                        names)
            = acc ++ filter (λ name, Cache.isCacheName prefix files name = true) names) as H.
  { induction names as [| name names IH]; intros acc.
    - cbn. by rewrite app_nil_r.
    - rewrite filter_cons. cbn [omap list_omap].
      destruct (decide (Cache.isCacheName prefix files name = true)) as [Hb | Hb];
        unfold Cache.isCacheName in Hb;
        destruct (files !! name) as [f |] eqn:Hf; cbn [fmap option_fmap option_map];
        try done.
      + cbn [foldl]. rewrite IH. unfold Cache.isCacheFile. cbn [Cache.Name Cache.IsDir].
        rewrite Hb. by rewrite <- app_assoc.
      + cbn [foldl]. rewrite IH. unfold Cache.isCacheFile. cbn [Cache.Name Cache.IsDir].
        by destruct (negb (Cache.file_IsDir f) && HasPrefix name prefix
                     && HasSuffix name ".json"). }
  by rewrite H.
Qed.

Lemma latestOf_entries prefix files :
  Cache.latestOf prefix (Cache.entriesOf files)
  = default "" (last (Cache.cacheFiles prefix files)).
Proof.
  rewrite <- matchesOf_entries. unfold Cache.latestOf, Cache.matchesOf.
  generalize (Cache.entriesOf files). intros entries.
  assert (∀ latest acc,
            latest = default "" (last acc) ->
            foldl (λ latest e, if Cache.isCacheFile prefix e then Cache.Name e else latest)
                  latest entries
            = default "" (last (foldl (λ matches e,
                                         if Cache.isCacheFile prefix e
                                         then matches ++ [Cache.Name e] else matches)
                                      acc entries))) as H.
  { induction entries as [| e entries IH]; intros latest acc Hl; cbn [foldl]; [done |].
    apply IH. destruct (Cache.isCacheFile prefix e); [| done]. by rewrite last_snoc. }
  by apply H.
Qed.

Lemma isCacheName_nonempty prefix files name :
  Cache.isCacheName prefix files name = true -> name ≠ "".
Proof.
  unfold Cache.isCacheName. intros H ->. destruct (files !! ""); [| done].
  apply andb_prop in H as [_ H]. done.
Qed.

Lemma cacheFiles_mono prefix (files files' : gmap string Cache.File) :
  files' ⊆ files ->
  length (Cache.cacheFiles prefix files') <= length (Cache.cacheFiles prefix files).
Proof.
  intros Hsub. destruct (cacheFiles_spec prefix files') as (_ & Hnd & Hin).
  destruct (cacheFiles_spec prefix files) as (_ & _ & Hin').
  apply submseteq_length, NoDup_submseteq; [done |].
  intros name Hn%Hin. apply Hin'. clear Hin Hin'. revert Hn. unfold Cache.isCacheName.
  destruct (files' !! name) as [f |] eqn:Hf; [| done].
  by rewrite (lookup_weaken _ _ _ _ Hf Hsub).
Qed.

(** The files left when the names [removed] are gone from a directory. *)
Lemma cacheFiles_removed prefix (files files' : gmap string Cache.File) removed kept :
  Cache.cacheFiles prefix files = removed ++ kept ->
  (∀ name, files' !! name = if bool_decide (name ∈ removed) then None else files !! name) ->
  Cache.cacheFiles prefix files' = kept.
Proof.
  intros Hcf Hfiles.
  destruct (cacheFiles_spec prefix files) as (Hs & Hnd & Hin).
  destruct (cacheFiles_spec prefix files') as (Hs' & Hnd' & Hin').
  rewrite Hcf in Hs, Hnd, Hin.
  apply (StronglySorted_unique String.le); [done | by eapply StronglySorted_app_1_r |].
  apply NoDup_app in Hnd as (_ & Hdisj & Hk).
  apply NoDup_Permutation; [done.. |]. intros name.
  rewrite Hin'. unfold Cache.isCacheName. rewrite Hfiles. case_bool_decide as Hr.
  - split; [done |]. intros Hkept. by destruct (Hdisj name).
  - specialize (Hin name). unfold Cache.isCacheName in Hin. rewrite <- Hin, elem_of_app.
    naive_solver.
Qed.

Section CacheProperties.

Variable filepathJoin : string -> string -> string.
Variable capacity : nat -> nat.
Variable rangeOrder : gset string -> list string.

(** [os.Remove] of a name in a directory: the file is gone, or an error is
    returned and nothing has changed. *)
Lemma Remove_spec dir name w :
  name ≠ "" ->
  ∃ err ds,
    Cache.Remove dir name w = Some (err, Cache.called (Cache.RemoveOp dir name) err ds w) /\
    (∀ d, d ≠ dir -> ds !! d = Cache.dirs w !! d) /\
    match Cache.dirs w !! dir with
    | None => ds = Cache.dirs w /\ is_Some err
    | Some files =>
        (err = None /\ ds = <[dir := delete name files]> (Cache.dirs w) /\
         (∃ f, files !! name = Some f /\ Cache.file_IsDir f = false))
        \/ (is_Some err /\ ds = Cache.dirs w /\
            (Cache.faults w (Cache.clock w) (Cache.RemoveOp dir name) = None ->
             ∀ f, files !! name = Some f -> Cache.file_IsDir f = true))
    end.
Proof.
  intros Hname. unfold Cache.Remove.
  destruct (Cache.faults w (Cache.clock w) (Cache.RemoveOp dir name)) as [msg |].
  { eexists _, _. split; [done |]. split; [done |].
    destruct (Cache.dirs w !! dir); [right |]; by eauto. }
  destruct (Cache.dirs w !! dir) as [files |] eqn:Hd.
  2:{ eexists _, _. split; [done |]. by eauto. }
  rewrite bool_decide_false by done.
  destruct (files !! name) as [f |] eqn:Hf.
  2:{ eexists _, _. split; [done |]. split; [done |]. right. by eauto. }
  destruct (Cache.file_IsDir f) eqn:Hdir.
  { eexists _, _. split; [done |]. split; [done |]. right.
    split; [by eauto |]. split; [done |]. intros _ f' [= <-]. done. }
  eexists _, _. split; [done |]. split.
  { intros d Hne. by rewrite lookup_insert_ne. }
  left. by eauto.
Qed.

(** The loop of [Clean]: every name is tried once, in order; what is
    counted is what was removed; nothing else of the directories changes. *)
Lemma Clean_range_spec dir toRemove :
  "" ∉ toRemove ->
  ∀ removed w,
  ∃ removed' w' evs,
    Cache.Clean_range filepathJoin dir toRemove removed w = Some (removed', w') /\
    Cache.trace w' = Cache.trace w ++ evs /\
    Cache.faults w' = Cache.faults w /\
    (Cache.removalsOf evs).*1 = (λ name, (dir, name)) <$> toRemove /\
    removed' = (removed + len (Cache.removedOf evs))%Z /\
    (∀ d, d ≠ dir -> Cache.dirs w' !! d = Cache.dirs w !! d) /\
    match Cache.dirs w !! dir with
    | None => Cache.dirs w' !! dir = None
    | Some files =>
        ∃ files',
          Cache.dirs w' !! dir = Some files' /\
          (∀ name, name ∉ toRemove -> files' !! name = files !! name) /\
          (∀ name, files' !! name = None \/ files' !! name = files !! name) /\
          ((∀ n op, Cache.faults w n op = None) ->
           ∀ name f, name ∈ toRemove -> files !! name = Some f ->
                     Cache.file_IsDir f = false -> files' !! name = None) /\
          ((∀ n op, Cache.faults w n op = None) ->
           NoDup toRemove ->
           (∀ name, name ∈ toRemove ->
                    ∃ f, files !! name = Some f /\ Cache.file_IsDir f = false) ->
           Cache.removedOf evs = (λ name, (dir, name)) <$> toRemove)
    end.
Proof.
  induction toRemove as [| name toRemove IH]; intros Hne removed w.
  { exists removed, w, []. cbn. rewrite app_nil_r.
    split; [done |]. split; [done |]. split; [done |]. split; [done |].
    split; [unfold len; cbn; lia |]. split; [done |].
    destruct (Cache.dirs w !! dir) as [files |]; [| done].
    exists files. split; [done |]. split; [done |]. split; [by right |].
    split; [| done]. intros _ ? ? ?%elem_of_nil. done. }
  apply not_elem_of_cons in Hne as [Hname Hne].
  destruct (Remove_spec dir name w) as (err & ds & Hrm & Hother & Hdir); [done |].
  cbn [Cache.Clean_range]. rewrite cache_bind_run, Hrm.
  set (w1 := Cache.called (Cache.RemoveOp dir name) err ds w).
  assert (∃ fmt args removed1,
            (match err with
             | Some e =>
                 Cache.logPrintf "Warning: could not remove cache file %s: %v"
                                 [AStr (filepathJoin dir name); AErr (Cache.message e)];;
                 Cache.Clean_range filepathJoin dir toRemove removed
             | None =>
                 Cache.logPrintf "  Removed old cache file: %s" [AStr name];;
                 Cache.Clean_range filepathJoin dir toRemove (removed + 1)%Z
             end) w1
            = Cache.Clean_range filepathJoin dir toRemove removed1
                                (Cache.emit (Cache.EvLog fmt args) w1) /\
            removed1 = (removed + len (Cache.removedOf [Cache.EvOp (Cache.RemoveOp dir name) err]))%Z)
    as (fmt & args & removed1 & -> & Hr1).
  { destruct err; eexists _, _, _; (split; [reflexivity |]); unfold len; cbn; lia. }
  set (w2 := Cache.emit (Cache.EvLog fmt args) w1).
  destruct (IH Hne removed1 w2) as (removed' & w' & evs & Hrun & Ht & Hf & Hrems & Hcount & Hoth & Hd).
  exists removed', w', ([Cache.EvOp (Cache.RemoveOp dir name) err; Cache.EvLog fmt args] ++ evs).
  split; [done |]. split.
  { rewrite Ht. subst w2 w1. cbn. by rewrite <- !app_assoc. }
  split; [by rewrite Hf |]. split.
  { rewrite removalsOf_app, fmap_app, Hrems. done. }
  split.
  { rewrite removedOf_app. rewrite Hcount, Hr1. unfold len. rewrite length_app.
    destruct err; cbn; lia. }
  split.
  { intros d Hd'. rewrite Hoth by done. subst w2 w1. cbn. by apply Hother. }
  assert (Cache.dirs w2 = ds) as Hds by done. rewrite Hds in Hd.
  destruct (Cache.dirs w !! dir) as [files |] eqn:Hfiles.
  2:{ destruct Hdir as [-> _]. by rewrite Hfiles in Hd. }
  destruct Hdir as [(-> & -> & f & Hf' & Hfd) | (Herr & -> & Hfault)].
  - rewrite lookup_insert_eq in Hd.
    destruct Hd as (files' & Hl & Hkeep & Hsub & Hgone & Hall).
    exists files'. split; [done |]. split.
    { intros n [Hn1 Hn2]%not_elem_of_cons. rewrite Hkeep by done. by rewrite lookup_delete_ne. }
    split.
    { intros n. destruct (Hsub n) as [H | H]; [by left |]. rewrite H.
      destruct (decide (name = n)) as [-> | Hn].
      - left. by rewrite lookup_delete_eq.
      - right. by rewrite lookup_delete_ne. }
    split.
    { intros Hnf n f0 Hn Hf0 Hf0d.
      destruct (decide (n ∈ toRemove)) as [Hin | Hin].
      + destruct (decide (name = n)) as [-> | Hnn].
        * destruct (Hsub n) as [H | H]; [done |]. by rewrite H, lookup_delete_eq.
        * apply (Hgone Hnf n f0); [done | by rewrite lookup_delete_ne | done].
      + apply elem_of_cons in Hn as [-> | Hn]; [| done].
        rewrite Hkeep by done. by rewrite lookup_delete_eq. }
    intros Hnf [Hnin Hnd]%NoDup_cons Hreg.
    rewrite removedOf_app, Hall; [done | done | done |].
    intros n Hn. destruct (Hreg n) as (f0 & Hf0 & Hf0d); [by right |].
    exists f0. split; [| done]. rewrite lookup_delete_ne; [done |]. by intros ->.
  - rewrite Hfiles in Hd. destruct Hd as (files' & Hl & Hkeep & Hsub & Hgone & Hall).
    exists files'. split; [done |]. split.
    { intros n [Hn1 Hn2]%not_elem_of_cons. by apply Hkeep. }
    split; [done |]. split.
    { intros Hnf n f0 Hn Hf0 Hf0d.
      apply elem_of_cons in Hn as [-> | Hn]; [| by apply (Hgone Hnf n f0)].
      specialize (Hfault (Hnf _ _) f0 Hf0). congruence. }
    intros Hnf _ Hreg. destruct (Hreg name) as (f0 & Hf0 & Hf0d); [by left |].
    specialize (Hfault (Hnf _ _) f0 Hf0). congruence.
Qed.

Lemma sliceTo_within matches n :
  (0 <= n <= len matches)%Z ->
  Cache.sliceTo capacity matches n = Some (take (Z.to_nat n) matches).
Proof.
  unfold len. intros Hn. unfold Cache.sliceTo.
  rewrite (bool_decide_true (0 <= n)%Z) by lia. cbn [andb].
  rewrite bool_decide_true.
  - by rewrite take_app_le by lia.
  - case_bool_decide; lia.
Qed.

Lemma cacheFiles_nonempty prefix files l :
  l ⊆ Cache.cacheFiles prefix files -> "" ∉ l.
Proof.
  intros Hl Hin%Hl. apply (cacheFiles_spec prefix files) in Hin.
  by apply isCacheName_nonempty in Hin.
Qed.

(** [Clean] with a number to keep that is not negative. *)
Lemma Clean_spec dir prefix keep w :
  (0 <= keep)%Z ->
  ∃ removed err w' evs,
    Cache.Clean filepathJoin capacity dir prefix keep w = Some ((removed, err), w') /\
    Cache.trace w' = Cache.trace w ++ evs /\
    Cache.faults w' = Cache.faults w /\
    removed = len (Cache.removedOf evs) /\
    (∀ d, d ≠ dir -> Cache.dirs w' !! d = Cache.dirs w !! d) /\
    (is_Some err <-> is_Some (Cache.faults w (Cache.clock w) (Cache.ReadDirOp dir))) /\
    match Cache.dirs w !! dir with
    | None => Cache.dirs w' !! dir = None /\ Cache.removalsOf evs = []
    | Some files =>
        let matches := Cache.cacheFiles prefix files in
        let toRemove := take (length matches - Z.to_nat keep) matches in
        ∃ files',
          Cache.dirs w' !! dir = Some files' /\
          (Cache.removalsOf evs).*1
          = (λ name, (dir, name))
              <$> (if Cache.faults w (Cache.clock w) (Cache.ReadDirOp dir) is Some _ then []
                   else toRemove) /\
          (∀ name, files' !! name = None \/ files' !! name = files !! name) /\
          (∀ name, name ∉ toRemove -> files' !! name = files !! name) /\
          ((∀ n op, Cache.faults w n op = None) ->
           removed = len toRemove /\
           ∀ name, files' !! name
                   = if bool_decide (name ∈ toRemove) then None else files !! name)
    end.
Proof.
  intros Hkeep. unfold Cache.Clean. rewrite cache_bind_run. unfold Cache.ReadDir.
  destruct (Cache.faults w (Cache.clock w) (Cache.ReadDirOp dir)) as [msg |] eqn:Hfault.
  { eexists _, _, _, [_]. split; [reflexivity |]. cbn.
    split; [done |]. split; [done |]. split; [done |]. split; [done |].
    split; [by split; eauto |].
    destruct (Cache.dirs w !! dir) as [files |]; [| done].
    exists files. split; [done |]. split; [done |]. split; [by right |]. split; [done |].
    intros Hnf. by rewrite Hnf in Hfault. }
  destruct (Cache.dirs w !! dir) as [files |] eqn:Hfiles.
  2:{ eexists _, _, _, [_]. split; [reflexivity |]. cbn. rewrite Hfiles.
      repeat split; try done; by intros [? ?]. }
  cbn zeta. rewrite matchesOf_entries.
  destruct (cacheFiles_spec prefix files) as (Hs & Hnd & Hin).
  rewrite (sortStrings_id _ Hs).
  set (cf := Cache.cacheFiles prefix files) in *.
  set (w1 := Cache.called (Cache.ReadDirOp dir) None (Cache.dirs w) w).
  case_bool_decide as Hlen.
  { eexists _, _, _, [_]. split; [reflexivity |]. cbn. rewrite Hfiles.
    split; [done |]. split; [done |]. split; [done |]. split; [done |].
    split; [by split; intros [? ?] |].
    exists files. unfold len in Hlen.
    replace (length cf - Z.to_nat keep) with 0 by lia. rewrite take_0.
    split; [done |]. split; [done |]. split; [by right |]. split; [done |].
    intros _. split; [done |].
    intros name. by rewrite bool_decide_false by apply not_elem_of_nil. }
  unfold len in Hlen. rewrite sliceTo_within by (unfold len; lia).
  replace (Z.to_nat (len cf - keep)) with (length cf - Z.to_nat keep) by (unfold len; lia).
  set (toRemove := take (length cf - Z.to_nat keep) cf).
  assert ("" ∉ toRemove) as Hne.
  { apply (cacheFiles_nonempty prefix files). apply subseteq_take. }
  destruct (Clean_range_spec dir toRemove Hne 0%Z w1)
    as (removed' & w' & evs & Hrun & Ht & Hf & Hrems & Hcount & Hoth & Hd).
  rewrite cache_bind_run, Hrun.
  exists removed', None, w', (Cache.EvOp (Cache.ReadDirOp dir) None :: evs).
  split; [done |]. split; [by rewrite Ht; cbn; rewrite <- app_assoc |].
  split; [done |]. split.
  { rewrite Hcount.
    change (Cache.removedOf (Cache.EvOp (Cache.ReadDirOp dir) None :: evs))
      with (Cache.removedOf evs). lia. }
  split; [done |]. split; [by split; intros [? ?] |].
  change (Cache.dirs w1) with (Cache.dirs w) in Hd. rewrite Hfiles in Hd.
  destruct Hd as (files' & Hl & Hkept & Hsub & Hgone & Hall).
  exists files'. split; [done |]. split; [done |]. split; [done |]. split; [done |].
  assert (∀ name, name ∈ toRemove ->
                  ∃ f, files !! name = Some f /\ Cache.file_IsDir f = false) as Hreg.
  { intros name Hr. assert (name ∈ cf) as Hcf by (by eapply subseteq_take).
    apply Hin in Hcf. unfold Cache.isCacheName in Hcf.
    destruct (files !! name) as [f |] eqn:Hfn; [| done].
    exists f. split; [done |]. by destruct (Cache.file_IsDir f). }
  intros Hnf. split.
  { rewrite Hcount, Hall; [| done | | done].
    - unfold len. rewrite length_fmap. lia.
    - eapply sublist_NoDup; [done | apply sublist_take]. }
  intros name. case_bool_decide as Hr; [| by apply Hkept].
  destruct (Hreg name Hr) as (f & Hfn & Hfd). by apply (Hgone Hnf name f).
Qed.

Lemma isCacheName_lookup prefix (files files' : gmap string Cache.File) name :
  files' !! name = files !! name ->
  Cache.isCacheName prefix files' name = Cache.isCacheName prefix files name.
Proof. unfold Cache.isCacheName. by intros ->. Qed.

(** The loop of [CleanAll] over the prefixes, when nothing fails. *)
Lemma CleanAll_range_spec dir keep prefixes :
  (0 <= keep)%Z ->
  ∀ total files w,
  Cache.dirs w !! dir = Some files ->
  (∀ n op, Cache.faults w n op = None) ->
  ∃ total' files' w' evs,
    Cache.CleanAll_range filepathJoin capacity dir keep prefixes total w
    = Some ((total', None), w') /\
    Cache.trace w' = Cache.trace w ++ evs /\
    Cache.dirs w' !! dir = Some files' /\
    files' ⊆ files /\
    total' = (total + len (Cache.removedOf evs))%Z /\
    (∀ p, p ∈ prefixes -> length (Cache.cacheFiles p files') <= Z.to_nat keep) /\
    (∀ name, (∀ p, p ∈ prefixes -> Cache.isCacheName p files name = false) ->
             files' !! name = files !! name).
Proof.
  intros Hkeep. induction prefixes as [| p prefixes IH]; intros total files w Hfiles Hnf.
  { exists total, files, w, []. cbn. rewrite app_nil_r. unfold len. cbn.
    split; [done |]. split; [done |]. split; [done |]. split; [done |].
    split; [lia |]. split; [| done]. by intros ? ?%elem_of_nil. }
  destruct (Clean_spec dir p keep w Hkeep)
    as (n & err & w1 & evs1 & Hrun & Ht & Hf & Hn & _ & Herr & Hd).
  rewrite Hfiles in Hd. cbn zeta in Hd.
  destruct Hd as (files1 & Hl1 & _ & _ & _ & Hgone).
  destruct (Hgone Hnf) as [_ Hgone'']. clear Hgone. rename Hgone'' into Hgone.
  assert (err = None) as ->.
  { destruct err as [e |]; [| done]. destruct Herr as [Herr _].
    rewrite Hnf in Herr. by destruct Herr. }
  set (cf := Cache.cacheFiles p files) in *.
  set (toRemove := take (length cf - Z.to_nat keep) cf) in *.
  assert (files1 ⊆ files) as Hsub1.
  { apply map_subseteq_spec. intros name f. rewrite Hgone. by case_bool_decide. }
  assert (Cache.cacheFiles p files1 = drop (length cf - Z.to_nat keep) cf) as Hcf1.
  { apply (cacheFiles_removed p files files1 toRemove); [| done].
    symmetry. apply take_drop. }
  rewrite <- Hf in Hnf.
  destruct (IH (total + n)%Z files1 w1 Hl1 Hnf)
    as (total' & files' & w' & evs & Hrun' & Ht' & Hl' & Hsub' & Htotal & Hbound & Hkept).
  exists total', files', w', (evs1 ++ evs).
  cbn [Cache.CleanAll_range]. rewrite cache_bind_run, Hrun.
  split; [done |]. split; [by rewrite Ht', Ht, <- app_assoc |].
  split; [done |]. split; [by etrans |]. split.
  { rewrite removedOf_app. unfold len in *. rewrite length_app. lia. }
  split.
  - intros q [-> | Hq]%elem_of_cons; [| by apply Hbound].
    etrans; [by apply cacheFiles_mono |]. rewrite Hcf1, length_drop. lia.
  - intros name Hname.
    assert (files1 !! name = files !! name) as H1.
    { rewrite Hgone. case_bool_decide as Hr; [| done].
      apply subseteq_take in Hr. apply (cacheFiles_spec p files) in Hr.
      rewrite Hname in Hr by left. done. }
    rewrite <- H1. apply Hkept. intros q Hq.
    rewrite (isCacheName_lookup q files files1 name H1). apply Hname. by right.
Qed.

Lemma elem_of_entriesOf (files : gmap string Cache.File) e :
  e ∈ Cache.entriesOf files
  <-> ∃ f, files !! Cache.Name e = Some f /\ Cache.IsDir e = Cache.file_IsDir f.
Proof.
  unfold Cache.entriesOf. rewrite list_elem_of_omap. split.
  - intros (name & _ & He). destruct (files !! name) as [f |] eqn:Hf; [| done].
    cbn in He. injection He as <-. by exists f.
  - intros (f & Hf & Hd). exists (Cache.Name e). split.
    + by apply names_sorted.
    + rewrite Hf. cbn. rewrite <- Hd. by destruct e.
Qed.

Lemma elem_of_discoverPrefixes entries p :
  p ∈ Cache.discoverPrefixes entries
  <-> ∃ e, e ∈ entries /\ Cache.IsDir e = false /\ HasSuffix (Cache.Name e) ".json" = true /\
           Cache.yearPrefix (Cache.Name e) = Some p.
Proof.
  unfold Cache.discoverPrefixes.
  match goal with |- context [foldl ?f ∅ entries] => set (step := f) end.
  assert (∀ (acc : gset string) e,
            p ∈ step acc e
            <-> p ∈ acc \/ (Cache.IsDir e = false /\ HasSuffix (Cache.Name e) ".json" = true /\
                            Cache.yearPrefix (Cache.Name e) = Some p)) as Hstep.
  { intros acc e. unfold step.
    destruct (Cache.IsDir e); cbn [orb negb]; [naive_solver |].
    destruct (HasSuffix (Cache.Name e) ".json"); cbn [negb]; [| naive_solver].
    destruct (Cache.yearPrefix (Cache.Name e)) as [q |]; [| naive_solver].
    rewrite elem_of_union, elem_of_singleton. naive_solver. }
  assert (∀ acc : gset string,
            p ∈ foldl step acc entries
            <-> p ∈ acc \/ (∃ e, e ∈ entries /\ Cache.IsDir e = false /\
                                 HasSuffix (Cache.Name e) ".json" = true /\
                                 Cache.yearPrefix (Cache.Name e) = Some p)) as H.
  { clearbody step. induction entries as [| e entries IH]; intros acc; cbn [foldl].
    - split; [by left |]. intros [? | (? & ?%elem_of_nil & _)]; done.
    - rewrite IH, Hstep. setoid_rewrite elem_of_cons. naive_solver. }
  rewrite H. split; [| by right]. intros [?%elem_of_empty | ?]; done.
Qed.

(** [CleanAll], when nothing fails. *)
Lemma CleanAll_spec dir keep files w :
  (0 <= keep)%Z ->
  Cache.dirs w !! dir = Some files ->
  (∀ n op, Cache.faults w n op = None) ->
  ∃ total files' w' evs,
    Cache.CleanAll filepathJoin capacity rangeOrder dir keep w = Some ((total, None), w') /\
    Cache.trace w' = Cache.trace w ++ evs /\
    Cache.dirs w' !! dir = Some files' /\
    files' ⊆ files /\
    total = len (Cache.removedOf evs) /\
    (∀ p, p ∈ rangeOrder (Cache.discoverPrefixes (Cache.entriesOf files)) ->
          length (Cache.cacheFiles p files') <= Z.to_nat keep) /\
    (∀ name f, files !! name = Some f ->
               Cache.file_IsDir f = true \/ HasSuffix name ".json" = false ->
               files' !! name = Some f).
Proof.
  intros Hkeep Hfiles Hnf. unfold Cache.CleanAll. rewrite cache_bind_run. unfold Cache.ReadDir.
  rewrite Hnf, Hfiles.
  set (w1 := Cache.called (Cache.ReadDirOp dir) None (Cache.dirs w) w).
  destruct (CleanAll_range_spec dir keep
              (rangeOrder (Cache.discoverPrefixes (Cache.entriesOf files))) Hkeep 0%Z files w1
              Hfiles Hnf)
    as (total & files' & w' & evs & Hrun & Ht & Hl & Hsub & Htotal & Hbound & Hkept).
  exists total, files', w', (Cache.EvOp (Cache.ReadDirOp dir) None :: evs).
  split; [done |]. split; [by rewrite Ht; cbn; rewrite <- app_assoc |].
  split; [done |]. split; [done |]. split.
  { rewrite Htotal.
    change (Cache.removedOf (Cache.EvOp (Cache.ReadDirOp dir) None :: evs))
      with (Cache.removedOf evs). lia. }
  split; [done |].
  intros name f Hf Hno. rewrite <- Hf. apply Hkept. intros p _.
  unfold Cache.isCacheName. rewrite Hf.
  destruct Hno as [-> | ->]; [done |]. by rewrite andb_false_r.
Qed.

(** X26.  [Clean] with a number [keep] that is not negative, on a directory
    that exists and when no call of the system fails, removes the oldest
    cache files of the prefix and keeps the [keep] newest: the cache files,
    ascending by name, are the removed ones followed by the kept ones, the
    kept ones are [keep] in number or all of them, the count returned is the
    number of removed files, and afterwards the directory lacks exactly the
    removed files. *)
Theorem Clean_keeps_newest dir prefix keep files w :
  (0 <= keep)%Z ->
  Cache.dirs w !! dir = Some files ->
  (∀ n op, Cache.faults w n op = None) ->
  ∃ removed kept files' w',
    Cache.Clean filepathJoin capacity dir prefix keep w = Some ((len removed, None), w') /\
    Cache.cacheFiles prefix files = removed ++ kept /\
    length kept = Nat.min (Z.to_nat keep) (length (Cache.cacheFiles prefix files)) /\
    (∀ r k, r ∈ removed -> k ∈ kept -> String.le r k /\ r ≠ k) /\
    Cache.dirs w' !! dir = Some files' /\
    (∀ name, files' !! name = if bool_decide (name ∈ removed) then None else files !! name) /\
    Cache.cacheFiles prefix files' = kept.
Proof.
  intros Hkeep Hfiles Hnf.
  destruct (Clean_spec dir prefix keep w Hkeep)
    as (n & err & w' & evs & Hrun & Ht & Hf & Hn & _ & Herr & Hd).
  rewrite Hfiles in Hd. cbn zeta in Hd. rewrite Hnf in Hd.
  destruct Hd as (files' & Hl & _ & _ & _ & Hgone).
  destruct (Hgone Hnf) as [-> Hlookup]. clear Hgone.
  assert (err = None) as ->.
  { destruct err as [e |]; [| done]. destruct Herr as [Herr _].
    rewrite Hnf in Herr. by destruct Herr. }
  destruct (cacheFiles_spec prefix files) as (Hs & Hnd & Hin).
  set (cf := Cache.cacheFiles prefix files) in *.
  set (removed := take (length cf - Z.to_nat keep) cf) in *.
  assert (cf = removed ++ drop (length cf - Z.to_nat keep) cf) as Hcf
    by (symmetry; apply take_drop).
  exists removed, (drop (length cf - Z.to_nat keep) cf), files', w'.
  split; [done |]. split; [done |]. split; [rewrite length_drop; lia |]. split.
  { intros r k Hr Hk. rewrite Hcf in Hs, Hnd. split.
    - by eapply StronglySorted_app_1_elem_of.
    - intros ->. apply NoDup_app in Hnd as (_ & Hdisj & _). by apply (Hdisj k). }
  split; [done |]. split; [done |].
  by apply (cacheFiles_removed prefix files files' removed).
Qed.

(** X27.  [Clean] with a number [keep] that is not negative always returns,
    whatever fails: it returns an error exactly when reading the directory
    fails for another reason than the directory being absent, it tries to
    remove only cache files of the prefix in the directory, it counts the
    removals that succeeded, and every other file and every other directory
    is left as it was. *)
Theorem Clean_only_cache_files dir prefix keep w :
  (0 <= keep)%Z ->
  ∃ removed err w' evs,
    Cache.Clean filepathJoin capacity dir prefix keep w = Some ((removed, err), w') /\
    Cache.trace w' = Cache.trace w ++ evs /\
    (is_Some err <-> is_Some (Cache.faults w (Cache.clock w) (Cache.ReadDirOp dir))) /\
    removed = len (Cache.removedOf evs) /\
    (∀ d name e, (d, name, e) ∈ Cache.removalsOf evs ->
                 d = dir /\
                 ∃ files, Cache.dirs w !! dir = Some files /\
                          Cache.isCacheName prefix files name = true) /\
    (∀ d, d ≠ dir -> Cache.dirs w' !! d = Cache.dirs w !! d) /\
    match Cache.dirs w !! dir with
    | None => Cache.dirs w' !! dir = None
    | Some files =>
        ∃ files', Cache.dirs w' !! dir = Some files' /\
                  ∀ name, Cache.isCacheName prefix files name = false ->
                          files' !! name = files !! name
    end.
Proof.
  intros Hkeep.
  destruct (Clean_spec dir prefix keep w Hkeep)
    as (n & err & w' & evs & Hrun & Ht & Hf & Hn & Hoth & Herr & Hd).
  exists n, err, w', evs.
  split; [done |]. split; [done |]. split; [done |]. split; [done |].
  destruct (Cache.dirs w !! dir) as [files |] eqn:Hfiles.
  - cbn zeta in Hd. destruct Hd as (files' & Hl & Hrems & _ & Hkept & _).
    assert (∀ name, name ∈ take (length (Cache.cacheFiles prefix files) - Z.to_nat keep)
                               (Cache.cacheFiles prefix files) ->
                    Cache.isCacheName prefix files name = true) as Hcache.
    { intros name Hr%subseteq_take. by apply (cacheFiles_spec prefix files). }
    split.
    + intros d name e Hr.
      assert ((d, name) ∈ (Cache.removalsOf evs).*1) as Hr'.
      { apply list_elem_of_fmap. by exists (d, name, e). }
      rewrite Hrems in Hr'. apply list_elem_of_fmap in Hr' as (name' & [= -> ->] & Hname).
      split; [done |]. exists files. split; [done |].
      destruct (Cache.faults w (Cache.clock w) (Cache.ReadDirOp dir));
        [by apply elem_of_nil in Hname | by apply Hcache].
    + split; [done |]. exists files'. split; [done |].
      intros name Hname. apply Hkept. intros Hr%Hcache. congruence.
  - destruct Hd as [Hd Hrems]. split; [| done].
    intros d name e Hr. rewrite Hrems in Hr. by apply elem_of_nil in Hr.
Qed.

(** X28.  [Clean] with a negative number to keep does not return when the
    directory can be read and has no cache file of the prefix: the slice of
    the names to remove is taken beyond the capacity of a nil slice. *)
Theorem Clean_negative_keep_panics dir prefix keep files w :
  (keep < 0)%Z ->
  Cache.dirs w !! dir = Some files ->
  Cache.faults w (Cache.clock w) (Cache.ReadDirOp dir) = None ->
  Cache.cacheFiles prefix files = [] ->
  Cache.Clean filepathJoin capacity dir prefix keep w = None.
Proof.
  intros Hkeep Hfiles Hfault Hcf. unfold Cache.Clean. rewrite cache_bind_run.
  unfold Cache.ReadDir. rewrite Hfault, Hfiles. cbn zeta.
  rewrite matchesOf_entries, Hcf.
  change (Cache.sortStrings []) with (@nil string).
  rewrite bool_decide_false by (unfold len; cbn; lia).
  unfold Cache.sliceTo. cbn [length]. rewrite (bool_decide_true (0 = 0)) by done.
  rewrite (bool_decide_false (Z.to_nat _ <= 0)) by (unfold len; cbn; lia).
  by rewrite andb_false_r.
Qed.

(** X29.  [Enforce], on a directory that exists and when no call of the
    system fails, returns and leaves at most [limit] cache files, or five
    when [limit] is not positive, for every prefix that a file of the
    directory gives: the part of the name of a JSON file before its first
    year.  Subdirectories and files that are not JSON files stay, and
    nothing is added.  The [range] over the prefixes visits every key. *)
Theorem Enforce_bounds_every_prefix dir limit files w :
  (∀ (prefixSet : gset string) p, p ∈ prefixSet -> p ∈ rangeOrder prefixSet) ->
  Cache.dirs w !! dir = Some files ->
  (∀ n op, Cache.faults w n op = None) ->
  ∃ files' w',
    Cache.Enforce filepathJoin capacity rangeOrder dir limit w = Some (tt, w') /\
    Cache.dirs w' !! dir = Some files' /\
    files' ⊆ files /\
    (∀ name f prefix,
       files !! name = Some f -> Cache.file_IsDir f = false ->
       HasSuffix name ".json" = true -> Cache.yearPrefix name = Some prefix ->
       length (Cache.cacheFiles prefix files')
       <= Z.to_nat (if bool_decide (limit <= 0)%Z then Cache.DefaultCacheLimit else limit)) /\
    (∀ name f, files !! name = Some f ->
               Cache.file_IsDir f = true \/ HasSuffix name ".json" = false ->
               files' !! name = Some f).
Proof.
  intros Hrange Hfiles Hnf. unfold Cache.Enforce. cbn zeta.
  set (keep := if bool_decide (limit <= 0)%Z then Cache.DefaultCacheLimit else limit).
  assert (0 <= keep)%Z as Hkeep.
  { subst keep. unfold Cache.DefaultCacheLimit. case_bool_decide; lia. }
  destruct (CleanAll_spec dir keep files w Hkeep Hfiles Hnf)
    as (total & files' & w' & evs & Hrun & Ht & Hl & Hsub & Htotal & Hbound & Hkept).
  rewrite cache_bind_run, Hrun.
  assert (∃ w'', (if bool_decide (0 < total)%Z
                  then Cache.logPrintf
                         "Cache cleanup: removed %d old file(s) (keeping %d per prefix)"
                         [AInt total; AInt keep]
                  else mret tt) w' = Some (tt, w'') /\ Cache.dirs w'' = Cache.dirs w')
    as (w'' & -> & Hdirs).
  { case_bool_decide; eexists; (split; [reflexivity | done]). }
  exists files', w''. split; [done |]. rewrite Hdirs. split; [done |]. split; [done |].
  split; [| done].
  intros name f p Hf Hfd Hjson Hp. apply Hbound, Hrange, elem_of_discoverPrefixes.
  exists (Cache.mkDirEntry name false). split; [| done].
  apply elem_of_entriesOf. exists f. by split.
Qed.

(** X30.  [ReadLatest], on a directory that exists and when no call of the
    system fails, changes no file; when the directory has no cache file of
    the prefix it returns no items and no error and reads no file; otherwise
    it reads one file, the cache file of the prefix whose name is the
    greatest, and returns what [json.Unmarshal] makes of its content, or the
    error of it. *)
Theorem ReadLatest_reads_greatest (T : Type) (Unmarshal : string -> list T * error)
    dir prefix files w :
  Cache.dirs w !! dir = Some files ->
  (∀ n op, Cache.faults w n op = None) ->
  ∃ r w' evs,
    Cache.ReadLatest filepathJoin T Unmarshal dir prefix w = Some (r, w') /\
    Cache.trace w' = Cache.trace w ++ evs /\
    Cache.dirs w' = Cache.dirs w /\
    match last (Cache.cacheFiles prefix files) with
    | None => r = ([], None) /\ Cache.readsOf evs = []
    | Some latest =>
        Cache.readsOf evs = [(dir, latest)] /\
        (∀ name, name ∈ Cache.cacheFiles prefix files -> String.le name latest) /\
        ∃ f, files !! latest = Some f /\
             r = match Unmarshal (Cache.file_Data f) with
                 | (items, None) => (items, None)
                 | (_, Some e) =>
                     ([], Errorf "unmarshal %s: %w" [AStr (filepathJoin dir latest); AErr e])
                 end
    end.
Proof.
  intros Hfiles Hnf. unfold Cache.ReadLatest. rewrite cache_bind_run. unfold Cache.ReadDir.
  rewrite Hnf, Hfiles. cbn zeta. rewrite latestOf_entries.
  destruct (cacheFiles_spec prefix files) as (Hs & Hnd & Hin).
  destruct (last (Cache.cacheFiles prefix files)) as [latest |] eqn:Hlast;
    cbn [default id].
  2:{ rewrite bool_decide_true by done. eexists _, _, [_]. split; [reflexivity |]. done. }
  apply last_Some in Hlast as [older Hcf]. rewrite Hcf in Hs, Hin |- *.
  assert (Cache.isCacheName prefix files latest = true) as Hlatest.
  { apply Hin, elem_of_app. right. by apply list_elem_of_singleton. }
  rewrite bool_decide_false by (by apply isCacheName_nonempty in Hlatest).
  unfold Cache.isCacheName in Hlatest.
  destruct (files !! latest) as [f |] eqn:Hf; [| done].
  assert (Cache.file_IsDir f = false) as Hfd by (by destruct (Cache.file_IsDir f)).
  rewrite cache_bind_run. unfold Cache.ReadFile.
  cbn [Cache.called Cache.dirs Cache.faults Cache.clock]. rewrite Hnf, Hfiles.
  change (Some files ≫= (λ files0 : gmap string Cache.File, files0 !! latest))
    with (files !! latest).
  rewrite Hf, Hfd.
  assert (∀ name, name ∈ older ++ [latest] -> String.le name latest) as Hmax.
  { intros name [Hn | ->%list_elem_of_singleton]%elem_of_app; [| done].
    eapply StronglySorted_app_1_elem_of; [done.. |]. by apply list_elem_of_singleton. }
  destruct (Unmarshal (Cache.file_Data f)) as [items [e |]] eqn:Hu.
  - eexists _, _, [_; _]. split; [reflexivity |]. cbn. rewrite <- app_assoc.
    split; [done |]. split; [done |]. split; [done |]. split; [done |].
    exists f. by rewrite Hu.
  - eexists _, _, [_; _; _]. split; [reflexivity |]. cbn. rewrite <- !app_assoc.
    split; [done |]. split; [done |]. split; [done |]. split; [done |].
    exists f. by rewrite Hu.
Qed.

End CacheProperties.

(** ** Further examples *)

Lemma LinkProjectToRepositories_invalid_format_witness :
  Forall (λ repo, Contains repo "/" = false) ["norepo"] /\
  LinkProjectToRepositories "PVT_x" ["norepo"] (exampleWorld reliable)
  = Some ((0%Z, 1%Z, None),
          mkWorld exampleServer 0 reliable [invalidRepo "norepo"]).
Proof.
  assert (H : Forall (λ repo, Contains repo "/" = false) ["norepo"])
    by (repeat constructor).
  split; [exact H |].
  exact (LinkProjectToRepositories_invalid_format "PVT_x" ["norepo"] (exampleWorld reliable) H).
Defined.

Lemma FindProject_sound_witness :
  ∃ p w',
    FindProject 1 "ben" "My Board" (exampleWorld reliable) = Some ((Some p, None), w') /\
    Info_Title p = "My Board".
Proof.
  eexists _, _. split; [reflexivity |].
  exact (proj1 (proj2 (FindProject_sound 1 "ben" "My Board" (exampleWorld reliable)
                         _ _ _ eq_refl))).
Defined.

Lemma FindProject_first_match_witness :
  length (projects (server (exampleWorld reliable))) < pageSize * 1 /\
  ∃ w', FindProject 1 "ben" "My Board" (exampleWorld reliable)
        = Some ((match List.find (hasTitle "My Board")
                                 (ownedProjects false "ben" exampleServer) with
                 | Some p => Some p
                 | None => List.find (hasTitle "My Board")
                                     (ownedProjects true "ben" exampleServer)
                 end, None), w').
Proof.
  assert (H : length (projects (server (exampleWorld reliable))) < pageSize * 1)
    by exact exampleServer_fuel.
  split; [exact H |].
  destruct (FindProject_first_match 1 "ben" "My Board" (exampleWorld reliable) H
              (λ _ _, eq_refl) (λ _ _, eq_refl)) as (w' & Hrun & _).
  exists w'. exact Hrun.
Defined.

Lemma CreateProject_then_FindProject_witness :
  ∃ p w1,
    CreateProject "ben" "New Board" (exampleWorld reliable) = Some ((Some p, None), w1) /\
    length (projects (server w1)) < pageSize * 1 /\
    ∃ w2, FindProject 1 "ben" "New Board" w1 = Some ((Some p, None), w2).
Proof.
  eexists _, _. split; [reflexivity |].
  match goal with |- ?P /\ _ => assert (H : P) by (vm_compute; lia) end.
  split; [exact H |].
  destruct (CreateProject_then_FindProject 1 "ben" "New Board" (exampleWorld reliable) _ _
              eq_refl H (λ _ _, eq_refl) (λ _ _, eq_refl))
    as (p' & w2 & Hrun & _ & Hsame).
  exists w2. rewrite <- (Hsame eq_refl eq_refl). exact Hrun.
Defined.

Lemma board_readers_all_or_nothing_witness :
  length (board (server (exampleWorld reliable)) "PVT_x") < pageSize * 1 /\
  ∃ items w',
    getProjectItems 1 "PVT_x" (exampleWorld reliable) = Some ((items, None), w') /\
    items = listingOf (board exampleServer "PVT_x").
Proof.
  assert (H : length (board (server (exampleWorld reliable)) "PVT_x") < pageSize * 1)
    by (vm_compute; lia).
  split; [exact H |].
  destruct (board_readers_all_or_nothing 1 "PVT_x" (exampleWorld reliable) H)
    as [(items & err & w' & Hrun & _ & Hall & _ & Hnil) _].
  assert (err = None) as -> by (apply Hnil; intros n c; reflexivity).
  exists items, w'. split; [exact Hrun |]. exact (Hall eq_refl).
Defined.

Lemma removeStaleItems_listing_failure_witness :
  length (board (server (exampleWorld failsFirst)) "PVT_x") < pageSize * 1 /\
  ∃ removed err w' evs,
    removeStaleItems 1 "PVT_x" [itemC] (exampleWorld failsFirst) = Some ((removed, err), w') /\
    trace w' = trace (exampleWorld failsFirst) ++ evs /\
    (removed = len (succeeded (deletesOf evs)))%Z.
Proof.
  assert (H : length (board (server (exampleWorld failsFirst)) "PVT_x") < pageSize * 1)
    by (vm_compute; lia).
  split; [exact H |].
  destruct (removeStaleItems_listing_failure 1 "PVT_x" [itemC] (exampleWorld failsFirst) H)
    as (removed & err & w' & evs & Hrun & Ht & Hrem & _).
  exists removed, err, w', evs. split; [exact Hrun |]. split; [exact Ht | exact Hrem].
Defined.





Lemma EnsureViews_columns_valid_witness :
  length (Views.viewsOf (Views.server exampleViewsWorld) "PVT_x") < Views.pageSize * 1 /\
  ∃ w' evs,
    Views.EnsureViews 1 "PVT_x" exampleDesired [Some exampleFields] exampleViewsWorld
      = Some (tt, w') /\
    Views.trace w' = Views.trace exampleViewsWorld ++ evs /\
    ∀ p vid ids,
      Views.UpdateProjectV2ViewFields p vid ids ∈ Views.requestsOf evs ->
      p = "PVT_x" /\ ids ≠ [].
Proof.
  assert (H : length (Views.viewsOf (Views.server exampleViewsWorld) "PVT_x")
              < Views.pageSize * 1) by (vm_compute; lia).
  split; [exact H |].
  destruct (EnsureViews_columns_valid 1 "PVT_x" exampleDesired [Some exampleFields]
              exampleViewsWorld H)
    as (w' & evs & Hrun & Ht & Hcols).
  exists w', evs. split; [exact Hrun |]. split; [exact Ht |].
  intros p vid ids Hreq. destruct (Hcols p vid ids Hreq) as (Hp & Hids & _).
  split; [exact Hp | exact Hids].
Defined.

Lemma Clean_keeps_newest_witness :
  (0 <= 2)%Z /\
  Cache.dirs exampleCache !! "cache" = Some exampleDir /\
  (∀ n op, Cache.faults exampleCache n op = None) /\
  ∃ removed kept w',
    Cache.Clean slashJoin exactCapacity "cache" "issues_" 2 exampleCache
      = Some ((len removed, None), w') /\
    Cache.cacheFiles "issues_" exampleDir = removed ++ kept /\
    length kept = Nat.min (Z.to_nat 2) (length (Cache.cacheFiles "issues_" exampleDir)).
Proof.
  assert (H1 : (0 <= 2)%Z) by lia.
  assert (H2 : Cache.dirs exampleCache !! "cache" = Some exampleDir)
    by (apply lookup_singleton_eq).
  assert (H3 : ∀ n op, Cache.faults exampleCache n op = None) by (intros; reflexivity).
  split; [exact H1 |]. split; [exact H2 |]. split; [exact H3 |].
  destruct (Clean_keeps_newest slashJoin exactCapacity "cache" "issues_" 2 exampleDir
              exampleCache H1 H2 H3)
    as (removed & kept & files' & w' & Hrun & Hcf & Hlen & _).
  exists removed, kept, w'. split; [exact Hrun |]. split; [exact Hcf | exact Hlen].
Defined.

Lemma Clean_only_cache_files_witness :
  (0 <= 2)%Z /\
  ∃ removed err w' evs,
    Cache.Clean slashJoin exactCapacity "cache" "issues_" 2 exampleCache
      = Some ((removed, err), w') /\
    Cache.trace w' = Cache.trace exampleCache ++ evs /\
    removed = len (Cache.removedOf evs).
Proof.
  assert (H1 : (0 <= 2)%Z) by lia.
  split; [exact H1 |].
  destruct (Clean_only_cache_files slashJoin exactCapacity "cache" "issues_" 2 exampleCache H1)
    as (removed & err & w' & evs & Hrun & Ht & _ & Hcount & _).
  exists removed, err, w', evs. split; [exact Hrun |]. split; [exact Ht | exact Hcount].
Defined.

Lemma Clean_negative_keep_panics_witness :
  (-1 < 0)%Z /\
  Cache.dirs exampleCache !! "cache" = Some exampleDir /\
  Cache.faults exampleCache (Cache.clock exampleCache) (Cache.ReadDirOp "cache") = None /\
  Cache.cacheFiles "milestones_" exampleDir = [] /\
  Cache.Clean slashJoin exactCapacity "cache" "milestones_" (-1) exampleCache = None.
Proof.
  assert (H1 : (-1 < 0)%Z) by lia.
  assert (H2 : Cache.dirs exampleCache !! "cache" = Some exampleDir)
    by (apply lookup_singleton_eq).
  assert (H3 : Cache.faults exampleCache (Cache.clock exampleCache) (Cache.ReadDirOp "cache")
               = None) by reflexivity.
  assert (H4 : Cache.cacheFiles "milestones_" exampleDir = []) by (vm_compute; reflexivity).
  split; [exact H1 |]. split; [exact H2 |]. split; [exact H3 |]. split; [exact H4 |].
  exact (Clean_negative_keep_panics slashJoin exactCapacity "cache" "milestones_" (-1)
           exampleDir exampleCache H1 H2 H3 H4).
Defined.

Lemma Enforce_bounds_every_prefix_witness :
  (∀ (prefixSet : gset string) p, p ∈ prefixSet -> p ∈ keysInOrder prefixSet) /\
  Cache.dirs exampleCache !! "cache" = Some exampleDir /\
  (∀ n op, Cache.faults exampleCache n op = None) /\
  ∃ files' w',
    Cache.Enforce slashJoin exactCapacity keysInOrder "cache" 2 exampleCache = Some (tt, w') /\
    Cache.dirs w' !! "cache" = Some files' /\
    length (Cache.cacheFiles "issues_" files') <= 2.
Proof.
  assert (H1 : ∀ (prefixSet : gset string) p, p ∈ prefixSet -> p ∈ keysInOrder prefixSet)
    by (intros prefixSet p Hp; apply elem_of_elements; exact Hp).
  assert (H2 : Cache.dirs exampleCache !! "cache" = Some exampleDir)
    by (apply lookup_singleton_eq).
  assert (H3 : ∀ n op, Cache.faults exampleCache n op = None) by (intros; reflexivity).
  split; [exact H1 |]. split; [exact H2 |]. split; [exact H3 |].
  destruct (Enforce_bounds_every_prefix slashJoin exactCapacity keysInOrder "cache" 2
              exampleDir exampleCache H1 H2 H3)
    as (files' & w' & Hrun & Hl & _ & Hbound & _).
  exists files', w'. split; [exact Hrun |]. split; [exact Hl |].
  apply (Hbound "issues_2025-01-15T10-30-00.json" (Cache.mkFile false "[]") "issues_");
    vm_compute; reflexivity.
Defined.

Lemma ReadLatest_reads_greatest_witness :
  Cache.dirs exampleCache !! "cache" = Some exampleDir /\
  (∀ n op, Cache.faults exampleCache n op = None) /\
  ∃ r w' evs,
    Cache.ReadLatest slashJoin nat noItems "cache" "issues_" exampleCache = Some (r, w') /\
    Cache.trace w' = Cache.trace exampleCache ++ evs /\
    Cache.dirs w' = Cache.dirs exampleCache.
Proof.
  assert (H2 : Cache.dirs exampleCache !! "cache" = Some exampleDir)
    by (apply lookup_singleton_eq).
  assert (H3 : ∀ n op, Cache.faults exampleCache n op = None) by (intros; reflexivity).
  split; [exact H2 |]. split; [exact H3 |].
  destruct (ReadLatest_reads_greatest slashJoin nat noItems "cache" "issues_" exampleDir
              exampleCache H2 H3)
    as (r & w' & evs & Hrun & Ht & Hd & _).
  exists r, w', evs. split; [exact Hrun |]. split; [exact Ht | exact Hd].
Defined.
